(** * Form block: field builder, conditional visibility, submission, OTP flow

    A shallow embedding of [src/blocks/form/form.ts].  The DOM is a tree of
    elements; an element reference of the script is the path of child indices
    from the form element to the node, so that a mutation through a reference
    is an update of the tree at that path.  Event listeners are data attached
    to elements, the closures of [initOtpBehavior] are a record of the page. *)

From Stdlib Require Import String Ascii ZArith List Bool Lia.
From stdpp Require Import base tactics option list strings gmap pretty.
Import ListNotations.
Open Scope string_scope.
Open Scope list_scope.
Set Warnings "-register-all".

(** ** Strings as the script uses them *)

Module Str.

(** A string is truthy when it is not empty. *)
Definition truthy (s : string) : bool :=
  match s with EmptyString => false | String _ _ => true end.

(** [a || b] on an optional string: the first operand when it is a non-empty
    string, the second one otherwise. *)
Definition or_else (o : option string) (d : string) : string :=
  match o with
  | Some s => if truthy s then s else d
  | None => d
  end.

(** A template literal prints [undefined] for a missing value. *)
Definition template (o : option string) : string :=
  match o with Some s => s | None => "undefined" end.

(** [s.includes(sub)] *)
Fixpoint includes (s sub : string) : bool :=
  String.prefix sub s ||
  match s with
  | EmptyString => false
  | String _ s' => includes s' sub
  end.

(** [s.split(sep)] for a one-character separator. *)
Fixpoint split (sep : ascii) (s : string) : list string :=
  match s with
  | EmptyString => [EmptyString]
  | String c s' =>
      if Ascii.eqb c sep then EmptyString :: split sep s'
      else match split sep s' with
           | w :: ws => String c w :: ws
           | [] => [String c EmptyString]
           end
  end.

(** The white space [trim] strips, among the ASCII characters; the white
    space beyond them (U+00A0 and the like) is outside the model. *)
Definition is_space (c : ascii) : bool :=
  let n := nat_of_ascii c in
  (n =? 32)%nat || ((9 <=? n)%nat && (n <=? 13)%nat).

Fixpoint trimStart (s : string) : string :=
  match s with
  | EmptyString => EmptyString
  | String c s' => if is_space c then trimStart s' else s
  end.

(** [s.trim()] *)
Definition trim (s : string) : string :=
  String.rev (trimStart (String.rev (trimStart s))).

(** [l.join(sep)] *)
Definition join (sep : string) (l : list string) : string := String.concat sep l.

Definition is_digit (c : ascii) : bool :=
  let n := nat_of_ascii c in (48 <=? n)%nat && (n <=? 57)%nat.

Definition is_upper (c : ascii) : bool :=
  let n := nat_of_ascii c in (65 <=? n)%nat && (n <=? 90)%nat.

Definition is_lower (c : ascii) : bool :=
  let n := nat_of_ascii c in (97 <=? n)%nat && (n <=? 122)%nat.

Definition lower (c : ascii) : ascii :=
  if is_upper c then ascii_of_nat (nat_of_ascii c + 32) else c.

Definition upper (c : ascii) : ascii :=
  if is_lower c then ascii_of_nat (nat_of_ascii c - 32) else c.

Fixpoint map (f : ascii -> ascii) (s : string) : string :=
  match s with
  | EmptyString => EmptyString
  | String c s' => String (f c) (map f s')
  end.

Fixpoint filter (f : ascii -> bool) (s : string) : string :=
  match s with
  | EmptyString => EmptyString
  | String c s' => if f c then String c (filter f s') else filter f s'
  end.

(** [s.toLowerCase()] on ASCII text. *)
Definition toLowerCase (s : string) : string := map lower s.

(** [String(b)] *)
Definition of_bool (b : bool) : string := if b then "true" else "false".

End Str.

(** ** The two helpers the block imports

    [toClassName] and [toCamelCase] live in [utils/], outside the block's
    file; the block is embedded over any pair of such functions. *)

Class Utils := {
  toClassName : string -> string;
  toCamelCase : string -> string;
}.

(** Modelled from the spec: [utils/toClassName] is not part of the block's
    file.  The spec calls it a class-name-safe normalization: lower-casing,
    and every run of whitespace or punctuation collapsed (here to one dash). *)
Module SpecUtils.

Definition is_alnum (c : ascii) : bool :=
  Str.is_digit c || Str.is_lower c || Str.is_upper c.

Fixpoint collapse (s : string) : string :=
  match s with
  | EmptyString => EmptyString
  | String c s' =>
      if is_alnum c then String c (collapse s')
      else match collapse s' with
           | String "-" r => String "-" r
           | r => String "-" r
           end
  end.

Definition toClassName (s : string) : string := collapse (Str.toLowerCase s).

(** Modelled from the spec: [utils/toCamelCase] is not part of the block's
    file either.  The spec says only that ids are derived deterministically
    from the field name; the words of a name are joined here, each one after
    the first capitalised. *)
Fixpoint camel (up : bool) (s : string) : string :=
  match s with
  | EmptyString => EmptyString
  | String c s' =>
      if is_alnum c then String (if up then Str.upper c else c) (camel false s')
      else camel true s'
  end.

Definition toCamelCase (s : string) : string :=
  match s with
  | EmptyString => EmptyString
  | String c s' => camel false (String (Str.lower c) s')
  end.

End SpecUtils.

(** ** The DOM *)

(** A reference to an element: the child indices that lead to it from the
    form element. *)
Definition path := list nat.

(** The map [controllerConfig]: controller name to the controlled controls, in
    insertion order (a JavaScript [Map] iterates in that order). *)
Definition ControllerConfig := list (string * list path).

(** The listeners the script registers; a listener that closes over
    [controllerConfig] carries it. *)
Inductive Handler :=
| OnToggleChange                                   (* buildToggle: input, change *)
| OnFormChange (controllerConfig : ControllerConfig) (* enableConditionals: form, change *)
| OnFormSubmit                                     (* enableSubmission: form, submit *)
| OnFormInput                                      (* enableSubmission: form, input *)
| OnMobileInput                                    (* initOtpBehavior: mobile input, input *)
| OnResendClick                                    (* initOtpBehavior: resend button, click *)
| OnOtpSubmitCount                                 (* initOtpBehavior: form, submit (first) *)
| OnOtpSubmitVerify.                               (* initOtpBehavior: form, submit (second) *)

(** One element: its tag, [className], content attributes (the reflecting IDL
    properties [id], [name], [type], [required], [disabled], [dataset] and the
    like are attributes), and the state that is no attribute: the value, the
    checkedness (selectedness for an [option]), the text set through
    [textContent], [style.display] and the listeners. *)
Record Element := mkElement {
  tagName : string;
  className : string;
  attrs : gmap string string;
  value : string;
  checked : bool;
  textContent : string;
  display : string;
  listeners : list (string * Handler);
}.

Inductive node := Node (e : Element) (kids : list node).

Definition elem (n : node) : Element := let 'Node e _ := n in e.
Definition children (n : node) : list node := let 'Node _ k := n in k.

Module Dom.

Definition set_attrs (f : gmap string string -> gmap string string) (e : Element) : Element :=
  mkElement (tagName e) (className e) (f (attrs e)) (value e) (checked e)
            (textContent e) (display e) (listeners e).

Definition set_className (c : string) (e : Element) : Element :=
  mkElement (tagName e) c (attrs e) (value e) (checked e)
            (textContent e) (display e) (listeners e).

Definition set_value (v : string) (e : Element) : Element :=
  mkElement (tagName e) (className e) (attrs e) v (checked e)
            (textContent e) (display e) (listeners e).

Definition set_checked (b : bool) (e : Element) : Element :=
  mkElement (tagName e) (className e) (attrs e) (value e) b
            (textContent e) (display e) (listeners e).

Definition set_textContent (t : string) (e : Element) : Element :=
  mkElement (tagName e) (className e) (attrs e) (value e) (checked e)
            t (display e) (listeners e).

Definition set_display (d : string) (e : Element) : Element :=
  mkElement (tagName e) (className e) (attrs e) (value e) (checked e)
            (textContent e) d (listeners e).

Definition add_listener (ev : string) (h : Handler) (e : Element) : Element :=
  mkElement (tagName e) (className e) (attrs e) (value e) (checked e)
            (textContent e) (display e) (listeners e ++ [(ev, h)]).

(** [el.setAttribute(k, v)], [el.removeAttribute(k)], and a boolean reflecting
    property such as [el.required = b]. *)
Definition setAttr (k v : string) : Element -> Element := set_attrs (insert k v).
Definition removeAttr (k : string) : Element -> Element := set_attrs (delete k).
Definition setBoolAttr (k : string) (b : bool) : Element -> Element :=
  if b then setAttr k "" else removeAttr k.

Definition getAttr (k : string) (e : Element) : option string := attrs e !! k.
Definition hasAttr (k : string) (e : Element) : bool :=
  match attrs e !! k with Some _ => true | None => false end.

(** A reflecting string property reads as the empty string when the attribute
    is absent ([el.id], [el.name]); a [dataset] entry reads as [undefined]. *)
Definition prop (k : string) (e : Element) : string := default "" (attrs e !! k).

(** [document.createElement(tag)] *)
Definition blank (tag : string) : Element :=
  mkElement tag "" ∅ "" false "" "" [].

(** *** Nodes by path *)

Fixpoint get (p : path) (n : node) : option node :=
  match p with
  | [] => Some n
  | i :: p' =>
      match children n !! i with
      | Some c => get p' c
      | None => None
      end
  end.

(** The element a reference points to. *)
Definition at_path (p : path) (n : node) : option Element := elem <$> get p n.

(** A mutation of the element a reference points to. *)
Fixpoint update (p : path) (f : Element -> Element) (n : node) : node :=
  match p with
  | [] => Node (f (elem n)) (children n)
  | i :: p' =>
      match children n !! i with
      | Some c => Node (elem n) (<[i := update p' f c]> (children n))
      | None => n
      end
  end.

(** [parent.append(child)] at the element a reference points to. *)
Fixpoint append (p : path) (c : node) (n : node) : node :=
  match p with
  | [] => Node (elem n) (children n ++ [c])
  | i :: p' =>
      match children n !! i with
      | Some k => Node (elem n) (<[i := append p' c k]> (children n))
      | None => n
      end
  end.

Definition attr_at (p : path) (k : string) (n : node) : option string :=
  at_path p n ≫= getAttr k.

Definition has_attr_at (p : path) (k : string) (n : node) : bool :=
  match attr_at p k n with Some _ => true | None => false end.

(** *** Selectors *)

(** The class list of an element holds a class. *)
Definition has_class (c : string) (e : Element) : bool :=
  bool_decide (c ∈ Str.split " " (className e)).

Definition is_tag (t : string) (e : Element) : bool := String.eqb (tagName e) t.

Definition attr_is (k v : string) (e : Element) : bool :=
  match attrs e !! k with
  | Some w => String.eqb w v
  | None => false
  end.

(** The descendants of a node in tree order, each with its path from that
    node; the node itself is not one of them. *)
Definition under (i : nat) (pe : path * Element) : path * Element :=
  (i :: fst pe, snd pe).

Fixpoint descendants (n : node) : list (path * Element) :=
  match n with
  | Node _ ks =>
      (fix go (i : nat) (l : list node) : list (path * Element) :=
         match l with
         | [] => []
         | c :: l' =>
             (([i], elem c) :: List.map (under i) (descendants c)) ++ go (S i) l'
         end) 0%nat ks
  end.

(** [root.querySelectorAll(sel)], [root.querySelector(sel)], with the
    references relative to [root]. *)
Definition querySelectorAll (sel : Element -> bool) (root : node) : list path :=
  fst <$> List.filter (fun pe => sel (snd pe)) (descendants root).

Definition querySelector (sel : Element -> bool) (root : node) : option path :=
  head (querySelectorAll sel root).

(** The same two queries below the element a reference of the form points to;
    the results are references of the form again. *)
Definition querySelectorAll_at (p : path) (sel : Element -> bool) (form : node) : list path :=
  match get p form with
  | Some n => (fun q => p ++ q) <$> querySelectorAll sel n
  | None => []
  end.

Definition querySelector_at (p : path) (sel : Element -> bool) (form : node) : option path :=
  head (querySelectorAll_at p sel form).

(** The element and its ancestors, innermost first. *)
Fixpoint inclusive_ancestors (p : path) : list path :=
  match p with
  | [] => [[]]
  | i :: p' => (List.map (cons i) (inclusive_ancestors p')) ++ [[]]
  end.

(** [el.closest(sel)]: the innermost of the element and its ancestors that
    matches, [null] when there is none. *)
Definition closest (sel : Element -> bool) (p : path) (form : node) : option path :=
  List.find (fun q => match at_path q form with Some e => sel e | None => false end)
            (inclusive_ancestors p).

End Dom.

(** ** The browser

    What the block asks of the browser and the script cannot compute: whether
    [new URL(s)] accepts a string, the validity ([validity.valid]) that
    constraint validation gives the control a reference points to, and what
    an object literal inherits: for a property name that [Object.prototype]
    defines ([constructor], [toString], [__proto__], ...), the text a
    template string makes of the inherited value, which is a function or an
    object; no text for any other name. *)
Class Browser := {
  isURL : string -> bool;
  valid : node -> path -> bool;
  inherited : string -> option string;
}.

(** ** Field descriptors *)


Module Field.

(** [FieldConfig]: every member is an optional string. *)
Record t := mk {
  type : option string;
  field : option string;
  label : option string;
  help : option string;
  required : option string;
  default : option string;
  placeholder : option string;
  options : option string;
  conditional : option string;
  value : option string;
  pattern : option string;
  maxlength : option string;
  inputmode : option string;
}.

Definition empty : t :=
  mk None None None None None None None None None None None None None.

(** [{ ...field, type: ty }] *)
Definition with_type (ty : string) (f : t) : t :=
  mk (Some ty) (field f) (label f) (help f) (required f) (default f)
     (placeholder f) (options f) (conditional f) (value f) (pattern f)
     (maxlength f) (inputmode f).

(** [x === 'lit'] on an optional string. *)
Definition equals (o : option string) (lit : string) : bool :=
  match o with Some s => String.eqb s lit | None => false end.

(** Truthiness of an optional string, and the string of a truthy one. *)
Definition given (o : option string) : option string :=
  match o with
  | Some s => if Str.truthy s then Some s else None
  | None => None
  end.

End Field.

Definition FieldList := list Field.t.

(** ** The field builder *)

Section Builder.
Context `{Utils} `{Browser}.

(** [createElement(tag, className)] *)
Definition createElement (tag : string) (className : option string) : Element :=
  match Field.given className with
  | Some c => Dom.set_className c (Dom.blank tag)
  | None => Dom.blank tag
  end.

Definition generateId (name : string) (option : option string) : string :=
  let id := toCamelCase name in
  match Field.given option with
  | Some o => id +:+ "-" +:+ toCamelCase o
  | None => id
  end.

Definition writeHelpText (text inputId : string) : node :=
  let help := createElement "p" (Some "field-help-text") in
  let help := Dom.set_textContent text help in
  let help := Dom.setAttr "id" (inputId +:+ "-help") help in
  Node help [].

(** [buildLabel(text, type, id, required)]; [type] is ["label"] or ["legend"]. *)
Definition buildLabel (text type : string) (id : option string) (required : bool) : Element :=
  let label := createElement type None in
  let label := Dom.set_textContent text label in
  let label :=
    match Field.given id with
    | Some i => if String.eqb type "label" then Dom.setAttr "for" i label else label
    | None => label
    end in
  if required then Dom.setAttr "data-required" "true" label else label.

(** An optional assignment [if (x) el.k = x]. *)
Definition setAttr_if (k : string) (o : option string) (e : Element) : Element :=
  match Field.given o with
  | Some v => Dom.setAttr k v e
  | None => e
  end.

Definition set_value_if (o : option string) (e : Element) : Element :=
  match Field.given o with
  | Some v => Dom.set_value v e
  | None => e
  end.

(** [Number(s)] as [maxLength] keeps it, for a string of decimal digits; any
    other string counts as 0 here (the other spellings of a number that
    [Number] reads are left out). *)
Definition maxLength_of (s : string) : string :=
  if Str.truthy s && String.eqb (Str.filter Str.is_digit s) s
  then s else "0".

(** [buildInput(field)].  The assignments are taken to succeed and to keep
    the text assigned: a [maxLength] that the setter refuses, a value
    assigned to a file input and the sanitization of the value of a typed
    input are outside the model. *)
Definition buildInput (field : Field.t) : Element :=
  let input := createElement "input" None in
  let input := Dom.setAttr "type" (Str.or_else (Field.type field) "text") input in
  let input := Dom.setAttr "id" (generateId (Str.or_else (Field.field field) "field") None) input in
  let input := Dom.setAttr "name" (Dom.prop "id" input) input in
  let input := Dom.setBoolAttr "required" (Field.equals (Field.required field) "true") input in
  let input := set_value_if (Field.default field) input in
  let input := setAttr_if "placeholder" (Field.placeholder field) input in
  let input := setAttr_if "pattern" (Field.pattern field) input in
  let input := setAttr_if "maxlength" (maxLength_of <$> Field.given (Field.maxlength field)) input in
  let input := setAttr_if "inputmode" (Field.inputmode field) input in
  input.

Definition buildTextArea (field : Field.t) : Element :=
  let textarea := createElement "textarea" None in
  let textarea := Dom.setAttr "id" (generateId (Str.or_else (Field.field field) "field") None) textarea in
  let textarea := Dom.setAttr "name" (Dom.prop "id" textarea) textarea in
  let textarea := Dom.setBoolAttr "required" (Field.equals (Field.required field) "true") textarea in
  let textarea := Dom.setAttr "rows" "5" textarea in
  let textarea := set_value_if (Field.default field) textarea in
  let textarea := setAttr_if "placeholder" (Field.placeholder field) textarea in
  textarea.

Definition buildOptionInput (field : Field.t) (option : string) : Element :=
  let id := generateId (Str.or_else (Field.field field) "field") (Some option) in
  let input := createElement "input" None in
  let input := Dom.setAttr "type" (Str.or_else (Field.type field) "text") input in
  let input := Dom.setAttr "id" id input in
  let input := Dom.setAttr "name" (generateId (Str.or_else (Field.field field) "field") None) input in
  let input := Dom.set_value option input in
  let input := Dom.set_checked (Field.equals (Field.default field) option) input in
  let input := Dom.setBoolAttr "required" (Field.equals (Field.required field) "true") input in
  input.

(** The tagging of a controlled wrapper:
    [dataset.controller = controlled.split('-')[0]; dataset.condition = controlled]. *)
Definition tagControlled (controlled : option string) (e : Element) : Element :=
  match Field.given controlled with
  | Some c =>
      let controller := hd "" (Str.split "-" c) in
      Dom.setAttr "data-condition" c (Dom.setAttr "data-controller" controller e)
  | None => e
  end.

(** The label of one option: [labelEl.prepend(input, span)]. *)
Definition optionLabel (input : Element) (text : string) (required : bool) : node :=
  let span := createElement "span" None in
  let labelEl := buildLabel text "label" (Some (Dom.prop "id" input)) required in
  Node labelEl [Node input []; Node span []].

Definition buildOptions (field : Field.t) (controlled : option string) : option node :=
  match Field.given (Field.options field) with
  | None => None
  | Some options =>
      let fieldset :=
        createElement "fieldset"
          (Some ("form-field " +:+ Str.template (Field.type field) +:+ "-field")) in
      let fieldset := tagControlled controlled fieldset in
      let legend :=
        buildLabel (Str.or_else (Field.label field) "") "legend" None
                   (Field.equals (Field.required field) "true") in
      let labels :=
        List.map (fun o =>
                    let option := Str.trim o in
                    optionLabel (buildOptionInput field option) option false)
                 (Str.split "," options) in
      Some (Node fieldset (Node legend [] :: labels))
  end.

(** One [option] element of a select. *)
Definition optionEl (value text : string) : Element :=
  Dom.set_textContent text (Dom.set_value value (createElement "option" None)).

(** [buildSelect]: when [options] parses as a URL the options arrive later,
    from [buildOptionsFromUrl], and the select is returned without them. *)
Definition buildSelect (field : Field.t) (controlled : option string) : option node :=
  match Field.given (Field.options field) with
  | None => None
  | Some options =>
      let wrapper :=
        createElement "div"
          (Some ("form-field " +:+ Str.or_else (Field.type field) "text" +:+ "-field")) in
      let wrapper := tagControlled controlled wrapper in
      let id := generateId (Str.or_else (Field.field field) "field") None in
      let label :=
        buildLabel (Str.or_else (Field.label field) "") "label" (Some id)
                   (Field.equals (Field.required field) "true") in
      let select := createElement "select" None in
      let select := Dom.setAttr "id" id select in
      let select := Dom.setAttr "name" (Dom.prop "id" select) select in
      let select := Dom.setBoolAttr "required" (Field.equals (Field.required field) "true") select in
      let placeholderOption :=
        match Field.given (Field.placeholder field) with
        | Some ph =>
            [Node (Dom.set_checked true (Dom.setBoolAttr "disabled" true (optionEl "" ph))) []]
        | None => []
        end in
      let listed :=
        if isURL options then []
        else List.map (fun o => let option := Str.trim o in Node (optionEl option option) [])
                      (Str.split "," options) in
      Some (Node wrapper [Node label []; Node select (placeholderOption ++ listed)])
  end.

Definition buildToggle (field : Field.t) (controlled : option string) : node :=
  let wrapper := createElement "div" (Some "form-field toggle-field") in
  let wrapper := tagControlled controlled wrapper in
  let input :=
    buildOptionInput (Field.with_type "checkbox" field)
                     (Str.or_else (Field.default field) "true") in
  let input := Dom.setAttr "role" "switch" input in
  let input := Dom.setAttr "aria-checked" (Str.of_bool (checked input)) input in
  let input := Dom.add_listener "change" OnToggleChange input in
  let labelEl :=
    optionLabel input (Str.or_else (Field.label field) "")
                (Field.equals (Field.required field) "true") in
  Node wrapper [labelEl].

Definition buildButton (field : Field.t) : Element :=
  let button := createElement "button" None in
  let button := Dom.set_className "button" button in
  let button := Dom.setAttr "type" (Str.or_else (Field.type field) "button") button in
  let button := Dom.set_textContent (Str.or_else (Field.label field) "") button in
  if Field.equals (Field.type field) "reset"
  then Dom.set_className "button secondary" button
  else button.

(** [parent.append(child)] on a node under construction. *)
Definition appended (c : node) (n : node) : node := Node (elem n) (children n ++ [c]).

(** [wrapper.insertBefore(input, wrapper.firstChild.nextSibling)], or
    [wrapper.append(input)] when the wrapper has no first child. *)
Definition insertAfterFirst (c : node) (n : node) : node :=
  match children n with
  | first :: rest => Node (elem n) (first :: c :: rest)
  | [] => Node (elem n) [c]
  end.

Definition buildField (field : Field.t) : node :=
  let type := Field.type field in
  let help := Field.given (Field.help field) in
  let controlled := Field.given (Field.conditional field) in
  let safeFieldName := Str.or_else (Field.field field) "field" in
  if Field.equals type "hidden" then Node (buildInput field) []
  else if Field.equals type "submit" || Field.equals type "reset" then Node (buildButton field) []
  else if Field.equals type "radio" || Field.equals type "checkbox" then
    match buildOptions field controlled, help with
    | Some fieldset, Some h => appended (writeHelpText h (generateId safeFieldName None)) fieldset
    | Some fieldset, None => fieldset
    | None, _ => Node (createElement "div" None) []
    end
  else if Field.equals type "toggle" then
    let toggle := buildToggle field controlled in
    match help with
    | Some h => appended (writeHelpText h (generateId safeFieldName None)) toggle
    | None => toggle
    end
  else if Field.equals type "select" then
    match buildSelect field controlled, help with
    | Some select, Some h => appended (writeHelpText h (generateId safeFieldName None)) select
    | Some select, None => select
    | None, _ => Node (createElement "div" None) []
    end
  else
    let wrapper :=
      createElement "div" (Some ("form-field " +:+ Str.template type +:+ "-field")) in
    let wrapper := tagControlled controlled wrapper in
    let inputId := generateId safeFieldName None in
    let wrapper :=
      Node wrapper [Node (buildLabel (Str.or_else (Field.label field) "") "label"
                                     (Some inputId)
                                     (Field.equals (Field.required field) "true")) []] in
    let helpText := (fun h => writeHelpText h inputId) <$> help in
    let wrapper :=
      match helpText with
      | Some h => appended h wrapper
      | None => wrapper
      end in
    let input :=
      if Field.equals type "textarea" then buildTextArea field else buildInput field in
    let input :=
      match helpText with
      | Some h => Dom.setAttr "aria-describedby" (Dom.prop "id" (elem h)) input
      | None => input
      end in
    if Field.equals type "textarea" then appended (Node input []) wrapper
    else insertAfterFirst (Node input []) wrapper.

End Builder.

(** ** Reading controls *)

Module Control.

Definition is_option (n : node) : bool := Dom.is_tag "option" (elem n).

(** [select.value]: the value of the first selected option; a select that
    shows one row and has no selected option selects its first option that is
    not disabled; the empty string when there is none. *)
Definition select_value (options : list node) : string :=
  let options := List.filter is_option options in
  match List.find (fun o => checked (elem o)) options with
  | Some o => value (elem o)
  | None =>
      match List.find (fun o => negb (Dom.hasAttr "disabled" (elem o))) options with
      | Some o => value (elem o)
      | None => ""
      end
  end.

(** [el.value] of the control a reference points to. *)
Definition value_of (p : path) (form : node) : string :=
  match Dom.get p form with
  | Some n => if Dom.is_tag "select" (elem n) then select_value (children n) else value (elem n)
  | None => ""
  end.

(** [el.name], [el.id] *)
Definition name_of (p : path) (form : node) : string :=
  match Dom.at_path p form with Some e => Dom.prop "name" e | None => "" end.

Definition id_of (p : path) (form : node) : string :=
  match Dom.at_path p form with Some e => Dom.prop "id" e | None => "" end.

(** The keywords of an input's [type] attribute; [input.type] reads as
    ["text"] for any other text. *)
Definition input_types : list string :=
  ["hidden"; "text"; "search"; "tel"; "url"; "email"; "password"; "date";
   "month"; "week"; "time"; "datetime-local"; "number"; "range"; "color";
   "checkbox"; "radio"; "file"; "submit"; "image"; "reset"; "button"].

(** [el.type] of a form control. *)
Definition type_of (e : Element) : string :=
  if Dom.is_tag "input" e then
    let t := Str.toLowerCase (Dom.prop "type" e) in
    if bool_decide (t ∈ input_types) then t else "text"
  else if Dom.is_tag "select" e then "select-one"
  else if Dom.is_tag "textarea" e then "textarea"
  else if Dom.is_tag "fieldset" e then "fieldset"
  else if Dom.is_tag "button" e then
    let t := Str.toLowerCase (Dom.prop "type" e) in
    if bool_decide (t ∈ ["submit"; "reset"; "button"]) then t else "submit"
  else "".

(** The elements [form.elements] lists. *)
Definition listed (e : Element) : bool :=
  (Dom.is_tag "input" e && negb (String.eqb (type_of e) "image"))
  || Dom.is_tag "button" e || Dom.is_tag "fieldset" e || Dom.is_tag "select" e
  || Dom.is_tag "textarea" e || Dom.is_tag "object" e || Dom.is_tag "output" e.

(** ['disabled' in control] *)
Definition has_disabled (e : Element) : bool :=
  Dom.is_tag "input" e || Dom.is_tag "button" e || Dom.is_tag "fieldset" e
  || Dom.is_tag "select" e || Dom.is_tag "textarea" e.

(** [:checked] *)
Definition is_checked (e : Element) : bool :=
  ((Dom.is_tag "input" e
    && (String.eqb (type_of e) "checkbox" || String.eqb (type_of e) "radio"))
   || Dom.is_tag "option" e)
  && checked e.

(** The selectors of the script.  A selector by name stands for
    [[name="..."]] with the name between the quotes; a name that holds a
    quote, a backslash or a line break, for which that text reads as another
    selector or as none, is outside the model. *)
Definition sel_controlled (e : Element) : bool := Dom.hasAttr "data-controller" e.
Definition sel_control (e : Element) : bool :=
  Dom.is_tag "input" e || Dom.is_tag "textarea" e || Dom.is_tag "select" e.
Definition sel_named (name : string) (e : Element) : bool := Dom.attr_is "name" name e.
Definition sel_named_checked (name : string) (e : Element) : bool :=
  Dom.attr_is "name" name e && is_checked e.
Definition sel_select_named (name : string) (e : Element) : bool :=
  Dom.is_tag "select" e && Dom.attr_is "name" name e.
Definition sel_input_named (name : string) (e : Element) : bool :=
  Dom.is_tag "input" e && Dom.attr_is "name" name e.
Definition sel_form_field (e : Element) : bool := Dom.has_class "form-field" e.

End Control.

(** ** Running a handler

    A handler that throws stops where it is; what it did to the form until
    then stays done. *)
Inductive Completion := Normal (form : node) | Thrown (form : node).

Definition form_of (c : Completion) : node :=
  match c with Normal f => f | Thrown f => f end.

(** [l.forEach(body)] *)
Fixpoint forEach {A : Type} (body : A -> node -> Completion) (l : list A) (form : node)
  : Completion :=
  match l with
  | [] => Normal form
  | x :: l' =>
      match body x form with
      | Normal form' => forEach body l' form'
      | Thrown form' => Thrown form'
      end
  end.

(** ** The conditional visibility engine *)

Section Conditionals.
Context `{Utils}.

(** [controllerConfig.get(k)], [controllerConfig.has(k)], and
    [controllerConfig.get(k).push(input)] after the [set(k, [])] of a new key. *)
Fixpoint cfg_get (k : string) (cfg : ControllerConfig) : option (list path) :=
  match cfg with
  | [] => None
  | (k', v) :: cfg' => if String.eqb k' k then Some v else cfg_get k cfg'
  end.

Fixpoint cfg_push (k : string) (input : path) (cfg : ControllerConfig) : ControllerConfig :=
  match cfg with
  | [] => [(k, [input])]
  | (k', v) :: cfg' =>
      if String.eqb k' k then (k', v ++ [input]) :: cfg'
      else (k', v) :: cfg_push k input cfg'
  end.

(** [condition ? condition.includes(toClassName(value)) : false] *)
Definition conditionMet (condition : option string) (value : string) : bool :=
  match Field.given condition with
  | Some c => Str.includes c (toClassName value)
  | None => false
  end.

(** The callback of [inputs.forEach] in [toggleConditional]. *)
Definition toggleConditional_each (target : path) (i : path) (form : node) : Completion :=
  match Dom.closest Control.sel_form_field i form with
  | None => Thrown form
  | Some field =>
      let condition := Dom.attr_at field "data-condition" form in
      let conditionMet := conditionMet condition (Control.value_of target form) in
      let form := Dom.update field (Dom.setAttr "aria-hidden" (Str.of_bool (negb conditionMet))) form in
      if conditionMet then
        let form :=
          if Field.equals (Dom.attr_at i "data-original-required" form) "true"
          then Dom.update i (Dom.setAttr "required" "") form
          else form in
        Normal (Dom.update i (Dom.removeAttr "tabindex") form)
      else
        let form := Dom.update i (Dom.removeAttr "required") form in
        Normal (Dom.update i (Dom.setAttr "tabindex" "-1") form)
  end.

(** [toggleConditional(e, controllerConfig)], with [e.target] as a reference. *)
Definition toggleConditional (target : path) (controllerConfig : ControllerConfig)
  (form : node) : Completion :=
  let controller := Control.name_of target form in
  match cfg_get controller controllerConfig with
  | Some inputs => forEach (toggleConditional_each target) inputs form
  | None => Normal form
  end.

(** The value [initConditionals] finds for a controller: that of the first
    checked control of that name, else that of the first select of that
    name, else [null]. *)
Definition controllerValue (controller : string) (form : node) : option string :=
  match Dom.querySelector (Control.sel_named_checked controller) form with
  | Some checked => Some (Control.value_of checked form)
  | None =>
      match Dom.querySelector (Control.sel_select_named controller) form with
      | Some select => Some (Control.value_of select form)
      | None => None
      end
  end.

(** The snapshot of the required state:
    [if (!input.dataset.originalRequired) input.dataset.originalRequired = 'true']. *)
Definition storeOriginalRequired (input : path) (form : node) : node :=
  match Field.given (Dom.attr_at input "data-original-required" form) with
  | Some _ => form
  | None => Dom.update input (Dom.setAttr "data-original-required" "true") form
  end.

(** The callback of [controlledInputs.forEach] when the controller has a value. *)
Definition initConditionals_resolved (safeValue : string) (input : path) (form : node)
  : Completion :=
  match Dom.closest Control.sel_form_field input form with
  | None => Thrown form
  | Some field =>
      let condition := Dom.attr_at field "data-condition" form in
      let conditionMet := conditionMet condition safeValue in
      let form := Dom.update field (Dom.setAttr "aria-hidden" (Str.of_bool (negb conditionMet))) form in
      let form :=
        if Dom.has_attr_at input "required" form then
          let form := storeOriginalRequired input form in
          if negb conditionMet then Dom.update input (Dom.removeAttr "required") form
          else form
        else form in
      if conditionMet
      then Normal (Dom.update input (Dom.removeAttr "tabindex") form)
      else Normal (Dom.update input (Dom.setAttr "tabindex" "-1") form)
  end.

(** The callback of [controlledInputs.forEach] when it has none. *)
Definition initConditionals_unresolved (input : path) (form : node) : Completion :=
  match Dom.closest Control.sel_form_field input form with
  | None => Thrown form
  | Some field =>
      let form := Dom.update field (Dom.setAttr "aria-hidden" "true") form in
      let form :=
        if Dom.has_attr_at input "required" form then
          let form := storeOriginalRequired input form in
          Dom.update input (Dom.removeAttr "required") form
        else form in
      Normal (Dom.update input (Dom.setAttr "tabindex" "-1") form)
  end.

(** The callback of [controllerConfig.forEach]. *)
Definition initConditionals_each (entry : string * list path) (form : node) : Completion :=
  let '(controller, controlledInputs) := entry in
  match Field.given (controllerValue controller form) with
  | Some safeValue => forEach (initConditionals_resolved safeValue) controlledInputs form
  | None => forEach initConditionals_unresolved controlledInputs form
  end.

Definition initConditionals (form : node) (controllerConfig : ControllerConfig) : Completion :=
  forEach initConditionals_each controllerConfig form.

(** The ARIA cross references of one controlling input and one controlled one. *)
Definition linkAria (input : path) (controllerInput : path) (form : node) : node :=
  let inputId := Control.id_of input form in
  let existingControls := default "" (Dom.attr_at controllerInput "aria-controls" form) in
  let controlsArray := List.filter Str.truthy (Str.split " " existingControls) in
  let controlsArray :=
    if bool_decide (inputId ∈ controlsArray) then controlsArray
    else controlsArray ++ [inputId] in
  let form :=
    Dom.update controllerInput (Dom.setAttr "aria-controls" (Str.join " " controlsArray)) form in
  Dom.update input (Dom.setAttr "aria-controlledby" (Control.id_of controllerInput form)) form.

(** The callback of [controlled.forEach] in [enableConditionals]; the state is
    the form and the map under construction. *)
Definition enableConditionals_each (c : path) (st : node * ControllerConfig)
  : node * ControllerConfig :=
  let '(form, controllerConfig) := st in
  match Dom.querySelector_at c Control.sel_control form,
        Field.given (Dom.attr_at c "data-controller" form) with
  | Some input, Some controller =>
      let controllerConfig := cfg_push controller input controllerConfig in
      if Str.truthy (Control.id_of input form) then
        let controllerInputs := Dom.querySelectorAll (Control.sel_named controller) form in
        (fold_left (fun form ci => linkAria input ci form) controllerInputs form,
         controllerConfig)
      else (form, controllerConfig)
  | _, _ => st
  end.

(** The map [enableConditionals] builds, with the form as the ARIA linking
    leaves it. *)
Definition discover (form : node) : node * ControllerConfig :=
  let controlled := Dom.querySelectorAll Control.sel_controlled form in
  fold_left (fun st c => enableConditionals_each c st) controlled (form, []).

Definition enableConditionals (form : node) : Completion :=
  let '(form, controllerConfig) := discover form in
  match initConditionals form controllerConfig with
  | Normal form =>
      Normal (Dom.update [] (Dom.add_listener "change" (OnFormChange controllerConfig)) form)
  | Thrown form => Thrown form
  end.

End Conditionals.

(** ** The page

    What the script reads and writes besides the form: the location it
    navigates to, the errors it logs, the requests it sends, the events it
    dispatches, the focus, the running intervals, and the variables the
    closures of [initOtpBehavior] share. *)

Module Otp.

(** The state of the resend affordance. *)
Inductive Visibility := loading | ready | limit.

(** The variables of one call of [initOtpBehavior] that got past its two
    early returns: references to the elements it found and created, and the
    counters and flags its listeners share. *)
Record Closure := mkClosure {
  otpInput : path;
  mobileInput : option path;
  loader : path;
  loaderText : path;
  timerText : path;
  resendButton : path;
  limitMessage : path;
  otpRetry : path;
  resendCount : Z;
  timerId : option nat;
  timerStarted : bool;
  otpErrorCount : Z;
}.

Definition set_resendCount (n : Z) (c : Closure) : Closure :=
  mkClosure (otpInput c) (mobileInput c) (loader c) (loaderText c) (timerText c)
            (resendButton c) (limitMessage c) (otpRetry c)
            n (timerId c) (timerStarted c) (otpErrorCount c).

Definition set_timerId (t : option nat) (c : Closure) : Closure :=
  mkClosure (otpInput c) (mobileInput c) (loader c) (loaderText c) (timerText c)
            (resendButton c) (limitMessage c) (otpRetry c)
            (resendCount c) t (timerStarted c) (otpErrorCount c).

Definition set_timerStarted (b : bool) (c : Closure) : Closure :=
  mkClosure (otpInput c) (mobileInput c) (loader c) (loaderText c) (timerText c)
            (resendButton c) (limitMessage c) (otpRetry c)
            (resendCount c) (timerId c) b (otpErrorCount c).

Definition set_otpErrorCount (n : Z) (c : Closure) : Closure :=
  mkClosure (otpInput c) (mobileInput c) (loader c) (loaderText c) (timerText c)
            (resendButton c) (limitMessage c) (otpRetry c)
            (resendCount c) (timerId c) (timerStarted c) n.

End Otp.

(** A request sent with [fetch]: the URL and the payload posted as
    [{ data: payload }]. *)
Record Request := mkRequest {
  url : string;
  data : gmap string string;
}.

Record Page := mkPage {
  form : node;
  href : option string;                (* the last [window.location.href = ...] *)
  console : list string;               (* [console.error] *)
  requests : list Request;             (* [fetch] *)
  dispatched : list (string * bool);   (* [form.dispatchEvent]: type, bubbles *)
  focused : option path;               (* [el.focus()] *)
  scrolled : option path;              (* [el.scrollIntoView()] *)
  intervals : gmap nat Z;              (* running intervals: id to the [remaining] of its [tick] *)
  nextInterval : nat;
  otp : option Otp.Closure;
  defaultPrevented : bool;             (* [e.preventDefault()] on the event being handled *)
}.

Module Pg.

Definition initial (form : node) : Page :=
  mkPage form None [] [] [] None None ∅ 0%nat None false.

Definition set_form (f : node) (p : Page) : Page :=
  mkPage f (href p) (console p) (requests p) (dispatched p) (focused p)
         (scrolled p) (intervals p) (nextInterval p) (otp p) (defaultPrevented p).

Definition on_form (f : node -> node) (p : Page) : Page := set_form (f (form p)) p.

Definition navigate (u : string) (p : Page) : Page :=
  mkPage (form p) (Some u) (console p) (requests p) (dispatched p) (focused p)
         (scrolled p) (intervals p) (nextInterval p) (otp p) (defaultPrevented p).

Definition log_error (e : string) (p : Page) : Page :=
  mkPage (form p) (href p) (console p ++ [e]) (requests p) (dispatched p) (focused p)
         (scrolled p) (intervals p) (nextInterval p) (otp p) (defaultPrevented p).

Definition send (r : Request) (p : Page) : Page :=
  mkPage (form p) (href p) (console p) (requests p ++ [r]) (dispatched p) (focused p)
         (scrolled p) (intervals p) (nextInterval p) (otp p) (defaultPrevented p).

Definition dispatchEvent (type : string) (bubbles : bool) (p : Page) : Page :=
  mkPage (form p) (href p) (console p) (requests p) (dispatched p ++ [(type, bubbles)])
         (focused p) (scrolled p) (intervals p) (nextInterval p) (otp p) (defaultPrevented p).

Definition focus (el : path) (p : Page) : Page :=
  mkPage (form p) (href p) (console p) (requests p) (dispatched p) (Some el)
         (scrolled p) (intervals p) (nextInterval p) (otp p) (defaultPrevented p).

Definition scrollIntoView (el : path) (p : Page) : Page :=
  mkPage (form p) (href p) (console p) (requests p) (dispatched p) (focused p)
         (Some el) (intervals p) (nextInterval p) (otp p) (defaultPrevented p).

Definition set_intervals (m : gmap nat Z) (n : nat) (p : Page) : Page :=
  mkPage (form p) (href p) (console p) (requests p) (dispatched p) (focused p)
         (scrolled p) m n (otp p) (defaultPrevented p).

Definition set_otp (c : option Otp.Closure) (p : Page) : Page :=
  mkPage (form p) (href p) (console p) (requests p) (dispatched p) (focused p)
         (scrolled p) (intervals p) (nextInterval p) c (defaultPrevented p).

Definition set_defaultPrevented (b : bool) (p : Page) : Page :=
  mkPage (form p) (href p) (console p) (requests p) (dispatched p) (focused p)
         (scrolled p) (intervals p) (nextInterval p) (otp p) b.

(** [e.preventDefault()] *)
Definition preventDefault (p : Page) : Page := set_defaultPrevented true p.

End Pg.

(** ** The submission pipeline *)

(** How a [fetch] ends: the promise rejects, or a response arrives whose body
    reads as text or fails to. *)
Inductive FetchOutcome :=
| Rejected (reason : string)
| Responded (ok : bool) (text : option string).

(** What the script cannot decide about one request: how it ends, and what
    other handlers do to the form while it is pending. *)
Record Pending := mkPending {
  outcome : FetchOutcome;
  meanwhile : node -> node;
}.

Section Submission.
Context `{Utils} `{Browser}.

(** [form.elements], as references. *)
Definition elements (form : node) : list path :=
  Dom.querySelectorAll Control.listed form.

(** The callback of [toggleForm]. *)
Definition toggleForm_each (disabled : bool) (form : node) (el : path) : node :=
  match Dom.at_path el form with
  | Some control =>
      if Control.has_disabled control
      then Dom.update el (Dom.setBoolAttr "disabled" disabled) form
      else form
  | None => form
  end.

Definition toggleForm (form : node) (disabled : bool) : node :=
  fold_left (toggleForm_each disabled) (elements form) form.

(** [payload[k]], when it is truthy, as a template string reads it.  The
    payload starts as [{}]: under a name it has no property of its own for,
    it shows what it inherits from [Object.prototype], a function or an
    object and so truthy; a property of its own is a string, falsy when
    empty. *)
Definition payload_truthy (payload : gmap string string) (k : string) : option string :=
  match payload !! k with
  | Some v => Field.given (Some v)
  | None => inherited k
  end.

(** [payload[k] = v] for a string [v]: a property of the payload's own,
    except under the name [__proto__], where the assignment runs the setter
    the payload inherits, which ignores a string. *)
Definition payload_set (k v : string) (payload : gmap string string) : gmap string string :=
  if String.eqb k "__proto__" then payload else <[k := v]> payload.

(** The callback of [generatePayload]. *)
Definition generatePayload_each (form : node) (payload : gmap string string) (field : path)
  : gmap string string :=
  match Dom.at_path field form with
  | None => payload
  | Some typedField =>
      let name := Dom.prop "name" typedField in
      if Str.truthy name && negb (Dom.hasAttr "disabled" typedField) then
        if String.eqb (Control.type_of typedField) "radio" then
          if checked typedField
          then payload_set name (Control.value_of field form) payload
          else payload
        else if String.eqb (Control.type_of typedField) "checkbox" then
          if checked typedField then
            match payload_truthy payload name with
            | Some prev => payload_set name (prev +:+ "," +:+ Control.value_of field form) payload
            | None => payload_set name (Control.value_of field form) payload
            end
          else payload
        else payload_set name (Control.value_of field form) payload
      else payload
  end.

Definition generatePayload (form : node) : gmap string string :=
  fold_left (generatePayload_each form) (elements form) ∅.

(** The [try] block of [handleSubmit] after [toggleForm(form)], up to the
    point where it completes or throws: the page, and the error thrown. *)
Definition handleSubmit_try (net : Pending) (payload : gmap string string) (pg : Page)
  : Page * option string :=
  match Field.given (Dom.attr_at [] "data-action" (form pg)) with
  | None => (pg, Some "Missing form action")
  | Some action =>
      let pg := Pg.send (mkRequest action payload) pg in
      let pg := Pg.on_form (meanwhile net) pg in
      match outcome net with
      | Rejected reason => (pg, Some reason)
      | Responded true _ =>
          match Field.given (Dom.attr_at [] "data-confirmation" (form pg)) with
          | Some confirmation => (Pg.navigate confirmation pg, None)
          | None => (pg, None)
          end
      | Responded false (Some error) => (pg, Some error)
      | Responded false None => (pg, Some "TypeError")
      end
  end.

(** [handleSubmit(form)]: [try], then [catch] when something was thrown, then
    [finally]. *)
Definition handleSubmit (net : Pending) (pg : Page) : Page :=
  let payload := generatePayload (form pg) in
  let pg := Pg.on_form (fun f => toggleForm f true) pg in
  let '(pg, thrown) := handleSubmit_try net payload pg in
  let pg :=
    match thrown with
    | Some error => Pg.log_error error pg
    | None => pg
    end in
  Pg.on_form (fun f => toggleForm f false) pg.

(** [form.reportValidity()] and [form.querySelector(':invalid:not(fieldset)')]. *)
Definition validated (e : Element) : bool :=
  Control.listed e && negb (Dom.is_tag "fieldset" e).

Definition reportValidity (form : node) : bool :=
  forallb (valid form) (Dom.querySelectorAll validated form).

Definition firstInvalid (form : node) : option path :=
  List.find (fun p => negb (valid form p)) (Dom.querySelectorAll validated form).

(** What both submit listeners do when the form is not valid. *)
Definition markFirstInvalid (pg : Page) : Page :=
  match firstInvalid (form pg) with
  | Some el =>
      let pg := Pg.focus el pg in
      let pg := Pg.scrollIntoView el pg in
      Pg.on_form (Dom.update el (Dom.setAttr "aria-invalid" "true")) pg
  | None => pg
  end.

(** The submit listener of [enableSubmission]. *)
Definition onFormSubmit (net : Pending) (pg : Page) : Page :=
  let pg := Pg.preventDefault pg in
  if reportValidity (form pg) then handleSubmit net pg else markFirstInvalid pg.

(** The input listener of [enableSubmission]. *)
Definition onFormInput (target : path) (pg : Page) : Page :=
  if Dom.has_attr_at target "aria-invalid" (form pg) && valid (form pg) target
  then Pg.on_form (Dom.update target (Dom.removeAttr "aria-invalid")) pg
  else pg.

(** [form.dataset.confirmation = confirmation.label || confirmation.default]:
    a missing value is stored as the text [undefined]. *)
Definition confirmationTarget (confirmation : Field.t) : string :=
  match Field.given (Field.label confirmation) with
  | Some l => l
  | None => Str.template (Field.default confirmation)
  end.

Definition enableSubmission (form : node) (submit : string) (fields : FieldList) : node :=
  let form := Dom.update [] (Dom.setAttr "data-action" submit) form in
  let form :=
    match List.find (fun f => Field.equals (Field.type f) "confirmation") fields with
    | Some confirmation =>
        Dom.update [] (Dom.setAttr "data-confirmation" (confirmationTarget confirmation)) form
    | None => form
    end in
  let form := Dom.update [] (Dom.add_listener "submit" OnFormSubmit) form in
  Dom.update [] (Dom.add_listener "input" OnFormInput) form.

(** ** The form assembler *)

Definition is_button (field : Field.t) : bool :=
  Field.equals (Field.type field) "submit" || Field.equals (Field.type field) "reset".

(** The form as [buildForm] assembles it, before [enableConditionals]. *)
Definition assemble (fields : FieldList) : node :=
  let form := Dom.setAttr "novalidate" "" (createElement "form" None) in
  let buttons := List.filter is_button fields in
  let rendered :=
    List.filter (fun f => negb (is_button f)
                          && negb (Field.equals (Field.type f) "confirmation")) fields in
  let form := Node form (List.map buildField rendered) in
  match buttons with
  | [] => form
  | _ => appended (Node (createElement "div" (Some "button-wrapper"))
                        (List.map buildField buttons)) form
  end.

Definition buildForm (fields : FieldList) (submit : option string) : Completion :=
  match enableConditionals (assemble fields) with
  | Thrown form => Thrown form
  | Normal form =>
      match Field.given submit with
      | Some s => Normal (enableSubmission form s fields)
      | None => Normal form
      end
  end.

End Submission.

(** ** The OTP sub-flow *)

Section OtpFlow.
Context `{Utils} `{Browser}.

Definition getFormConfigValue (fields : FieldList) (name fallback : string) : string :=
  match List.find (fun field => Field.equals (Field.field field) name) fields with
  | None => fallback
  | Some entry =>
      match Field.given (Field.default entry), Field.given (Field.value entry) with
      | Some d, _ => d
      | None, Some v => v
      | None, None => fallback
      end
  end.

(** The constants of [initOtpBehavior]. *)
Definition otpFieldName : string := "otp".
Definition resendTimerSeconds : Z := 30.
Definition resendLimit : Z := 3.
Definition otpErrorThreshold : Z := 0.
Definition otpErrorRedirect : string := "".
Definition resendLabel : string := "Resend OTP".
Definition resendLoaderLabel : string := "Resend available in".
Definition otpSuccessRedirect : string := "/thank-you".
Definition otpRetryMessage : string := "Invalid OTP. Please try again.".

Definition setDisplay (el : path) (d : string) (pg : Page) : Page :=
  Pg.on_form (Dom.update el (Dom.set_display d)) pg.

Definition setVisibility (c : Otp.Closure) (state : Otp.Visibility) (pg : Page) : Page :=
  let pg := setDisplay (Otp.loader c)
              (match state with Otp.loading => "flex" | _ => "none" end) pg in
  let pg := setDisplay (Otp.resendButton c)
              (match state with Otp.ready => "inline-flex" | _ => "none" end) pg in
  setDisplay (Otp.limitMessage c)
             (match state with Otp.limit => "block" | _ => "none" end) pg.

Definition resetVisibility (c : Otp.Closure) (pg : Page) : Page :=
  let pg := setDisplay (Otp.loader c) "none" pg in
  let pg := setDisplay (Otp.resendButton c) "none" pg in
  setDisplay (Otp.limitMessage c) "none" pg.

(** A step on a page whose [initOtpBehavior] closure exists; the identity on
    any other page. *)
Definition with_closure (k : Otp.Closure -> Page -> Page) (pg : Page) : Page :=
  match otp pg with
  | Some c => k c pg
  | None => pg
  end.

Definition set_closure (c : Otp.Closure) (pg : Page) : Page := Pg.set_otp (Some c) pg.

(** One run of the closure [tick] whose variable [remaining] holds [remaining];
    the result is the page and the new value of the variable. *)
Definition tick (remaining : Z) (pg : Page) : Page * Z :=
  match otp pg with
  | None => (pg, remaining)
  | Some c =>
      let pg :=
        Pg.on_form (Dom.update (Otp.timerText c)
                      (Dom.set_textContent (" " +:+ pretty remaining +:+ "s"))) pg in
      let pg :=
        if (remaining <=? 0)%Z then
          let pg :=
            match Otp.timerId c with
            | Some id => Pg.set_intervals (delete id (intervals pg)) (nextInterval pg) pg
            | None => pg
            end in
          let c := Otp.set_timerId None c in
          let pg := set_closure c pg in
          setVisibility c Otp.ready pg
        else pg in
      (pg, (remaining - 1)%Z)
  end.

(** [startTimer(duration)] *)
Definition startTimer (duration : Z) (pg : Page) : Page :=
  match otp pg with
  | None => pg
  | Some c =>
      if Otp.timerStarted c then pg
      else
        let c := Otp.set_timerStarted true c in
        let pg := set_closure c pg in
        let remaining := duration in
        let pg :=
          Pg.on_form (Dom.update (Otp.loaderText c)
                        (Dom.set_textContent resendLoaderLabel)) pg in
        let pg := setVisibility c Otp.loading pg in
        let '(pg, remaining) := tick remaining pg in
        let id := nextInterval pg in
        let pg := Pg.set_intervals (<[id := remaining]> (intervals pg)) (S id) pg in
        with_closure (fun c => set_closure (Otp.set_timerId (Some id) c)) pg
  end.

(** The browser runs the callback of the interval [id], if it is still set. *)
Definition intervalFires (id : nat) (pg : Page) : Page :=
  match intervals pg !! id with
  | None => pg
  | Some remaining =>
      let '(pg, remaining) := tick remaining pg in
      match intervals pg !! id with
      | Some _ => Pg.set_intervals (<[id := remaining]> (intervals pg)) (nextInterval pg) pg
      | None => pg
      end
  end.

(** [maybeStartTimer] *)
Definition maybeStartTimer (pg : Page) : Page :=
  with_closure (fun c pg =>
    match Otp.mobileInput c with
    | Some mobileInput =>
        let digitsOnly := Str.filter Str.is_digit (Control.value_of mobileInput (form pg)) in
        if (10 <=? String.length digitsOnly)%nat then startTimer resendTimerSeconds pg else pg
    | None => pg
    end) pg.

(** The click listener of the resend button. *)
Definition onResendClick (pg : Page) : Page :=
  with_closure (fun c pg =>
    let c := Otp.set_resendCount (Otp.resendCount c + 1) c in
    let pg := set_closure c pg in
    if (resendLimit <? Otp.resendCount c)%Z then setVisibility c Otp.limit pg
    else
      let pg := Pg.dispatchEvent "otp:resend" true pg in
      startTimer resendTimerSeconds pg) pg.

(** The first submit listener. *)
Definition onOtpSubmitCount (pg : Page) : Page :=
  with_closure (fun c pg =>
    if negb (valid (form pg) (Otp.otpInput c)) then
      let c := Otp.set_otpErrorCount (Otp.otpErrorCount c + 1) c in
      let pg := set_closure c pg in
      if negb (otpErrorThreshold =? 0)%Z
         && (otpErrorThreshold <=? Otp.otpErrorCount c)%Z
         && Str.truthy otpErrorRedirect
      then Pg.navigate otpErrorRedirect pg
      else pg
    else pg) pg.

(** The second submit listener. *)
Definition onOtpSubmitVerify (pg : Page) : Page :=
  with_closure (fun c pg =>
    let pg := Pg.preventDefault pg in
    let pg := setDisplay (Otp.otpRetry c) "none" pg in
    if negb (reportValidity (form pg)) then markFirstInvalid pg
    else if String.eqb (Control.value_of (Otp.otpInput c) (form pg)) "12345"
    then Pg.navigate otpSuccessRedirect pg
    else
      let pg := setDisplay (Otp.otpRetry c) "block" pg in
      Pg.focus (Otp.otpInput c) pg) pg.

(** The elements [initOtpBehavior] creates: the resend wrapper with its
    loader, button and limit message, and the retry message. *)
Definition resendWrapperNode (resendLimitMessage : string) : node :=
  let loader :=
    Node (createElement "div" (Some "otp-resend__loader"))
         [Node (createElement "span" (Some "otp-resend__loader-text")) [];
          Node (createElement "span" (Some "otp-resend__timer")) []] in
  let resendButton :=
    Dom.set_textContent resendLabel
      (Dom.setAttr "type" "button" (createElement "button" (Some "otp-resend__button"))) in
  let limitMessage :=
    Dom.set_textContent resendLimitMessage
      (createElement "div" (Some "otp-resend__message")) in
  Node (createElement "div" (Some "otp-resend"))
       [loader; Node resendButton []; Node limitMessage []].

Definition otpRetryNode : node :=
  Node (Dom.set_display "none"
          (Dom.set_textContent otpRetryMessage
             (createElement "div" (Some "otp-verify__message")))) [].

Definition initOtpBehavior (fields : FieldList) (pg : Page) : Page :=
  let resendLimitMessage :=
    getFormConfigValue fields "resendLimitMessage" "Resend OTP limit exhausted." in
  match Dom.querySelector (Control.sel_input_named (toCamelCase otpFieldName)) (form pg) with
  | None => pg
  | Some otpInput =>
      let mobileInput := Dom.querySelector (Control.sel_input_named "mobile") (form pg) in
      match Dom.closest Control.sel_form_field otpInput (form pg) with
      | None => pg
      | Some otpField =>
          let n := match Dom.get otpField (form pg) with
                   | Some f => List.length (children f)
                   | None => 0%nat
                   end in
          let resendWrapper := otpField ++ [n] in
          let pg := Pg.on_form (Dom.append otpField (resendWrapperNode resendLimitMessage)) pg in
          let pg := Pg.on_form (Dom.append otpField otpRetryNode) pg in
          let c :=
            Otp.mkClosure otpInput mobileInput
              (resendWrapper ++ [0%nat]) (resendWrapper ++ [0%nat; 0%nat])
              (resendWrapper ++ [0%nat; 1%nat]) (resendWrapper ++ [1%nat])
              (resendWrapper ++ [2%nat]) (otpField ++ [S n])
              0 None false 0 in
          let pg := set_closure c pg in
          let pg := resetVisibility c pg in
          let pg :=
            match mobileInput with
            | Some m =>
                let pg := Pg.on_form (Dom.update m (Dom.add_listener "input" OnMobileInput)) pg in
                maybeStartTimer pg
            | None => startTimer resendTimerSeconds pg
            end in
          let pg :=
            Pg.on_form (Dom.update (Otp.resendButton c)
                          (Dom.add_listener "click" OnResendClick)) pg in
          let pg := Pg.on_form (Dom.update [] (Dom.add_listener "submit" OnOtpSubmitCount)) pg in
          Pg.on_form (Dom.update [] (Dom.add_listener "submit" OnOtpSubmitVerify)) pg
      end
  end.

(** ** Events

    The listeners of one event type on an element, in the order they were
    added, and what each one runs. *)
Definition listeners_for (type : string) (el : path) (form : node) : list Handler :=
  match Dom.at_path el form with
  | Some e => snd <$> List.filter (fun l => String.eqb (fst l) type) (listeners e)
  | None => []
  end.

(** A page whose handler threw keeps what the handler did until then. *)
Definition run (net : Pending) (target : path) (h : Handler) (pg : Page) : Page :=
  match h with
  | OnToggleChange =>
      Pg.on_form (fun f =>
        Dom.update target
          (Dom.setAttr "aria-checked"
             (Str.of_bool (default false (checked <$> Dom.at_path target f)))) f) pg
  | OnFormChange controllerConfig =>
      Pg.on_form (fun f => form_of (toggleConditional target controllerConfig f)) pg
  | OnFormSubmit => onFormSubmit net pg
  | OnFormInput => onFormInput target pg
  | OnMobileInput => maybeStartTimer pg
  | OnResendClick => onResendClick pg
  | OnOtpSubmitCount => onOtpSubmitCount pg
  | OnOtpSubmitVerify => onOtpSubmitVerify pg
  end.

(** A bubbling event of a type at a target: the listeners of the target, then
    those of each ancestor up to the form, as they stand when the event is
    dispatched. *)
Definition dispatch (net : Pending) (type : string) (target : path) (pg : Page) : Page :=
  let handlers :=
    List.concat (List.map (fun el => listeners_for type el (form pg))
                          (Dom.inclusive_ancestors target)) in
  fold_left (fun pg h => run net target h pg) handlers pg.

(** Checking a radio button unchecks the other radio buttons of its name. *)
Definition sel_radio_named (name : string) (e : Element) : bool :=
  Control.sel_input_named name e && String.eqb (Control.type_of e) "radio".

Definition check (target : path) (form : node) : node :=
  let form :=
    match Dom.at_path target form with
    | Some e =>
        if String.eqb (Control.type_of e) "radio" then
          fold_left (fun form q => Dom.update q (Dom.set_checked false) form)
                    (Dom.querySelectorAll (sel_radio_named (Dom.prop "name" e)) form) form
        else form
    | None => form
    end in
  Dom.update target (Dom.set_checked true) form.

(** The user checks a radio or a checkbox, or picks the value of another
    control, and the browser fires [change]. *)
Definition userChecks (net : Pending) (target : path) (pg : Page) : Page :=
  dispatch net "change" target (Pg.on_form (check target) pg).

Definition userEnters (net : Pending) (target : path) (v : string) (pg : Page) : Page :=
  dispatch net "change" target (Pg.on_form (Dom.update target (Dom.set_value v)) pg).

(** The user types into a control, and the browser fires [input]. *)
Definition userTypes (net : Pending) (target : path) (v : string) (pg : Page) : Page :=
  dispatch net "input" target (Pg.on_form (Dom.update target (Dom.set_value v)) pg).

(** The user clicks an element. *)
Definition userClicks (net : Pending) (target : path) (pg : Page) : Page :=
  dispatch net "click" target pg.

(** The user submits the form: the browser fires [submit] at the form and,
    unless a listener prevented it, navigates to the form's action. *)
Definition userSubmits (net : Pending) (pg : Page) : Page :=
  let pg := dispatch net "submit" [] (Pg.set_defaultPrevented false pg) in
  if defaultPrevented pg then pg
  else Pg.navigate (default "" (Dom.attr_at [] "action" (form pg))) pg.

(** The browser runs the callback of an interval a number of times. *)
Fixpoint intervalFiresTimes (n : nat) (id : nat) (pg : Page) : Page :=
  match n with
  | O => pg
  | S n' => intervalFiresTimes n' id (intervalFires id pg)
  end.

(** ** The block *)

(** The five fields of [decorate]. *)
Definition staticFields : FieldList :=
  [ Field.mk (Some "text") (Some "firstName") (Some "First name") None (Some "true")
      None (Some "Enter first name") None None None None None None;
    Field.mk (Some "text") (Some "lastName") (Some "Last name") None (Some "true")
      None (Some "Enter last name") None None None None None None;
    Field.mk (Some "tel") (Some "mobile") (Some "Mobile number") None (Some "true")
      None (Some "Enter mobile number") None None None
      (Some "\\d{10}") (Some "10") (Some "numeric");
    Field.mk (Some "text") (Some "otp") (Some "OTP") None (Some "true")
      None (Some "Enter OTP") None None None None None None;
    Field.mk (Some "submit") (Some "submit") (Some "Verify OTP") None None
      None None None None None None None None ].

(** [decorate(block)], from the rows of the block ([configFields]) on; a form
    whose assembly threw is not decorated further. *)
Definition decorate (configFields : FieldList) : option Page :=
  match buildForm staticFields None with
  | Normal form => Some (initOtpBehavior configFields (Pg.initial form))
  | Thrown _ => None
  end.

End OtpFlow.

(** ** A concrete setting

    Instances of the two imported helpers and of the browser, for the closed
    examples below: the helpers as the spec words them, URLs recognised by
    their scheme separator, and a control valid unless it is required and
    empty. *)
Module Sample.

#[export] Instance utils : Utils :=
  {| toClassName := SpecUtils.toClassName; toCamelCase := SpecUtils.toCamelCase |}.

Definition valueMissing (form : node) (p : path) : bool :=
  Dom.has_attr_at p "required" form
  && negb (Dom.has_attr_at p "disabled" form)
  && negb (Str.truthy (Control.value_of p form)).

(** The properties of [Object.prototype] and their texts: the functions as
    the engines of Chrome and Node print a built-in function. *)
Definition prototype_functions : list string :=
  ["__defineGetter__"; "__defineSetter__"; "__lookupGetter__"; "__lookupSetter__";
   "hasOwnProperty"; "isPrototypeOf"; "propertyIsEnumerable"; "toLocaleString";
   "toString"; "valueOf"].

Definition prototype_text (k : string) : option string :=
  if String.eqb k "__proto__" then Some "[object Object]"
  else if String.eqb k "constructor" then Some "function Object() { [native code] }"
  else if existsb (String.eqb k) prototype_functions
  then Some ("function " +:+ k +:+ "() { [native code] }")
  else None.

#[export] Instance browser : Browser :=
  {| isURL := fun s => Str.includes s "://";
     valid := fun form p => negb (valueMissing form p);
     inherited := prototype_text |}.

(** No request is answered, nothing else touches the form. *)
Definition offline : Pending := mkPending (Rejected "Failed to fetch") (fun f => f).

(** A radio group [plan] with the options Basic and Pro, one of them checked,
    and a required text field shown for a condition on [plan]. *)
Definition plan (default : string) : Field.t :=
  Field.mk (Some "radio") (Some "plan") (Some "Plan") None None (Some default)
           None (Some "Basic,Pro") None None None None None.

(** The same controller as a select with a placeholder. *)
Definition planSelect : Field.t :=
  Field.mk (Some "select") (Some "plan") (Some "Plan") None None None
           (Some "Choose a plan") (Some "Basic,Pro") None None None None None.

Definition details (conditional : string) : Field.t :=
  Field.mk (Some "text") (Some "details") (Some "Details") None (Some "true") (Some "x")
           None None (Some conditional) None None None None.

(** A required checkbox group with the options A and B, shown for a
    condition on [plan]. *)
Definition extras : Field.t :=
  Field.mk (Some "checkbox") (Some "extras") (Some "Extras") None (Some "true") None
           None (Some "A,B") (Some "plan-pro") None None None None.

(** The form of two fields as assembled and linked, before the first pass
    over the conditions, with the map of its controllers. *)
Definition linked (fields : FieldList) : node * ControllerConfig :=
  discover (assemble fields).

(** The form [buildForm] returns. *)
Definition built (fields : FieldList) : node := form_of (buildForm fields None).

(** The page [decorate] leaves, for a block without rows. *)
Definition otpPage : Page :=
  match decorate [] with
  | Some pg => pg
  | None => Pg.initial (Node (Dom.blank "form") [])
  end.

(** The controls of that page, and its resend button. *)
Definition firstName : path := [0; 1]%nat.
Definition lastName : path := [1; 1]%nat.
Definition mobile : path := [2; 1]%nat.
Definition otpInput : path := [3; 1]%nat.
Definition resendButton : path := [3; 2; 1]%nat.
Definition loader : path := [3; 2; 0]%nat.
Definition otpRetry : path := [3; 3]%nat.

(** The user types into controls, one after the other. *)
Definition fill (values : list (path * string)) (pg : Page) : Page :=
  fold_left (fun pg pv => userTypes offline (fst pv) (snd pv) pg) values pg.

(** The page with every field filled in and a given OTP typed. *)
Definition filled (otpValue : string) : Page :=
  fill [(firstName, "Ada"); (lastName, "Lovelace"); (mobile, "9876543210");
        (otpInput, otpValue)] otpPage.

(** The display of an element. *)
Definition display_at (el : path) (pg : Page) : option string :=
  display <$> Dom.at_path el (form pg).

(** One field of each kind with a help text. *)
Definition helped (type : string) : Field.t :=
  Field.mk (Some type) (Some "contact") (Some "Contact") (Some "How to reach you")
           None None None (Some "Mail,Phone") None None None None None.

(** The tags of the children of a built field, and the elements of the field
    that carry [aria-describedby]. *)
Definition child_tags (n : node) : list string := (fun c => tagName (elem c)) <$> children n.

Definition describing (n : node) : list path :=
  Dom.querySelectorAll (Dom.hasAttr "aria-describedby") n.

(** A checkbox group one of whose options is the empty string. *)
Definition tags : Field.t :=
  Field.mk (Some "checkbox") (Some "tags") (Some "Tags") None None None
           None (Some "Red,,Blue") None None None None None.

(** A form whose only field is a hidden input named [otp]: the input has no
    wrapper. *)
Definition hiddenOtp : Field.t :=
  Field.mk (Some "hidden") (Some "otp") None None None None None None None None None None None.

End Sample.

(** ** Vocabulary of the statements *)

Module Rel.

(** Two elements that differ at most in the attributes of a list. *)
Definition same_outside (K : list string) (e e' : Element) : Prop :=
  tagName e = tagName e' /\ className e = className e' /\ value e = value e'
  /\ checked e = checked e' /\ textContent e = textContent e'
  /\ display e = display e' /\ listeners e = listeners e'
  /\ forall k, k ∉ K -> attrs e !! k = attrs e' !! k.

(** Two elements with the same tag and classes that agree on the attributes
    of a list: what the user and the other handlers of the page, which write
    none of these, leave of an element. *)
Definition same_on (K : list string) (e e' : Element) : Prop :=
  tagName e = tagName e' /\ className e = className e'
  /\ forall k, k ∈ K -> attrs e !! k = attrs e' !! k.

(** Two elements that differ at most in [style.display]. *)
Definition same_but_display (e e' : Element) : Prop :=
  tagName e = tagName e' /\ className e = className e' /\ value e = value e'
  /\ checked e = checked e' /\ textContent e = textContent e'
  /\ listeners e = listeners e' /\ attrs e = attrs e'.

(** Two trees of the same shape whose elements are related pairwise. *)
Inductive sim (R : Element -> Element -> Prop) : node -> node -> Prop :=
| sim_node e e' ks ks' :
    R e e' -> Forall2 (sim R) ks ks' -> sim R (Node e ks) (Node e' ks').

(** A relation under which a control keeps what its value is read from. *)
Definition keeps_control (R : Element -> Element -> Prop) : Prop :=
  forall e e', R e e' ->
    tagName e = tagName e' /\ value e = value e' /\ checked e = checked e'
    /\ attrs e !! "disabled" = attrs e' !! "disabled".

(** A selector that cannot tell related elements apart. *)
Definition respects (R : Element -> Element -> Prop) {A : Type} (obs : Element -> A) : Prop :=
  forall e e', R e e' -> obs e = obs e'.

End Rel.

(** The attributes the conditional engine writes. *)
Definition engine_keys : list string :=
  ["aria-hidden"; "required"; "tabindex"; "data-original-required"].

(** The descendants of a list of siblings, the first of which has index
    [i]: what [Dom.descendants] computes for the children of a node. *)
Fixpoint kids_descendants (i : nat) (l : list node) : list (path * Element) :=
  match l with
  | [] => []
  | c :: l' =>
      (([i], elem c) :: List.map (Dom.under i) (Dom.descendants c))
      ++ kids_descendants (S i) l'
  end.

(** Two listed descendants at the same path with related elements. *)
Definition entry_rel (R : Element -> Element -> Prop) (pe pe' : path * Element) : Prop :=
  fst pe = fst pe' /\ R (snd pe) (snd pe').

(** The attributes [toggleConditional] writes. *)
Definition toggle_keys : list string := ["aria-hidden"; "required"; "tabindex"].

(** The callback of [initConditionals] in both of its branches, for a way
    [met] of deciding the condition: [initConditionals_resolved] decides it
    from the controller's value, [initConditionals_unresolved] fixes it as
    unmet. *)
Definition init_step (met : option string -> bool) (input : path) (form : node) : Completion :=
  match Dom.closest Control.sel_form_field input form with
  | None => Thrown form
  | Some field =>
      let conditionMet := met (Dom.attr_at field "data-condition" form) in
      let form := Dom.update field (Dom.setAttr "aria-hidden" (Str.of_bool (negb conditionMet))) form in
      let form :=
        if Dom.has_attr_at input "required" form then
          let form := storeOriginalRequired input form in
          if negb conditionMet then Dom.update input (Dom.removeAttr "required") form
          else form
        else form in
      if conditionMet
      then Normal (Dom.update input (Dom.removeAttr "tabindex") form)
      else Normal (Dom.update input (Dom.setAttr "tabindex" "-1") form)
  end.

(** What the conditional engine reads and writes of an element, besides its
    tag and classes. *)
Definition engine_reads : list string := "data-condition" :: engine_keys.

(** The forms a page can show after [initConditionals]: the one it leaves,
    and from there any number of steps of the user and of other handlers,
    which leave what the engine reads and writes as it is, and of change
    events handled by [toggleConditional]. *)
Section Reach.
Context `{Utils}.

Inductive reachable (controllerConfig : ControllerConfig) (form0 : node) : node -> Prop :=
| reach_init :
    reachable controllerConfig form0 (form_of (initConditionals form0 controllerConfig))
| reach_user form form' :
    reachable controllerConfig form0 form ->
    Rel.sim (Rel.same_on engine_reads) form form' ->
    reachable controllerConfig form0 form'
| reach_change form target :
    reachable controllerConfig form0 form ->
    reachable controllerConfig form0 (form_of (toggleConditional target controllerConfig form)).

(** The wrappers of the controlled controls of a map, and a map whose
    controls each have a wrapper of their own. *)
Definition fields_of (controllerConfig : ControllerConfig) (form : node) : list (option path) :=
  (fun input => Dom.closest Control.sel_form_field input form)
    <$> List.concat (snd <$> controllerConfig).

Definition well_formed (controllerConfig : ControllerConfig) (form : node) : Prop :=
  NoDup (fields_of controllerConfig form) /\ Forall is_Some (fields_of controllerConfig form).


(** What one pass over the controlled controls does to a control [i] and its
    wrapper [fld], from a form [g] to a form [g']: nothing, when the control
    is not one of them; the initialisation, or the update, for a condition
    that is met or not. *)
Definition untouched (i fld : path) (g g' : node) : Prop :=
  Dom.attr_at fld "aria-hidden" g' = Dom.attr_at fld "aria-hidden" g
  /\ Dom.attr_at i "required" g' = Dom.attr_at i "required" g
  /\ Dom.attr_at i "data-original-required" g' = Dom.attr_at i "data-original-required" g.

Definition snapshot (o : option string) : string :=
  match Field.given o with Some s => s | None => "true" end.

Definition initialised (met : bool) (i fld : path) (g g' : node) : Prop :=
  Dom.attr_at fld "aria-hidden" g' = Some (Str.of_bool (negb met))
  /\ Dom.attr_at i "required" g' = (if met then Dom.attr_at i "required" g else None)
  /\ Dom.attr_at i "data-original-required" g' =
       (if Dom.has_attr_at i "required" g
        then Some (snapshot (Dom.attr_at i "data-original-required" g))
        else Dom.attr_at i "data-original-required" g).

Definition toggled (met : bool) (i fld : path) (g g' : node) : Prop :=
  Dom.attr_at fld "aria-hidden" g' = Some (Str.of_bool (negb met))
  /\ Dom.attr_at i "required" g' =
       (if met then
          if Field.equals (Dom.attr_at i "data-original-required" g) "true"
          then Some "" else Dom.attr_at i "required" g
        else None)
  /\ Dom.attr_at i "data-original-required" g' = Dom.attr_at i "data-original-required" g.

(** Whether [initConditionals] takes the condition of a wrapper for met, given
    the controller's name: by the controller's value when it has one, not
    met when it has none. *)
Definition init_met (controller : string) (form : node) (condition : option string) : bool :=
  match Field.given (controllerValue controller form) with
  | Some safeValue => conditionMet condition safeValue
  | None => false
  end.

(** The controlled controls of a map. *)
Definition inputs_of (controllerConfig : ControllerConfig) : list path :=
  List.concat (snd <$> controllerConfig).

End Reach.

(** What holds of a control that was required at first, and of its wrapper,
    on every form the page can show. *)
Definition settled (form0 : node) (i fld : path) (g : node) : Prop :=
  Rel.sim (Rel.same_on ["data-condition"]) form0 g
  /\ Dom.attr_at i "data-original-required" g = Some "true"
  /\ ((Dom.attr_at fld "aria-hidden" g = Some "true" /\ Dom.attr_at i "required" g = None)
      \/ (Dom.attr_at fld "aria-hidden" g = Some "false" /\ is_Some (Dom.attr_at i "required" g))).

(** [control.disabled] of the control a reference points to: [false] for an
    element without the property. *)
Definition disabled_at (el : path) (form : node) : bool :=
  match Dom.at_path el form with
  | Some control => Control.has_disabled control && Dom.hasAttr "disabled" control
  | None => false
  end.

(** The control at [el] has the [disabled] that [toggleForm] gives it. *)
Definition set_at (b : bool) (el : path) (g : node) : Prop :=
  forall e, Dom.at_path el g = Some e -> Control.has_disabled e = true -> Dom.hasAttr "disabled" e = b.

(** The form as a submission attempt leaves it for the final step of
    [handleSubmit]: the submitted form with its controls disabled by
    [toggleForm(form)] and, when it has a submit target and the request went
    out, with what other handlers did to it while the request was pending. *)
Section PendingForm.
Context `{Utils} `{Browser}.

Definition pending_form (net : Pending) (form : node) : node :=
  match Field.given (Dom.attr_at [] "data-action" (toggleForm form true)) with
  | Some _ => meanwhile net (toggleForm form true)
  | None => toggleForm form true
  end.

End PendingForm.

(** A control of the form that can put the key [name] into the payload: it
    is listed, bears the name, is not disabled and, if it is a radio button
    or a checkbox, is checked. *)
Definition contributes (form : node) (name : string) : Prop :=
  exists field e,
    field ∈ Dom.querySelectorAll Control.listed form
    /\ Dom.at_path field form = Some e
    /\ Dom.prop "name" e = name
    /\ Dom.hasAttr "disabled" e = false
    /\ (Control.type_of e = "radio" \/ Control.type_of e = "checkbox" -> checked e = true).

(** The values of the checked checkboxes of a name among a list of controls,
    in the order of the list, and what the spec says the payload holds under
    the name of a checkbox group: nothing when no checkbox of the group is
    checked, else the comma-join of the checked values in DOM order. *)
Definition checked_value (name : string) (form : node) (field : path) : option string :=
  match Dom.at_path field form with
  | Some e =>
      if String.eqb (Dom.prop "name" e) name
         && String.eqb (Control.type_of e) "checkbox" && checked e
      then Some (Control.value_of field form)
      else None
  | None => None
  end.

Definition checked_values (name : string) (form : node) (l : list path) : list string :=
  omap (checked_value name form) l.

Definition spec_checkbox_payload (name : string) (form : node) : option string :=
  match checked_values name form (Dom.querySelectorAll Control.listed form) with
  | [] => None
  | vs => Some (Str.join "," vs)
  end.

(** What the accumulation of [generatePayload] makes of the value [o] under
    a name and of further checked values. *)
Definition accumulate (o : option string) (vs : list string) : option string :=
  match o, vs with
  | _, [] => o
  | None, _ => Some (Str.join "," vs)
  | Some s, _ => Some (Str.join "," (s :: vs))
  end.

(** The controls of a name are enabled checkboxes whose checked ones have a
    value that is not empty. *)
Definition plain_group (name : string) (form : node) (l : list path) : Prop :=
  forall field e, field ∈ l -> Dom.at_path field form = Some e ->
    Dom.prop "name" e = name ->
    Control.type_of e = "checkbox" /\ Dom.hasAttr "disabled" e = false
    /\ (checked e = true -> Control.value_of field form <> "").

(** A property of every element of a subtree. *)
Inductive everywhere (P : Element -> Prop) : node -> Prop :=
| everywhere_node e ks : P e -> Forall (everywhere P) ks -> everywhere P (Node e ks).

(** An element that references no description. *)
Definition no_describedby (e : Element) : Prop := attrs e !! "aria-describedby" = None.

(** The types [buildField] handles apart from the default input. *)
Definition special_types : list string :=
  ["hidden"; "submit"; "reset"; "radio"; "checkbox"; "toggle"; "select"; "textarea"].

(** The attributes the ARIA linking of [enableConditionals] writes. *)
Definition aria_keys : list string := ["aria-controls"; "aria-controlledby"].

(** An element that is neither tagged as controlled nor a field wrapper:
    what the builder puts below the wrapper of a field. *)
Definition inner (e : Element) : Prop :=
  Control.sel_controlled e = false /\ Control.sel_form_field e = false.

(** A child of the form as the assembler appends it: if it is tagged as
    controlled it is a field wrapper, and nothing below it is tagged or is a
    wrapper. *)
Definition field_node (n : node) : Prop :=
  (Control.sel_controlled (elem n) = true -> Control.sel_form_field (elem n) = true)
  /\ Forall (everywhere inner) (children n).

(** What holds of the form and of the map under construction once
    [enableConditionals] has gone through the wrappers [done] of the form
    [a] it started from: the form differs from [a] in the ARIA links only,
    the controls of the map have wrappers of their own, and these are among
    [done]. *)
Definition discovered (a : node) (done : list path) (st : node * ControllerConfig) : Prop :=
  Rel.sim (Rel.same_outside aria_keys) a (fst st)
  /\ NoDup (fields_of (snd st) a)
  /\ forall i, i ∈ inputs_of (snd st) ->
       exists c, c ∈ done /\ Dom.closest Control.sel_form_field i a = Some c.

(** What happens on a page, one thing at a time: a listener runs for an
    event at a target, the browser runs the callback of an interval, or the
    user or the browser changes the form. *)
Inductive Happening :=
| Handled (net : Pending) (target : path) (h : Handler)
| Fired (id : nat)
| Edited (f : node -> node).

Section Happenings.
Context `{Utils} `{Browser}.

Definition happen (x : Happening) (pg : Page) : Page :=
  match x with
  | Handled net target h => run net target h pg
  | Fired id => intervalFires id pg
  | Edited f => Pg.on_form f pg
  end.

Definition happenAll (xs : list Happening) (pg : Page) : Page :=
  fold_left (fun pg x => happen x pg) xs pg.

End Happenings.

(** A click on the resend button, and the number of them among what
    happens. *)
Definition is_resend_click (x : Happening) : bool :=
  match x with
  | Handled _ _ OnResendClick => true
  | _ => false
  end.

Definition resend_clicks (xs : list Happening) : nat :=
  List.length (List.filter is_resend_click xs).

(** The configuration [decorate] reads from the rows of the block, each row
    given by the text of its cells: a row of two cells or more whose first
    cell is not blank gives a hidden field named by the first cell, with the
    second cell as its default. *)
Definition configFields (rows : list (list string)) : FieldList :=
  List.flat_map
    (fun cells =>
       match cells with
       | k :: v :: _ =>
           let key := Str.trim k in
           let value := Str.trim v in
           if Str.truthy key
           then [Field.mk (Some "hidden") (Some key) None None None (Some value)
                          None None None None None None None]
           else []
       | _ => []
       end) rows.

(** The first row of the block that has two cells or more and the key
    [name]. *)
Definition config_row (name : string) (rows : list (list string)) : option (list string) :=
  List.find (fun cells =>
               match cells with
               | k :: _ :: _ => String.eqb (Str.trim k) name
               | _ => false
               end) rows.

(** A control that writes its value under [name] when the payload is
    generated: it bears the name, is not disabled and, if it is a radio
    button, is checked. *)
Definition writes (name : string) (form : node) (field : path) : bool :=
  match Dom.at_path field form with
  | Some e =>
      String.eqb (Dom.prop "name" e) name && negb (Dom.hasAttr "disabled" e)
      && (negb (String.eqb (Control.type_of e) "radio") || checked e)
  | None => false
  end.

(** No listed control of the form that bears the name is a checkbox. *)
Definition no_checkbox (name : string) (form : node) (l : list path) : Prop :=
  forall field e, field ∈ l -> Dom.at_path field form = Some e ->
    Dom.prop "name" e = name -> Control.type_of e <> "checkbox".

(** A submit handled by the listener of [enableSubmission]. *)
Definition is_form_submit (x : Happening) : bool :=
  match x with
  | Handled _ _ OnFormSubmit => true
  | _ => false
  end.

(** [buildOptionsFromUrl(url)] from the parsed body of the response on: one
    [option] element for each entry of its [data] array, an entry given by
    its [option] and [value] members. *)
Section OptionsFromUrl.
Context `{Utils} `{Browser}.

Definition optionFromEntry (o : option string * option string) : Element :=
  let '(option, value) := o in
  let optionEl := createElement "option" None in
  match Field.given option, Field.given value with
  | Some option, Some value => Dom.set_textContent option (Dom.set_value value optionEl)
  | Some option, None => Dom.set_textContent option (Dom.set_value option optionEl)
  | None, Some value => Dom.set_textContent value (Dom.set_value value optionEl)
  | None, None => optionEl
  end.

Definition buildOptionsFromUrl (data : list (option string * option string)) : list node :=
  List.map (fun o => Node (optionFromEntry o) []) data.

End OptionsFromUrl.

(** The types whose field needs [options] to be built. *)
Definition option_types : list string := ["radio"; "checkbox"; "select"].

(** A [label] element that carries [for] names one of the ids of a list;
    any other element passes. *)
Definition label_ok (ids : list string) (e : Element) : Prop :=
  Dom.is_tag "label" e = true -> forall i, attrs e !! "for" = Some i -> i ∈ ids.

(** The ids of a list are ids of controls of a node. *)
Definition ids_of_controls (ids : list string) (n : node) : Prop :=
  forall i, i ∈ ids ->
    exists q e, Dom.at_path q n = Some e /\ Control.sel_control e = true /\ Dom.prop "id" e = i.

(** A controlled control and its wrapper agree on whether the field is
    shown: hidden and out of the tab order, or shown and in it. *)
Definition tab_follows_hidden (i fld : path) (g : node) : Prop :=
  (Dom.attr_at fld "aria-hidden" g = Some "true" /\ Dom.attr_at i "tabindex" g = Some "-1")
  \/ (Dom.attr_at fld "aria-hidden" g = Some "false" /\ Dom.attr_at i "tabindex" g = None).

(** ** Scenarios on the sample pages
    Pages and sequences of happenings for the closed examples of the
    properties stated over every page. *)
Module Scenario.
Import Sample.

(** The closure [initOtpBehavior] leaves on the page of [decorate]. *)
Definition closure : Otp.Closure :=
  default (Otp.mkClosure [] None [] [] [] [] [] [] 0 None false 0) (otp otpPage).

(** Five clicks on the resend button, with the interval firing and a
    change and an edit of the form in between. *)
Definition impatient : list Happening :=
  [ Handled offline resendButton OnResendClick;
    Fired 0;
    Handled offline resendButton OnResendClick;
    Handled offline mobile OnMobileInput;
    Handled offline resendButton OnResendClick;
    Edited (Dom.update mobile (Dom.set_value "9876543210"));
    Handled offline resendButton OnResendClick;
    Handled offline resendButton OnResendClick ].

(** A submit of the OTP form handled by its two listeners. *)
Definition otpSubmit : list Happening :=
  [ Handled offline [] OnOtpSubmitCount; Handled offline [] OnOtpSubmitVerify ].

(** A form with a controller, a controlled field and a confirmation entry,
    built with the submit target [/submit]. *)
Definition confirmed : FieldList :=
  [ plan "Basic"; details "plan-pro";
    Field.mk (Some "confirmation") None (Some "/done") None None None None
             None None None None None None ].

Definition submittable : Page :=
  Pg.initial (form_of (buildForm confirmed (Some "/submit"))).

(** The fields of [decorate] built with a submit target: the required
    controls are empty. *)
Definition blank : Page :=
  Pg.initial (form_of (buildForm staticFields (Some "/submit"))).

(** A response that is ok, with nothing else touching the form meanwhile. *)
Definition accepted : Pending := mkPending (Responded true None) (fun f => f).

(** The rows of a block whose first row for the limit message is blank. *)
Definition rows : list (list string) :=
  [ ["title"; "Verify"]; ["resendLimitMessage"; "  "]; ["resendLimitMessage"; "Try later"];
    ["orphan"] ].

End Scenario.

(** ** Facts about the DOM *)

Lemma node_ind' (P : node -> Prop) :
  (forall e ks, Forall P ks -> P (Node e ks)) -> forall n, P n.
Proof.
  intros step. fix IH 1. intros [e ks]. apply step.
  revert ks. fix IHks 1. intros [|k ks]; constructor.
  - apply IH.
  - apply IHks.
Qed.

Lemma at_path_nil n : Dom.at_path [] n = Some (elem n).
Proof. reflexivity. Qed.

Lemma at_path_cons i p n :
  Dom.at_path (i :: p) n =
  match children n !! i with Some c => Dom.at_path p c | None => None end.
Proof. unfold Dom.at_path. simpl. destruct (children n !! i); reflexivity. Qed.

Lemma at_path_update p q f n :
  Dom.at_path q (Dom.update p f n) =
  if decide (p = q) then f <$> Dom.at_path q n else Dom.at_path q n.
Proof.
  revert q n. induction p as [|i p IH]; intros q n.
  - destruct q as [|j q]; case_decide; try congruence; reflexivity.
  - cbn [Dom.update]. destruct (children n !! i) as [c|] eqn:Hc.
    + destruct q as [|j q].
      * case_decide; [congruence|reflexivity].
      * rewrite !at_path_cons. cbn [children].
        destruct (decide (i = j)) as [->|Hij].
        -- rewrite list_lookup_insert_eq by (eapply lookup_lt_Some; eassumption).
           rewrite Hc, IH. repeat case_decide; congruence.
        -- rewrite list_lookup_insert_ne by assumption.
           case_decide; congruence.
    + case_decide as Hpq; [|reflexivity]. subst q.
      rewrite at_path_cons, Hc. reflexivity.
Qed.

Lemma at_path_update_same p f n :
  Dom.at_path p (Dom.update p f n) = f <$> Dom.at_path p n.
Proof. rewrite at_path_update, decide_True by reflexivity. reflexivity. Qed.

Lemma at_path_update_other p q f n :
  p <> q -> Dom.at_path q (Dom.update p f n) = Dom.at_path q n.
Proof. intros. rewrite at_path_update, decide_False by assumption. reflexivity. Qed.

(** Reading an attribute after writing one. *)
Lemma attr_at_setAttr p q k k' v n :
  Dom.attr_at q k' (Dom.update p (Dom.setAttr k v) n) =
  if decide (p = q /\ k = k')
  then (fun _ => v) <$> Dom.at_path q n
  else Dom.attr_at q k' n.
Proof.
  unfold Dom.attr_at. rewrite at_path_update.
  destruct (decide (p = q)) as [->|Hpq].
  - destruct (Dom.at_path q n) as [e|]; simpl.
    + unfold Dom.getAttr, Dom.setAttr, Dom.set_attrs; simpl.
      destruct (decide (k = k')) as [->|Hk].
      * rewrite decide_True by tauto. apply lookup_insert_eq.
      * rewrite decide_False by tauto. apply lookup_insert_ne. assumption.
    + destruct (decide _); reflexivity.
  - rewrite decide_False by tauto. reflexivity.
Qed.

Lemma attr_at_removeAttr p q k k' n :
  Dom.attr_at q k' (Dom.update p (Dom.removeAttr k) n) =
  if decide (p = q /\ k = k') then None else Dom.attr_at q k' n.
Proof.
  unfold Dom.attr_at. rewrite at_path_update.
  destruct (decide (p = q)) as [->|Hpq].
  - destruct (Dom.at_path q n) as [e|]; simpl.
    + unfold Dom.getAttr, Dom.removeAttr, Dom.set_attrs; simpl.
      destruct (decide (k = k')) as [->|Hk].
      * rewrite decide_True by tauto. apply lookup_delete_eq.
      * rewrite decide_False by tauto. apply lookup_delete_ne. assumption.
    + destruct (decide _); reflexivity.
  - rewrite decide_False by tauto. reflexivity.
Qed.

(** *** Trees of the same shape *)

Section Sim.
Variable R : Element -> Element -> Prop.

Lemma sim_refl : (forall e, R e e) -> forall n, Rel.sim R n n.
Proof.
  intros HR. induction n as [e ks IH] using node_ind'.
  constructor; [apply HR|].
  induction IH; constructor; assumption.
Qed.

Lemma sim_elem n n' : Rel.sim R n n' -> R (elem n) (elem n').
Proof. intros []. assumption. Qed.

Lemma sim_children n n' : Rel.sim R n n' -> Forall2 (Rel.sim R) (children n) (children n').
Proof. intros []. assumption. Qed.

Lemma sim_get p n n' :
  Rel.sim R n n' -> option_Forall2 (Rel.sim R) (Dom.get p n) (Dom.get p n').
Proof.
  revert n n'. induction p as [|i p IH]; intros n n' Hs; simpl.
  - constructor. assumption.
  - pose proof (sim_children _ _ Hs) as Hk.
    destruct (children n !! i) as [c|] eqn:Hc.
    + destruct (Forall2_lookup_l _ _ _ _ _ Hk Hc) as (c' & -> & Hcc').
      apply IH. assumption.
    + destruct (children n' !! i) as [c'|] eqn:Hc'; [|constructor].
      destruct (Forall2_lookup_r _ _ _ _ _ Hk Hc') as (c & Hc2 & _). congruence.
Qed.

Lemma sim_at_path p n n' :
  Rel.sim R n n' -> option_Forall2 R (Dom.at_path p n) (Dom.at_path p n').
Proof.
  intros Hs. unfold Dom.at_path.
  destruct (sim_get p _ _ Hs); constructor. apply sim_elem. assumption.
Qed.

Lemma sim_update p f n :
  (forall e, R e e) -> (forall e, R e (f e)) -> Rel.sim R n (Dom.update p f n).
Proof.
  intros Hrefl Hf. revert n. induction p as [|i p IH]; intros [e ks]; simpl.
  - constructor; [apply Hf|].
    apply sim_children with (n := Node e ks) (n' := Node e ks), sim_refl, Hrefl.
  - destruct (ks !! i) as [c|] eqn:Hc; [|apply sim_refl, Hrefl].
    constructor; [apply Hrefl|]. simpl.
    rewrite <- (list_insert_id ks i c Hc) at 1.
    apply Forall2_insert; [|apply IH].
    apply sim_children with (n := Node e ks) (n' := Node e ks), sim_refl, Hrefl.
Qed.

End Sim.

Lemma sim_mono (R R' : Element -> Element -> Prop) n n' :
  (forall e e', R e e' -> R' e e') -> Rel.sim R n n' -> Rel.sim R' n n'.
Proof.
  intros Himp. revert n'. induction n as [e ks IH] using node_ind'.
  intros n' Hs. inversion Hs as [? e' ? ks' He Hk]; subst.
  constructor; [auto|].
  clear Hs. revert ks' Hk. induction IH as [|k ks Hk0 _ IHks]; intros ks' Hk.
  - inversion Hk. constructor.
  - inversion Hk; subst. constructor; auto.
Qed.

Lemma sim_trans (R : Element -> Element -> Prop) n1 n2 n3 :
  (forall a b c, R a b -> R b c -> R a c) ->
  Rel.sim R n1 n2 -> Rel.sim R n2 n3 -> Rel.sim R n1 n3.
Proof.
  intros Ht. revert n2 n3. induction n1 as [e ks IH] using node_ind'.
  intros n2 n3 H12 H23.
  inversion H12 as [? e2 ? ks2 He12 Hk12]; subst.
  inversion H23 as [? e3 ? ks3 He23 Hk23]; subst.
  constructor; [eauto|].
  clear H12 H23. revert ks2 ks3 Hk12 Hk23.
  induction IH as [|k ks Hk0 _ IHks]; intros ks2 ks3 Hk12 Hk23.
  - inversion Hk12; subst. inversion Hk23. constructor.
  - inversion Hk12; subst. inversion Hk23; subst. constructor; eauto.
Qed.

(** *** Descendants and queries *)

Lemma descendants_unfold e ks : Dom.descendants (Node e ks) = kids_descendants 0 ks.
Proof.
  simpl. generalize 0%nat. induction ks as [|k ks IH]; intros i; simpl.
  - reflexivity.
  - rewrite IH. reflexivity.
Qed.

Lemma sim_descendants (R : Element -> Element -> Prop) n n' :
  Rel.sim R n n' -> Forall2 (entry_rel R) (Dom.descendants n) (Dom.descendants n').
Proof.
  revert n'. induction n as [e ks IH] using node_ind'.
  intros n' Hs. inversion Hs as [? e' ? ks' _ Hk]; subst. clear Hs.
  rewrite !descendants_unfold. generalize 0%nat.
  revert ks' Hk. induction IH as [|k ks Hk0 _ IHks]; intros ks' Hk i.
  - inversion Hk. constructor.
  - inversion Hk as [|? k' ? ks'' Hkk' Hrest]; subst. simpl.
    constructor.
    + split; [reflexivity|]. apply sim_elem. assumption.
    + apply Forall2_app; [|apply IHks; assumption].
      apply Forall2_fmap. eapply Forall2_impl; [apply Hk0; eassumption|].
      intros [p a] [p' a'] [Hp Ha]. simpl in *.
      unfold entry_rel, Dom.under; simpl. split; [congruence|assumption].
Qed.

Lemma entries_filter (R : Element -> Element -> Prop) (sel : Element -> bool) l l' :
  Rel.respects R sel -> Forall2 (entry_rel R) l l' ->
  Forall2 (entry_rel R) (List.filter (fun pe => sel (snd pe)) l)
                        (List.filter (fun pe => sel (snd pe)) l').
Proof.
  intros Hsel. induction 1 as [|x y l l' [Hp He] _ IH]; simpl; [constructor|].
  rewrite (Hsel _ _ He). destruct (sel (snd y)); [constructor|]; try assumption.
  split; assumption.
Qed.

Lemma entries_paths (R : Element -> Element -> Prop) l l' :
  Forall2 (entry_rel R) l l' -> fst <$> l = fst <$> l'.
Proof.
  induction 1 as [|x y l l' [Hp _] _ IH]; [reflexivity|].
  rewrite !fmap_cons, Hp, IH. reflexivity.
Qed.

Lemma sim_querySelectorAll (R : Element -> Element -> Prop) sel n n' :
  Rel.respects R sel -> Rel.sim R n n' ->
  Dom.querySelectorAll sel n = Dom.querySelectorAll sel n'.
Proof.
  intros Hsel Hs. unfold Dom.querySelectorAll.
  eapply entries_paths, entries_filter, sim_descendants; eassumption.
Qed.

Lemma sim_querySelector (R : Element -> Element -> Prop) sel n n' :
  Rel.respects R sel -> Rel.sim R n n' ->
  Dom.querySelector sel n = Dom.querySelector sel n'.
Proof.
  intros. unfold Dom.querySelector. erewrite sim_querySelectorAll; eauto.
Qed.

Lemma sim_closest (R : Element -> Element -> Prop) sel p n n' :
  Rel.respects R sel -> Rel.sim R n n' ->
  Dom.closest sel p n = Dom.closest sel p n'.
Proof.
  intros Hsel Hs. unfold Dom.closest.
  induction (Dom.inclusive_ancestors p) as [|q l IH]; simpl; [reflexivity|].
  rewrite IH. destruct (sim_at_path R q _ _ Hs) as [e e' He|]; [|reflexivity].
  rewrite (Hsel _ _ He). reflexivity.
Qed.

(** *** What related trees agree on *)

Ltac not_in_list :=
  repeat (apply not_elem_of_cons; split; [discriminate|]); apply not_elem_of_nil.

Lemma same_outside_refl K e : Rel.same_outside K e e.
Proof. repeat split. Qed.

Lemma same_outside_trans K a b c :
  Rel.same_outside K a b -> Rel.same_outside K b c -> Rel.same_outside K a c.
Proof.
  intros (?&?&?&?&?&?&?&Hab) (?&?&?&?&?&?&?&Hbc).
  repeat split; try congruence. intros k Hk. rewrite Hab, Hbc by assumption. reflexivity.
Qed.

Lemma same_outside_weaken K K' e e' :
  K ⊆ K' -> Rel.same_outside K e e' -> Rel.same_outside K' e e'.
Proof.
  intros Hsub (?&?&?&?&?&?&?&Hk). repeat split; try assumption.
  intros k Hn. apply Hk. intros Hin. apply Hn, Hsub, Hin.
Qed.

Lemma same_outside_setAttr K k v e : k ∈ K -> Rel.same_outside K e (Dom.setAttr k v e).
Proof.
  intros Hk. repeat split. intros k' Hk'. simpl.
  symmetry. apply lookup_insert_ne. intros ->. contradiction.
Qed.

Lemma same_outside_removeAttr K k e : k ∈ K -> Rel.same_outside K e (Dom.removeAttr k e).
Proof.
  intros Hk. repeat split. intros k' Hk'. simpl.
  symmetry. apply lookup_delete_ne. intros ->. contradiction.
Qed.

Lemma same_outside_setBoolAttr K k b e :
  k ∈ K -> Rel.same_outside K e (Dom.setBoolAttr k b e).
Proof.
  intros. destruct b; [apply same_outside_setAttr|apply same_outside_removeAttr]; assumption.
Qed.

Lemma same_outside_keeps_control K :
  "disabled" ∉ K -> Rel.keeps_control (Rel.same_outside K).
Proof. intros Hd e e' (?&?&?&?&?&?&?&Hk). repeat split; auto. Qed.

Lemma same_but_display_keeps_control : Rel.keeps_control Rel.same_but_display.
Proof. intros e e' (?&?&?&?&?&?&Ha). repeat split; auto. rewrite Ha. reflexivity. Qed.

Lemma Forall2_filter_bool {A B} (P : A -> B -> Prop) (g : A -> bool) (g' : B -> bool) l l' :
  (forall x y, P x y -> g x = g' y) -> Forall2 P l l' ->
  Forall2 P (List.filter g l) (List.filter g' l').
Proof.
  intros Hg. induction 1 as [|x y l l' Hxy _ IH]; simpl; [constructor|].
  rewrite (Hg _ _ Hxy). destruct (g' y); [constructor|]; assumption.
Qed.

Lemma Forall2_find_bool {A B} (P : A -> B -> Prop) (g : A -> bool) (g' : B -> bool) l l' :
  (forall x y, P x y -> g x = g' y) -> Forall2 P l l' ->
  option_Forall2 P (List.find g l) (List.find g' l').
Proof.
  intros Hg. induction 1 as [|x y l l' Hxy _ IH]; simpl; [constructor|].
  rewrite (Hg _ _ Hxy). destruct (g' y); [constructor|]; assumption.
Qed.

Lemma sim_select_value R ks ks' :
  Rel.keeps_control R -> Forall2 (Rel.sim R) ks ks' ->
  Control.select_value ks = Control.select_value ks'.
Proof.
  intros HR Hk. unfold Control.select_value.
  assert (Hopts : Forall2 (Rel.sim R) (List.filter Control.is_option ks)
                                      (List.filter Control.is_option ks')).
  { apply Forall2_filter_bool; [|assumption].
    intros x y Hxy. unfold Control.is_option, Dom.is_tag.
    destruct (HR _ _ (sim_elem _ _ _ Hxy)) as (-> & _). reflexivity. }
  pose proof (Forall2_find_bool (Rel.sim R) (fun o => checked (elem o))
                (fun o => checked (elem o)) _ _
                (fun x y Hxy => proj1 (proj2 (proj2 (HR _ _ (sim_elem _ _ _ Hxy))))) Hopts) as F1.
  destruct F1 as [o o' Hoo'|].
  - apply (HR _ _ (sim_elem _ _ _ Hoo')).
  - assert (Hdis : forall x y, Rel.sim R x y ->
               negb (Dom.hasAttr "disabled" (elem x)) = negb (Dom.hasAttr "disabled" (elem y))).
    { intros x y Hxy. unfold Dom.hasAttr.
      destruct (HR _ _ (sim_elem _ _ _ Hxy)) as (_ & _ & _ & ->). reflexivity. }
    destruct (Forall2_find_bool (Rel.sim R) _ _ _ _ Hdis Hopts) as [o o' Hoo'|].
    + apply (HR _ _ (sim_elem _ _ _ Hoo')).
    + reflexivity.
Qed.

Lemma sim_value_of R p n n' :
  Rel.keeps_control R -> Rel.sim R n n' -> Control.value_of p n = Control.value_of p n'.
Proof.
  intros HR Hs. unfold Control.value_of.
  destruct (sim_get R p _ _ Hs) as [m m' Hm|]; [|reflexivity].
  unfold Dom.is_tag. destruct (HR _ _ (sim_elem _ _ _ Hm)) as (-> & -> & _).
  rewrite (sim_select_value R (children m) (children m') HR (sim_children _ _ _ Hm)).
  reflexivity.
Qed.

Lemma sim_attr_at K p k n n' :
  k ∉ K -> Rel.sim (Rel.same_outside K) n n' -> Dom.attr_at p k n = Dom.attr_at p k n'.
Proof.
  intros Hk Hs. unfold Dom.attr_at.
  destruct (sim_at_path _ p _ _ Hs) as [e e' (_&_&_&_&_&_&_&Ha)|]; [|reflexivity].
  simpl. apply Ha, Hk.
Qed.

Lemma sim_name_of K p n n' :
  "name" ∉ K -> Rel.sim (Rel.same_outside K) n n' -> Control.name_of p n = Control.name_of p n'.
Proof.
  intros Hk Hs. unfold Control.name_of.
  destruct (sim_at_path _ p _ _ Hs) as [e e' (_&_&_&_&_&_&_&Ha)|]; [|reflexivity].
  unfold Dom.prop. rewrite (Ha _ Hk). reflexivity.
Qed.

(** The selectors of the script cannot tell apart two elements that differ
    in attributes they do not read. *)
Lemma respects_form_field K : Rel.respects (Rel.same_outside K) Control.sel_form_field.
Proof.
  intros e e' (_&Hc&_). unfold Control.sel_form_field, Dom.has_class. rewrite Hc. reflexivity.
Qed.

Lemma respects_type_of K :
  "type" ∉ K -> Rel.respects (Rel.same_outside K) Control.type_of.
Proof.
  intros Hk e e' (Ht&_&_&_&_&_&_&Ha).
  unfold Control.type_of, Dom.is_tag, Dom.prop. rewrite Ht, (Ha _ Hk). reflexivity.
Qed.

Lemma respects_listed K :
  "type" ∉ K -> Rel.respects (Rel.same_outside K) Control.listed.
Proof.
  intros Hk e e' He. unfold Control.listed.
  rewrite (respects_type_of K Hk _ _ He).
  destruct He as (Ht&_). unfold Dom.is_tag. rewrite Ht. reflexivity.
Qed.

Lemma respects_named_checked K c :
  "type" ∉ K -> "name" ∉ K ->
  Rel.respects (Rel.same_outside K) (Control.sel_named_checked c).
Proof.
  intros Hty Hn e e' He. unfold Control.sel_named_checked, Control.is_checked.
  rewrite (respects_type_of K Hty _ _ He).
  destruct He as (Ht&_&_&Hc&_&_&_&Ha).
  unfold Dom.attr_is, Dom.is_tag. rewrite Ht, Hc, (Ha _ Hn). reflexivity.
Qed.

Lemma respects_select_named K c :
  "name" ∉ K -> Rel.respects (Rel.same_outside K) (Control.sel_select_named c).
Proof.
  intros Hn e e' (Ht&_&_&_&_&_&_&Ha).
  unfold Control.sel_select_named, Dom.attr_is, Dom.is_tag. rewrite Ht, (Ha _ Hn). reflexivity.
Qed.

(** *** Loops *)

Lemma forEach_app {A} (body : A -> node -> Completion) l1 l2 form :
  forEach body (l1 ++ l2) form =
  match forEach body l1 form with
  | Normal form' => forEach body l2 form'
  | Thrown form' => Thrown form'
  end.
Proof.
  revert form. induction l1 as [|x l1 IH]; intros form; simpl; [reflexivity|].
  destruct (body x form); [apply IH|reflexivity].
Qed.

Lemma forEach_invariant {A} (body : A -> node -> Completion) (I : node -> Prop) l form :
  I form ->
  (forall x g, x ∈ l -> I g -> exists g', body x g = Normal g' /\ I g') ->
  exists form', forEach body l form = Normal form' /\ I form'.
Proof.
  revert form. induction l as [|x l IH]; intros form HI Hbody; simpl.
  - eauto.
  - destruct (Hbody x form) as (g' & -> & HI'); [left|assumption|].
    apply IH; [assumption|]. intros y g Hy. apply Hbody. right. assumption.
Qed.

(** A postcondition that one element of the list establishes and every
    element keeps holds at the end. *)
Lemma forEach_establish {A} (body : A -> node -> Completion) (I Q : node -> Prop) l x form :
  x ∈ l -> I form ->
  (forall y g, y ∈ l -> I g -> exists g', body y g = Normal g' /\ I g' /\ (Q g -> Q g')) ->
  (forall g, I g -> exists g', body x g = Normal g' /\ Q g') ->
  exists form', forEach body l form = Normal form' /\ I form' /\ Q form'.
Proof.
  intros Hx HI Hkeep Hest.
  apply list_elem_of_split in Hx as (l1 & l2 & ->).
  rewrite forEach_app.
  destruct (forEach_invariant body I l1 form HI) as (g1 & -> & HI1).
  { intros y g Hy Hg. destruct (Hkeep y g) as (g' & ? & ? & _); [|assumption|eauto].
    apply elem_of_app. left. assumption. }
  simpl.
  destruct (Hkeep x g1) as (g2 & Hb & HI2 & _); [apply elem_of_app; right; left|assumption|].
  destruct (Hest g1 HI1) as (g2' & Hb' & HQ2). rewrite Hb in Hb'. injection Hb' as <-.
  rewrite Hb.
  destruct (forEach_invariant body (fun g => I g /\ Q g) l2 g2) as (g3 & -> & HI3 & HQ3).
  { split; assumption. }
  { intros y g Hy [Hg HQ]. destruct (Hkeep y g) as (g' & ? & ? & ?); [|assumption|eauto].
    apply elem_of_app. right. right. assumption. }
  eauto.
Qed.

(** *** One controlled control at a time *)

Ltac in_list :=
  repeat first [apply list_elem_of_here | apply list_elem_of_further].

Lemma closest_valid sel p n q :
  Dom.closest sel p n = Some q -> exists e, Dom.at_path q n = Some e /\ sel e = true.
Proof.
  unfold Dom.closest. intros Hf. apply find_some in Hf as [_ Hq].
  destruct (Dom.at_path q n) as [e|]; [eauto|discriminate].
Qed.

Lemma sim_step (K : list string) p f n n' :
  (forall e, Rel.same_outside K e (f e)) ->
  Rel.sim (Rel.same_outside K) n n' ->
  Rel.sim (Rel.same_outside K) n (Dom.update p f n').
Proof.
  intros Hf Hs. eapply sim_trans; [apply same_outside_trans|eassumption|].
  apply sim_update; [apply same_outside_refl|assumption].
Qed.

Lemma has_attr_at_spec p k n :
  Dom.has_attr_at p k n = true <-> is_Some (Dom.attr_at p k n).
Proof.
  unfold Dom.has_attr_at. destruct (Dom.attr_at p k n); split; intros Hx;
    try reflexivity; try discriminate; eauto.
  destruct Hx. discriminate.
Qed.

Lemma const_at_path_update {A} (v : A) p q f n :
  (fun _ => v) <$> Dom.at_path q (Dom.update p f n) = (fun _ => v) <$> Dom.at_path q n.
Proof.
  rewrite at_path_update. case_decide; [|reflexivity].
  destruct (Dom.at_path q n); reflexivity.
Qed.

Lemma given_Some o s : Field.given o = Some s -> o = Some s /\ s <> "".
Proof.
  destruct o as [[|c t]|]; simpl; intros Hx; try discriminate.
  injection Hx as <-. split; [reflexivity|discriminate].
Qed.

Lemma given_None o : Field.given o = None -> o = None \/ o = Some "".
Proof. destruct o as [[|c t]|]; simpl; intros Hx; try discriminate; auto. Qed.

Lemma has_attr_at_valid p k n :
  Dom.has_attr_at p k n = true -> exists e, Dom.at_path p n = Some e.
Proof.
  unfold Dom.has_attr_at, Dom.attr_at.
  destruct (Dom.at_path p n) as [e|]; [eauto|discriminate].
Qed.

Lemma has_attr_at_false p k n : Dom.has_attr_at p k n = false -> Dom.attr_at p k n = None.
Proof. unfold Dom.has_attr_at. destruct (Dom.attr_at p k n); [discriminate|reflexivity]. Qed.

Ltac attr_simp :=
  repeat (rewrite ?attr_at_setAttr, ?attr_at_removeAttr);
  repeat (case_decide; destruct_and?; simplify_eq; try tauto);
  rewrite ?const_at_path_update.

Ltac sim_steps K :=
  repeat apply sim_step; try apply sim_refl; intros;
  first [apply same_outside_refl | apply same_outside_setAttr | apply same_outside_removeAttr];
  unfold K; in_list.

Section Engine.
Context `{Utils}.

Lemma toggle_each_spec target j g fj :
  Dom.closest Control.sel_form_field j g = Some fj ->
  let cm := conditionMet (Dom.attr_at fj "data-condition" g) (Control.value_of target g) in
  exists g', toggleConditional_each target j g = Normal g' /\
    Rel.sim (Rel.same_outside toggle_keys) g g' /\
    Dom.attr_at fj "aria-hidden" g' = Some (Str.of_bool (negb cm)) /\
    (forall q, q <> fj -> Dom.attr_at q "aria-hidden" g' = Dom.attr_at q "aria-hidden" g) /\
    (forall q, q <> j -> Dom.attr_at q "required" g' = Dom.attr_at q "required" g) /\
    Dom.attr_at j "required" g' =
      (if cm then
         if Field.equals (Dom.attr_at j "data-original-required" g) "true"
         then (fun _ => "") <$> Dom.at_path j g
         else Dom.attr_at j "required" g
       else None).
Proof.
  intros Hc cm. unfold toggleConditional_each. rewrite Hc.
  destruct (closest_valid _ _ _ _ Hc) as (e & He & _).
  fold cm. destruct cm; cbn zeta.
  - rewrite attr_at_setAttr, decide_False by (intros [_ ?]; discriminate).
    destruct (Field.equals _ "true"); eexists; (split; [reflexivity|]);
      (split; [sim_steps toggle_keys|]);
      repeat split; intros; attr_simp; rewrite ?He; try reflexivity.
  - eexists; (split; [reflexivity|]); (split; [sim_steps toggle_keys|]);
      repeat split; intros; attr_simp; rewrite ?He; try reflexivity.
Qed.

Lemma init_step_spec met j g fj :
  Dom.closest Control.sel_form_field j g = Some fj ->
  let cm := met (Dom.attr_at fj "data-condition" g) in
  exists g', init_step met j g = Normal g' /\
    Rel.sim (Rel.same_outside engine_keys) g g' /\
    Dom.attr_at fj "aria-hidden" g' = Some (Str.of_bool (negb cm)) /\
    (forall q, q <> fj -> Dom.attr_at q "aria-hidden" g' = Dom.attr_at q "aria-hidden" g) /\
    (forall q k, q <> j -> k <> "aria-hidden" -> Dom.attr_at q k g' = Dom.attr_at q k g) /\
    Dom.attr_at j "required" g' = (if cm then Dom.attr_at j "required" g else None) /\
    Dom.attr_at j "data-original-required" g' =
      (if Dom.has_attr_at j "required" g
       then match Field.given (Dom.attr_at j "data-original-required" g) with
            | Some o => Some o
            | None => Some "true"
            end
       else Dom.attr_at j "data-original-required" g).
Proof.
  intros Hc cm. unfold init_step, storeOriginalRequired. rewrite Hc.
  destruct (closest_valid _ _ _ _ Hc) as (e & He & _).
  fold cm.
  assert (Hreq : Dom.has_attr_at j "required"
            (Dom.update fj (Dom.setAttr "aria-hidden" (Str.of_bool (negb cm))) g)
          = Dom.has_attr_at j "required" g).
  { unfold Dom.has_attr_at. attr_simp; reflexivity. }
  assert (Horig : Dom.attr_at j "data-original-required"
            (Dom.update fj (Dom.setAttr "aria-hidden" (Str.of_bool (negb cm))) g)
          = Dom.attr_at j "data-original-required" g).
  { attr_simp; reflexivity. }
  cbn zeta. rewrite Hreq, Horig.
  destruct (Dom.has_attr_at j "required" g) eqn:Hr;
  destruct (Field.given (Dom.attr_at j "data-original-required" g)) eqn:Ho;
  destruct cm; cbn [negb]; eexists; (split; [reflexivity|]);
    (split; [sim_steps engine_keys|]);
    repeat split; intros; attr_simp; rewrite ?He; try reflexivity;
    try (apply given_Some in Ho as [Ho _]; exact Ho);
    try (apply has_attr_at_false; exact Hr);
    try (destruct (has_attr_at_valid _ _ _ Hr) as (ej & ->); reflexivity).
Qed.

Lemma resolved_is_step v j g :
  initConditionals_resolved v j g = init_step (fun c => conditionMet c v) j g.
Proof. reflexivity. Qed.

Lemma unresolved_is_step j g :
  initConditionals_unresolved j g = init_step (fun _ => false) j g.
Proof. reflexivity. Qed.

End Engine.


(** *** A whole pass *)

Section Passes.
Context `{Utils}.

Lemma untouched_refl i fld g : untouched i fld g g.
Proof. repeat split. Qed.

Lemma untouched_trans i fld g1 g2 g3 :
  untouched i fld g1 g2 -> untouched i fld g2 g3 -> untouched i fld g1 g3.
Proof. intros (?&?&?) (?&?&?). repeat split; congruence. Qed.

Lemma has_attr_at_eq p k g g' :
  Dom.attr_at p k g' = Dom.attr_at p k g -> Dom.has_attr_at p k g' = Dom.has_attr_at p k g.
Proof. unfold Dom.has_attr_at. intros ->. reflexivity. Qed.

Lemma untouched_initialised m i fld g1 g2 g3 :
  untouched i fld g1 g2 -> initialised m i fld g2 g3 -> initialised m i fld g1 g3.
Proof.
  intros (Ha&Hr&Ho) (Ha'&Hr'&Ho'). repeat split.
  - assumption.
  - rewrite Hr', Hr. reflexivity.
  - rewrite Ho', Ho, (has_attr_at_eq _ _ _ _ Hr). reflexivity.
Qed.

Lemma initialised_untouched m i fld g1 g2 g3 :
  initialised m i fld g1 g2 -> untouched i fld g2 g3 -> initialised m i fld g1 g3.
Proof. intros (Ha&Hr&Ho) (Ha'&Hr'&Ho'). repeat split; congruence. Qed.

Lemma snapshot_given o : Field.given (Some (snapshot o)) = Some (snapshot o).
Proof.
  unfold snapshot. destruct (Field.given o) as [s|] eqn:Ho; [|reflexivity].
  apply given_Some in Ho as [_ Hs]. destruct s; [contradiction|reflexivity].
Qed.

Lemma initialised_twice m i fld g1 g2 g3 :
  initialised m i fld g1 g2 -> initialised m i fld g2 g3 -> initialised m i fld g1 g3.
Proof.
  intros (Ha&Hr&Ho) (Ha'&Hr'&Ho'). repeat split.
  - assumption.
  - rewrite Hr', Hr. destruct m; reflexivity.
  - rewrite Ho'. unfold Dom.has_attr_at at 1. rewrite Hr, Ho.
    unfold Dom.has_attr_at.
    destruct (Dom.attr_at i "required" g1) as [r|]; [|destruct m; reflexivity].
    destruct m; [|reflexivity].
    unfold snapshot at 1. rewrite snapshot_given. reflexivity.
Qed.

Lemma untouched_toggled m i fld g1 g2 g3 :
  untouched i fld g1 g2 -> toggled m i fld g2 g3 -> toggled m i fld g1 g3.
Proof.
  intros (Ha&Hr&Ho) (Ha'&Hr'&Ho'). repeat split; try congruence.
  rewrite Hr', Ho, Hr. reflexivity.
Qed.

Lemma toggled_untouched m i fld g1 g2 g3 :
  toggled m i fld g1 g2 -> untouched i fld g2 g3 -> toggled m i fld g1 g3.
Proof. intros (Ha&Hr&Ho) (Ha'&Hr'&Ho'). repeat split; congruence. Qed.

Lemma toggled_twice m i fld g1 g2 g3 :
  toggled m i fld g1 g2 -> toggled m i fld g2 g3 -> toggled m i fld g1 g3.
Proof.
  intros (Ha&Hr&Ho) (Ha'&Hr'&Ho'). repeat split; try congruence.
  rewrite Hr', Ho, Hr. destruct m; [|reflexivity].
  destruct (Field.equals _ _); reflexivity.
Qed.

Lemma equals_true o s : Field.equals o s = true -> o = Some s.
Proof.
  destruct o as [t|]; simpl; [|discriminate].
  intros Heq. apply String.eqb_eq in Heq. congruence.
Qed.

Lemma attr_at_valid p k n v : Dom.attr_at p k n = Some v -> exists e, Dom.at_path p n = Some e.
Proof. unfold Dom.attr_at. destruct (Dom.at_path p n); [eauto|discriminate]. Qed.

Lemma engine_sim_closest form g j :
  Rel.sim (Rel.same_outside engine_keys) form g ->
  Dom.closest Control.sel_form_field j g = Dom.closest Control.sel_form_field j form.
Proof.
  intros Hs. symmetry. eapply sim_closest; [apply respects_form_field|eassumption].
Qed.

Lemma toggle_sim_engine form g :
  Rel.sim (Rel.same_outside toggle_keys) form g ->
  Rel.sim (Rel.same_outside engine_keys) form g.
Proof.
  apply sim_mono. intros e e'. apply same_outside_weaken.
  unfold toggle_keys, engine_keys. intros k Hk.
  repeat (apply elem_of_cons in Hk as [->|Hk]; [in_list|]). inversion Hk.
Qed.

Lemma init_loop met form i fld l :
  Dom.closest Control.sel_form_field i form = Some fld ->
  Forall (fun j => is_Some (Dom.closest Control.sel_form_field j form)) l ->
  (forall j, j ∈ l -> Dom.closest Control.sel_form_field j form = Some fld -> j = i) ->
  forall g, Rel.sim (Rel.same_outside engine_keys) form g ->
  exists g', forEach (init_step met) l g = Normal g'
    /\ Rel.sim (Rel.same_outside engine_keys) form g'
    /\ (i ∉ l -> untouched i fld g g')
    /\ (i ∈ l -> initialised (met (Dom.attr_at fld "data-condition" form)) i fld g g').
Proof.
  intros Hi Hsome Hshare. induction l as [|j l IH]; intros g Hs.
  - exists g. split; [reflexivity|]. split; [assumption|].
    split; [intros _; apply untouched_refl|intros Hx; inversion Hx].
  - apply Forall_cons in Hsome as [[fj Hfj] Hsome].
    assert (Hcg : Dom.closest Control.sel_form_field j g = Some fj)
      by (rewrite (engine_sim_closest form g j Hs); assumption).
    destruct (init_step_spec met j g fj Hcg) as (g1 & Hb & Hs1 & Hah & Hfa & Hfo & Hreq & Horig).
    assert (Hs' : Rel.sim (Rel.same_outside engine_keys) form g1)
      by (eapply sim_trans; [apply same_outside_trans|eassumption..]).
    destruct (IH Hsome (fun j' Hj' => Hshare j' (list_elem_of_further _ _ _ Hj')) g1 Hs')
      as (g' & Hl & Hsg' & Hout & Hin).
    exists g'. simpl. rewrite Hb. split; [assumption|]. split; [assumption|].
    destruct (decide (j = i)) as [->|Hji].
    + assert (fj = fld) as -> by congruence.
      assert (Hmet : initialised (met (Dom.attr_at fld "data-condition" form)) i fld g g1).
      { rewrite (sim_attr_at engine_keys fld "data-condition" form g) by (try assumption; not_in_list).
        repeat split; try assumption.
        rewrite Horig. unfold snapshot.
        destruct (Dom.has_attr_at i "required" g); [|reflexivity].
        destruct (Field.given _); reflexivity. }
      split.
      * intros Hn. exfalso. apply Hn. left.
      * intros _. destruct (decide (i ∈ l)) as [Hil|Hil].
        -- eapply initialised_twice; eauto.
        -- eapply initialised_untouched; eauto.
    + assert (Hff : fld <> fj).
      { intros <-. apply Hji. apply Hshare; [left|assumption]. }
      assert (Hun : untouched i fld g g1).
      { repeat split; [apply Hfa; assumption|apply Hfo; [congruence|discriminate]..]. }
      split.
      * intros Hn. eapply untouched_trans; [eassumption|]. apply Hout.
        intros Hx. apply Hn. right. assumption.
      * intros Hx. apply elem_of_cons in Hx as [->|Hx]; [congruence|].
        eapply untouched_initialised; eauto.
Qed.

Lemma toggle_loop target form i fld l :
  Dom.closest Control.sel_form_field i form = Some fld ->
  Forall (fun j => is_Some (Dom.closest Control.sel_form_field j form)) l ->
  (forall j, j ∈ l -> Dom.closest Control.sel_form_field j form = Some fld -> j = i) ->
  forall g, Rel.sim (Rel.same_outside toggle_keys) form g ->
  exists g', forEach (toggleConditional_each target) l g = Normal g'
    /\ Rel.sim (Rel.same_outside toggle_keys) form g'
    /\ (i ∉ l -> untouched i fld g g')
    /\ (i ∈ l ->
        toggled (conditionMet (Dom.attr_at fld "data-condition" form)
                              (Control.value_of target form)) i fld g g').
Proof.
  intros Hi Hsome Hshare. induction l as [|j l IH]; intros g Hs.
  - exists g. split; [reflexivity|]. split; [assumption|].
    split; [intros _; apply untouched_refl|intros Hx; inversion Hx].
  - apply Forall_cons in Hsome as [[fj Hfj] Hsome].
    pose proof (toggle_sim_engine _ _ Hs) as Hse.
    assert (Hcg : Dom.closest Control.sel_form_field j g = Some fj)
      by (rewrite (engine_sim_closest form g j Hse); assumption).
    destruct (toggle_each_spec target j g fj Hcg) as (g1 & Hb & Hs1 & Hah & Hfa & Hfo & Hreq).
    assert (Hs' : Rel.sim (Rel.same_outside toggle_keys) form g1)
      by (eapply sim_trans; [apply same_outside_trans|eassumption..]).
    destruct (IH Hsome (fun j' Hj' => Hshare j' (list_elem_of_further _ _ _ Hj')) g1 Hs')
      as (g' & Hl & Hsg' & Hout & Hin).
    assert (Horig : forall q, Dom.attr_at q "data-original-required" g1
                              = Dom.attr_at q "data-original-required" g).
    { intros q. symmetry. apply (sim_attr_at toggle_keys); [not_in_list|assumption]. }
    exists g'. simpl. rewrite Hb. split; [assumption|]. split; [assumption|].
    destruct (decide (j = i)) as [->|Hji].
    + assert (fj = fld) as -> by congruence.
      assert (Hmet : toggled (conditionMet (Dom.attr_at fld "data-condition" form)
                                (Control.value_of target form)) i fld g g1).
      { rewrite (sim_attr_at toggle_keys fld "data-condition" form g)
          by (try assumption; not_in_list).
        rewrite (sim_value_of _ target form g
                   (same_outside_keeps_control toggle_keys ltac:(not_in_list)) Hs).
        repeat split; try assumption; [|apply Horig].
        rewrite Hreq.
        destruct (conditionMet (Dom.attr_at fld "data-condition" g) (Control.value_of target g));
          [|reflexivity].
        destruct (Field.equals _ "true") eqn:He; [|reflexivity].
        apply equals_true in He. destruct (attr_at_valid _ _ _ _ He) as (e & ->). reflexivity. }
      split.
      * intros Hn. exfalso. apply Hn. left.
      * intros _. destruct (decide (i ∈ l)) as [Hil|Hil].
        -- eapply toggled_twice; eauto.
        -- eapply toggled_untouched; eauto.
    + assert (Hff : fld <> fj).
      { intros <-. apply Hji. apply Hshare; [left|assumption]. }
      assert (Hun : untouched i fld g g1).
      { repeat split; [apply Hfa; assumption|apply Hfo; congruence|apply Horig]. }
      split.
      * intros Hn. eapply untouched_trans; [eassumption|]. apply Hout.
        intros Hx. apply Hn. right. assumption.
      * intros Hx. apply elem_of_cons in Hx as [->|Hx]; [congruence|].
        eapply untouched_toggled; eauto.
Qed.

End Passes.

(** *** The two entry points *)

Section Entry.
Context `{Utils}.

Lemma sim_controllerValue c form g :
  Rel.sim (Rel.same_outside engine_keys) form g ->
  controllerValue c g = controllerValue c form.
Proof.
  intros Hs. unfold controllerValue.
  rewrite <- (sim_querySelector _ (Control.sel_named_checked c) form g
                (respects_named_checked engine_keys c ltac:(not_in_list) ltac:(not_in_list)) Hs).
  rewrite <- (sim_querySelector _ (Control.sel_select_named c) form g
                (respects_select_named engine_keys c ltac:(not_in_list)) Hs).
  destruct (Dom.querySelector (Control.sel_named_checked c) form) as [p|].
  - rewrite (sim_value_of _ p form g
               (same_outside_keeps_control engine_keys ltac:(not_in_list)) Hs).
    reflexivity.
  - destruct (Dom.querySelector (Control.sel_select_named c) form) as [p|]; [|reflexivity].
    rewrite (sim_value_of _ p form g
               (same_outside_keeps_control engine_keys ltac:(not_in_list)) Hs).
    reflexivity.
Qed.

Lemma init_each_is_loop c l g :
  initConditionals_each (c, l) g = forEach (init_step (init_met c g)) l g.
Proof.
  unfold initConditionals_each, init_met.
  destruct (Field.given (controllerValue c g)); reflexivity.
Qed.

Lemma init_met_sim c form g :
  Rel.sim (Rel.same_outside engine_keys) form g -> init_met c g = init_met c form.
Proof. intros Hs. unfold init_met. rewrite (sim_controllerValue c form g Hs). reflexivity. Qed.

Lemma init_entries form i fld ctrl cfg :
  Dom.closest Control.sel_form_field i form = Some fld ->
  Forall (fun j => is_Some (Dom.closest Control.sel_form_field j form)) (inputs_of cfg) ->
  (forall j, j ∈ inputs_of cfg ->
     Dom.closest Control.sel_form_field j form = Some fld -> j = i) ->
  (forall c l, (c, l) ∈ cfg -> i ∈ l -> c = ctrl) ->
  forall g, Rel.sim (Rel.same_outside engine_keys) form g ->
  exists g', forEach initConditionals_each cfg g = Normal g'
    /\ Rel.sim (Rel.same_outside engine_keys) form g'
    /\ (i ∉ inputs_of cfg -> untouched i fld g g')
    /\ (i ∈ inputs_of cfg ->
        initialised (init_met ctrl form (Dom.attr_at fld "data-condition" form)) i fld g g').
Proof.
  intros Hi Hsome Hshare Hown. induction cfg as [|[c l] cfg IH]; intros g Hs.
  - exists g. split; [reflexivity|]. split; [assumption|].
    split; [intros _; apply untouched_refl|intros Hx; inversion Hx].
  - unfold inputs_of in Hsome, Hshare. cbn [fmap list_fmap snd concat] in Hsome, Hshare.
    apply Forall_app in Hsome as [Hl Hrest].
    destruct (init_loop (init_met c g) form i fld l Hi Hl) with (g := g)
      as (g1 & Hb & Hs1 & Hout1 & Hin1); [|assumption|].
    { intros j Hj. apply Hshare, elem_of_app. left. assumption. }
    destruct IH with (g := g1) as (g' & Hb' & Hs' & Hout & Hin); try assumption.
    { intros j Hj. apply Hshare, elem_of_app. right. assumption. }
    { intros c' l' Hcl. apply Hown. right. assumption. }
    exists g'. cbn [forEach]. rewrite init_each_is_loop, Hb.
    split; [assumption|]. split; [assumption|].
    unfold inputs_of. cbn [fmap list_fmap snd concat].
    split.
    + intros Hn. eapply untouched_trans; [apply Hout1|apply Hout].
      * intros Hx. apply Hn, elem_of_app. left. assumption.
      * intros Hx. apply Hn, elem_of_app. right. assumption.
    + intros Hx.
      destruct (decide (i ∈ l)) as [Hil|Hil].
      * assert (c = ctrl) as -> by (apply (Hown c l); [left|assumption]).
        rewrite (init_met_sim ctrl form g Hs) in Hin1.
        destruct (decide (i ∈ inputs_of cfg)) as [Hic|Hic].
        -- eapply initialised_twice; eauto.
        -- eapply initialised_untouched; eauto.
      * apply elem_of_app in Hx as [Hx|Hx]; [contradiction|].
        eapply untouched_initialised; eauto.
Qed.

(** [cfg_get] returns an entry of the map. *)
Lemma cfg_get_elem k cfg l : cfg_get k cfg = Some l -> (k, l) ∈ cfg.
Proof.
  induction cfg as [|[k' v] cfg IH]; simpl; [discriminate|].
  destruct (String.eqb k' k) eqn:Hk.
  - intros [= ->]. apply String.eqb_eq in Hk as ->. left.
  - intros Hg. right. apply IH. assumption.
Qed.

Lemma elem_inputs_of c l cfg j : (c, l) ∈ cfg -> j ∈ l -> j ∈ inputs_of cfg.
Proof.
  intros Hcl Hj. unfold inputs_of. apply list_elem_of_In, in_concat.
  exists l. split; [|apply list_elem_of_In; assumption].
  apply list_elem_of_In. apply (list_elem_of_fmap_2 snd _ _ Hcl).
Qed.

Lemma toggle_entry target form i fld cfg :
  Dom.closest Control.sel_form_field i form = Some fld ->
  Forall (fun j => is_Some (Dom.closest Control.sel_form_field j form)) (inputs_of cfg) ->
  (forall j, j ∈ inputs_of cfg ->
     Dom.closest Control.sel_form_field j form = Some fld -> j = i) ->
  exists g', toggleConditional target cfg form = Normal g'
    /\ Rel.sim (Rel.same_outside toggle_keys) form g'
    /\ match cfg_get (Control.name_of target form) cfg with
       | Some l =>
           if decide (i ∈ l)
           then toggled (conditionMet (Dom.attr_at fld "data-condition" form)
                                      (Control.value_of target form)) i fld form g'
           else untouched i fld form g'
       | None => g' = form
       end.
Proof.
  intros Hi Hsome Hshare. unfold toggleConditional.
  destruct (cfg_get (Control.name_of target form) cfg) as [l|] eqn:Hget.
  - pose proof (cfg_get_elem _ _ _ Hget) as Hel.
    destruct (toggle_loop target form i fld l Hi) with (g := form)
      as (g' & Hb & Hs & Hout & Hin).
    + apply Forall_forall. intros j Hj.
      apply (proj1 (Forall_forall _ _) Hsome). eapply elem_inputs_of; eassumption.
    + intros j Hj. apply Hshare. eapply elem_inputs_of; eassumption.
    + apply sim_refl, same_outside_refl.
    + exists g'. split; [assumption|]. split; [assumption|].
      case_decide; auto.
  - exists form. split; [reflexivity|]. split; [apply sim_refl, same_outside_refl|reflexivity].
Qed.

End Entry.

(** *** Maps whose controls each have a wrapper of their own *)

Section WellFormed.
Context `{Utils}.

Lemma NoDup_fmap_inj_on {A B} (f : A -> B) (l : list A) x y :
  NoDup (f <$> l) -> x ∈ l -> y ∈ l -> f x = f y -> x = y.
Proof.
  induction l as [|a l IH]; intros Hnd Hx Hy Hf; [inversion Hx|].
  rewrite fmap_cons in Hnd. apply NoDup_cons in Hnd as [Hna Hnd].
  apply elem_of_cons in Hx as [->|Hx]; apply elem_of_cons in Hy as [->|Hy].
  - reflexivity.
  - exfalso. apply Hna. rewrite Hf. apply list_elem_of_fmap_2. assumption.
  - exfalso. apply Hna. rewrite <- Hf. apply list_elem_of_fmap_2. assumption.
  - apply IH; assumption.
Qed.

Lemma NoDup_inputs_owner (cfg : ControllerConfig) c l c' l' i :
  NoDup (inputs_of cfg) -> (c, l) ∈ cfg -> (c', l') ∈ cfg -> i ∈ l -> i ∈ l' -> c = c'.
Proof.
  induction cfg as [|[a la] cfg IH]; intros Hnd Hx Hy Hi Hi'; [inversion Hx|].
  unfold inputs_of in Hnd. cbn [fmap list_fmap snd concat] in Hnd.
  apply NoDup_app in Hnd as (_ & Hdisj & Hnd).
  apply elem_of_cons in Hx as [Hx|Hx]; apply elem_of_cons in Hy as [Hy|Hy].
  - congruence.
  - injection Hx as -> ->. exfalso. apply (Hdisj i Hi). eapply elem_inputs_of; eassumption.
  - injection Hy as -> ->. exfalso. apply (Hdisj i Hi'). eapply elem_inputs_of; eassumption.
  - apply IH; assumption.
Qed.

Lemma wf_some cfg form :
  well_formed cfg form ->
  Forall (fun j => is_Some (Dom.closest Control.sel_form_field j form)) (inputs_of cfg).
Proof.
  intros [_ Hs]. unfold fields_of in Hs.
  apply Forall_forall. intros j Hj.
  apply (proj1 (Forall_forall _ _) Hs).
  apply (list_elem_of_fmap_2 (fun j => Dom.closest Control.sel_form_field j form)).
  exact Hj.
Qed.

Lemma wf_share cfg form i fld :
  well_formed cfg form -> i ∈ inputs_of cfg ->
  Dom.closest Control.sel_form_field i form = Some fld ->
  forall j, j ∈ inputs_of cfg ->
    Dom.closest Control.sel_form_field j form = Some fld -> j = i.
Proof.
  intros [Hnd _] Hi Hc j Hj Hcj.
  eapply (NoDup_fmap_inj_on (fun j => Dom.closest Control.sel_form_field j form));
    [exact Hnd|assumption..|congruence].
Qed.

Lemma wf_own cfg form ctrl ins i :
  well_formed cfg form -> (ctrl, ins) ∈ cfg -> i ∈ ins ->
  forall c l, (c, l) ∈ cfg -> i ∈ l -> c = ctrl.
Proof.
  intros [Hnd _] Hel Hi c l Hcl Hil.
  apply NoDup_fmap_1 in Hnd.
  eapply NoDup_inputs_owner; eassumption.
Qed.

(** [well_formed] only reads the classes of the form. *)
Lemma well_formed_sim (R : Element -> Element -> Prop) cfg form g :
  Rel.respects R Control.sel_form_field -> Rel.sim R form g ->
  well_formed cfg form -> well_formed cfg g.
Proof.
  intros HR Hs. unfold well_formed, fields_of.
  assert (Heq : (fun input => Dom.closest Control.sel_form_field input g) <$> concat (snd <$> cfg)
              = (fun input => Dom.closest Control.sel_form_field input form) <$> concat (snd <$> cfg)).
  { apply list_fmap_ext. intros _ j _. symmetry. apply (sim_closest R); assumption. }
  rewrite Heq. trivial.
Qed.

End WellFormed.

(** ** The conditional visibility engine: properties *)

Section Visibility.
Context `{Utils}.

Lemma init_visibility form cfg ctrl ins i fld :
  well_formed cfg form -> (ctrl, ins) ∈ cfg -> i ∈ ins ->
  Dom.closest Control.sel_form_field i form = Some fld ->
  exists form', initConditionals form cfg = Normal form'
    /\ Rel.sim (Rel.same_outside engine_keys) form form'
    /\ initialised (init_met ctrl form (Dom.attr_at fld "data-condition" form)) i fld form form'.
Proof.
  intros Hwf Hel Hi Hc.
  assert (Hin : i ∈ inputs_of cfg) by (eapply elem_inputs_of; eassumption).
  destruct (init_entries form i fld ctrl cfg Hc (wf_some _ _ Hwf)
              (wf_share _ _ _ _ Hwf Hin Hc) (wf_own _ _ _ _ _ Hwf Hel Hi) form)
    as (form' & Hb & Hs & _ & Hpost).
  { apply sim_refl, same_outside_refl. }
  exists form'. auto.
Qed.

Lemma toggle_visibility form cfg ctrl ins i fld target :
  well_formed cfg form -> cfg_get ctrl cfg = Some ins -> i ∈ ins ->
  Dom.closest Control.sel_form_field i form = Some fld ->
  Control.name_of target form = ctrl ->
  exists form', toggleConditional target cfg form = Normal form'
    /\ Rel.sim (Rel.same_outside toggle_keys) form form'
    /\ toggled (conditionMet (Dom.attr_at fld "data-condition" form)
                             (Control.value_of target form)) i fld form form'.
Proof.
  intros Hwf Hget Hi Hc Hname.
  assert (Hin : i ∈ inputs_of cfg)
    by (eapply elem_inputs_of; [apply cfg_get_elem|]; eassumption).
  destruct (toggle_entry target form i fld cfg Hc (wf_some _ _ Hwf)
              (wf_share _ _ _ _ Hwf Hin Hc)) as (form' & Hb & Hs & Hpost).
  rewrite Hname, Hget in Hpost. rewrite decide_True in Hpost by assumption.
  exists form'. auto.
Qed.

Lemma given_nonempty v : v <> "" -> Field.given (Some v) = Some v.
Proof. destruct v; [contradiction|reflexivity]. Qed.



End Visibility.

Ltac decide_by_computation := apply (bool_decide_unpack _); vm_compute; exact I.

Section PlanExample.
Import Sample.

Lemma plan_form_well_formed :
  well_formed (snd (Sample.linked [Sample.plan "Basic"; Sample.details "plan-pro"]))
              (fst (Sample.linked [Sample.plan "Basic"; Sample.details "plan-pro"])).
Proof. unfold well_formed. split; decide_by_computation. Qed.



End PlanExample.

(** *** Steps that leave the engine's attributes alone *)

Lemma same_on_refl K e : Rel.same_on K e e.
Proof. repeat split. Qed.

Lemma same_on_trans K a b c : Rel.same_on K a b -> Rel.same_on K b c -> Rel.same_on K a c.
Proof.
  intros (?&?&Hab) (?&?&Hbc). repeat split; try congruence.
  intros k Hk. rewrite Hab, Hbc by assumption. reflexivity.
Qed.

Lemma same_on_weaken K K' e e' : K' ⊆ K -> Rel.same_on K e e' -> Rel.same_on K' e e'.
Proof. intros Hsub (?&?&Hk). repeat split; try assumption. intros k Hin. apply Hk, Hsub, Hin. Qed.

Lemma same_outside_same_on K K' e e' :
  (forall k, k ∈ K' -> k ∉ K) -> Rel.same_outside K e e' -> Rel.same_on K' e e'.
Proof. intros Hd (?&?&_&_&_&_&_&Hk). repeat split; try assumption. intros k Hin. apply Hk, Hd, Hin. Qed.

Lemma respects_form_field_on K : Rel.respects (Rel.same_on K) Control.sel_form_field.
Proof.
  intros e e' (_&Hc&_). unfold Control.sel_form_field, Dom.has_class. rewrite Hc. reflexivity.
Qed.

Lemma sim_attr_at_on K p k n n' :
  k ∈ K -> Rel.sim (Rel.same_on K) n n' -> Dom.attr_at p k n = Dom.attr_at p k n'.
Proof.
  intros Hk Hs. unfold Dom.attr_at.
  destruct (sim_at_path _ p _ _ Hs) as [e e' (_&_&Ha)|]; [|reflexivity].
  simpl. apply Ha, Hk.
Qed.

Section RoundTrip.
Context `{Utils}.

Lemma engine_on_condition form g :
  Rel.sim (Rel.same_outside engine_keys) form g ->
  Rel.sim (Rel.same_on ["data-condition"]) form g.
Proof.
  apply sim_mono. intros e e'. apply same_outside_same_on.
  intros k Hk. apply list_elem_of_singleton in Hk as ->. not_in_list.
Qed.

Lemma reads_on_condition form g :
  Rel.sim (Rel.same_on engine_reads) form g ->
  Rel.sim (Rel.same_on ["data-condition"]) form g.
Proof.
  apply sim_mono. intros e e'. apply same_on_weaken.
  intros k Hk. apply list_elem_of_singleton in Hk as ->. left.
Qed.

Lemma reachable_settled form0 cfg ctrl ins i fld :
  well_formed cfg form0 -> cfg_get ctrl cfg = Some ins -> i ∈ ins ->
  Dom.closest Control.sel_form_field i form0 = Some fld ->
  Dom.has_attr_at i "required" form0 = true ->
  Dom.attr_at i "data-original-required" form0 = None ->
  forall g, reachable cfg form0 g -> settled form0 i fld g.
Proof.
  intros Hwf Hget Hi Hc Hreq Horig g Hr.
  induction Hr as [|g g' Hr IH Huser|g target Hr IH].
  - destruct (init_visibility form0 cfg ctrl ins i fld Hwf (cfg_get_elem _ _ _ Hget) Hi Hc)
      as (form' & Hb & Hs & Hah & Hrq & Ho).
    rewrite Hb. cbn [form_of]. split; [apply engine_on_condition; assumption|].
    rewrite Hreq, Horig in Ho. split; [exact Ho|].
    rewrite Hah, Hrq.
    apply has_attr_at_spec in Hreq.
    destruct (init_met ctrl form0 _); [right|left]; auto.
  - destruct IH as (Hs & Ho & Hst).
    split; [eapply sim_trans; [apply same_on_trans|eassumption|apply reads_on_condition; assumption]|].
    rewrite <- (sim_attr_at_on engine_reads i "data-original-required" g g') by (try assumption; in_list).
    rewrite <- (sim_attr_at_on engine_reads i "required" g g') by (try assumption; in_list).
    rewrite <- (sim_attr_at_on engine_reads fld "aria-hidden" g g') by (try assumption; in_list).
    auto.
  - destruct IH as (Hs & Ho & Hst).
    assert (Hwfg : well_formed cfg g)
      by (eapply well_formed_sim; [apply (respects_form_field_on ["data-condition"])|eassumption..]).
    assert (Hcg : Dom.closest Control.sel_form_field i g = Some fld)
      by (rewrite <- (sim_closest _ _ i form0 g (respects_form_field_on _) Hs); assumption).
    assert (Hin : i ∈ inputs_of cfg)
      by (eapply elem_inputs_of; [apply cfg_get_elem|]; eassumption).
    destruct (toggle_entry target g i fld cfg Hcg (wf_some _ _ Hwfg)
                (wf_share _ _ _ _ Hwfg Hin Hcg)) as (g' & Hb & Hsg & Hpost).
    rewrite Hb. cbn [form_of].
    split.
    { eapply sim_trans; [apply same_on_trans|eassumption|].
      apply engine_on_condition, toggle_sim_engine. assumption. }
    destruct (cfg_get (Control.name_of target g) cfg) as [l|]; [|subst g'; auto].
    case_decide.
    + destruct Hpost as (Hah & Hrq & Ho').
      rewrite Ho', Hah, Hrq, Ho. split; [reflexivity|].
      destruct (conditionMet _ _); [right|left]; simpl; eauto.
    + destruct Hpost as (Hah & Hrq & Ho').
      rewrite Ho', Hah, Hrq. auto.
Qed.

(** A control listed in the controller map, which is the first control of
    its controlled wrapper, and that carries [required] when the form is
    assembled is, on every form the page shows after [initConditionals] and
    any sequence of change events and other steps, either hidden and not
    required or shown and required; and each change event of its controller
    leaves it required, with the attribute value of a true [required], when
    the condition is met, and not required when it is not. *)
Theorem required_round_trip
  (form0 : node) (cfg : ControllerConfig) (ctrl : string) (ins : list path) (i fld : path) :
  well_formed cfg form0 ->
  cfg_get ctrl cfg = Some ins -> i ∈ ins ->
  Dom.closest Control.sel_form_field i form0 = Some fld ->
  Dom.has_attr_at i "required" form0 = true ->
  Dom.attr_at i "data-original-required" form0 = None ->
  forall form, reachable cfg form0 form ->
    ((Dom.attr_at fld "aria-hidden" form = Some "true"
      /\ Dom.has_attr_at i "required" form = false)
     \/ (Dom.attr_at fld "aria-hidden" form = Some "false"
         /\ Dom.has_attr_at i "required" form = true))
    /\ (forall target, Control.name_of target form = ctrl ->
          let met := conditionMet (Dom.attr_at fld "data-condition" form0)
                                  (Control.value_of target form) in
          exists form', toggleConditional target cfg form = Normal form'
            /\ Dom.attr_at fld "aria-hidden" form' = Some (Str.of_bool (negb met))
            /\ Dom.attr_at i "required" form' = (if met then Some "" else None)).
Proof.
  intros Hwf Hget Hi Hc Hreq Horig g Hr.
  destruct (reachable_settled form0 cfg ctrl ins i fld Hwf Hget Hi Hc Hreq Horig g Hr)
    as (Hs & Ho & Hst).
  split.
  - unfold Dom.has_attr_at.
    destruct Hst as [[Hah Hrq]|[Hah [r Hrq]]]; rewrite Hrq; auto.
  - intros target Hname met.
    assert (Hwfg : well_formed cfg g)
      by (eapply well_formed_sim; [apply (respects_form_field_on ["data-condition"])|eassumption..]).
    assert (Hcg : Dom.closest Control.sel_form_field i g = Some fld)
      by (rewrite <- (sim_closest _ _ i form0 g (respects_form_field_on _) Hs); assumption).
    destruct (toggle_visibility g cfg ctrl ins i fld target Hwfg Hget Hi Hcg Hname)
      as (g' & Hb & _ & Hah & Hrq & _).
    exists g'. split; [assumption|].
    rewrite <- (sim_attr_at_on ["data-condition"] fld "data-condition" form0 g) in Hah, Hrq
      by (try assumption; in_list).
    fold met in Hah, Hrq. split; [assumption|].
    rewrite Hrq, Ho. destruct met; reflexivity.
Qed.

End RoundTrip.

Section RoundTripExample.
Import Sample.

Lemma required_round_trip_witness :
  let form0 := fst (linked [plan "Basic"; details "plan-pro"]) in
  let cfg := snd (linked [plan "Basic"; details "plan-pro"]) in
  let form := form_of (toggleConditional [0; 2; 0]%nat cfg
                         (form_of (initConditionals form0 cfg))) in
  ((Dom.attr_at [1%nat] "aria-hidden" form = Some "true"
    /\ Dom.has_attr_at [1; 1]%nat "required" form = false)
   \/ (Dom.attr_at [1%nat] "aria-hidden" form = Some "false"
       /\ Dom.has_attr_at [1; 1]%nat "required" form = true))
  /\ (forall target, Control.name_of target form = "plan" ->
        let met := conditionMet (Dom.attr_at [1%nat] "data-condition" form0)
                                (Control.value_of target form) in
        exists form', toggleConditional target cfg form = Normal form'
          /\ Dom.attr_at [1%nat] "aria-hidden" form' = Some (Str.of_bool (negb met))
          /\ Dom.attr_at [1; 1]%nat "required" form' = (if met then Some "" else None)).
Proof.
  apply (required_round_trip _ _ "plan" [[1; 1]%nat] [1; 1]%nat [1%nat]).
  - exact plan_form_well_formed.
  - vm_compute. reflexivity.
  - left.
  - vm_compute. reflexivity.
  - vm_compute. reflexivity.
  - vm_compute. reflexivity.
  - apply reach_change, reach_init.
Defined.

(** The round trip on the sample form: hidden and not required at first
    (Basic is checked), shown and required when Pro is checked, hidden and
    not required when Basic is checked again. *)
Example plan_round_trip :
  let start := Pg.initial (built [plan "Basic"; details "plan-pro"]) in
  let pro := userChecks offline [0; 2; 0]%nat start in
  let basic := userChecks offline [0; 1; 0]%nat pro in
  (Dom.attr_at [1%nat] "aria-hidden" (form start),
   Dom.attr_at [1; 1]%nat "required" (form start)) = (Some "true", None)
  /\ (Dom.attr_at [1%nat] "aria-hidden" (form pro),
      Dom.attr_at [1; 1]%nat "required" (form pro)) = (Some "false", Some "")
  /\ (Dom.attr_at [1%nat] "aria-hidden" (form basic),
      Dom.attr_at [1; 1]%nat "required" (form basic)) = (Some "true", None).
Proof. vm_compute. repeat split. Qed.

(** C2 at the failing input: a required checkbox group [extras] with the
    options A and B, shown for a condition on [plan].  Both options carry
    [required] when the form is assembled, and the controller map lists the
    first control of the wrapper only.  With Basic checked the group is
    hidden: option A loses [required] and leaves the tab order, option B
    keeps [required] and its tab stop.  After a change event for Pro the
    group is shown and both are required; after one for Basic it is hidden
    again, and option B is required still. *)
Lemma required_group_stays_required :
  let form0 := fst (linked [plan "Basic"; extras]) in
  let cfg := snd (linked [plan "Basic"; extras]) in
  let hidden := form_of (initConditionals form0 cfg) in
  let shown := form_of (toggleConditional [0; 2; 0]%nat cfg hidden) in
  let again := form_of (toggleConditional [0; 1; 0]%nat cfg shown) in
  let optionA := [1; 1; 0]%nat in
  let optionB := [1; 2; 0]%nat in
  cfg = [("plan", [optionA])]
  /\ Dom.closest Control.sel_form_field optionA form0 = Some [1%nat]
  /\ Dom.closest Control.sel_form_field optionB form0 = Some [1%nat]
  /\ (Dom.attr_at optionA "required" form0, Dom.attr_at optionB "required" form0)
     = (Some "", Some "")
  /\ Dom.attr_at [1%nat] "aria-hidden" hidden = Some "true"
  /\ (Dom.attr_at optionA "required" hidden, Dom.attr_at optionA "tabindex" hidden)
     = (None, Some "-1")
  /\ (Dom.attr_at optionB "required" hidden, Dom.attr_at optionB "tabindex" hidden)
     = (Some "", None)
  /\ Dom.attr_at [1%nat] "aria-hidden" shown = Some "false"
  /\ (Dom.attr_at optionA "required" shown, Dom.attr_at optionB "required" shown)
     = (Some "", Some "")
  /\ Dom.attr_at [1%nat] "aria-hidden" again = Some "true"
  /\ (Dom.attr_at optionA "required" again, Dom.attr_at optionA "tabindex" again)
     = (None, Some "-1")
  /\ (Dom.attr_at optionB "required" again, Dom.attr_at optionB "tabindex" again)
     = (Some "", None).
Proof. vm_compute. repeat split. Qed.

End RoundTripExample.

Section InitUpdate.
Context `{Utils}.


End InitUpdate.

Section InitUpdateExample.
Import Sample.


(** C3 at the failing input: a select controller that shows its placeholder
    has the empty value.  [initConditionals] takes the empty value for no
    value and hides the controlled field; [toggleConditional], on a change
    event of the same select with the same empty value, shows it. *)
Lemma init_update_differ_on_empty_value :
  let form := fst (linked [planSelect; details "plan-pro"]) in
  let cfg := snd (linked [planSelect; details "plan-pro"]) in
  let select := [0; 1]%nat in
  cfg = [("plan", [[1; 1]%nat])]
  /\ Control.name_of select form = "plan"
  /\ Control.value_of select form = ""
  /\ controllerValue "plan" form = Some ""
  /\ Dom.attr_at [1%nat] "data-condition" form = Some "plan-pro"
  /\ Dom.attr_at [1%nat] "aria-hidden" (form_of (initConditionals form cfg)) = Some "true"
  /\ Dom.attr_at [1%nat] "aria-hidden" (form_of (toggleConditional select cfg form)) = Some "false".
Proof. vm_compute. repeat split. Qed.

End InitUpdateExample.

(** ** The OTP sub-flow: properties *)

Section OtpProperties.
Context `{Utils} `{Browser}.

(** C10.  On a form with no input named [otp], or whose [otp] input has no
    ancestor of class [form-field], [initOtpBehavior] returns the page as it
    found it: the same form (no element appended, no listener added), no
    interval set, no closure left behind. *)
Theorem initOtpBehavior_inert (fields : FieldList) (pg : Page) :
  toCamelCase "otp" = "otp" ->
  (Dom.querySelectorAll (Control.sel_input_named "otp") (form pg) = []
   \/ exists otpInput,
        Dom.querySelector (Control.sel_input_named "otp") (form pg) = Some otpInput
        /\ Dom.closest Control.sel_form_field otpInput (form pg) = None) ->
  initOtpBehavior fields pg = pg.
Proof.
  intros Hname Hcase. unfold initOtpBehavior, otpFieldName. rewrite Hname.
  destruct Hcase as [Hnone|(otpInput & Hq & Hc)].
  - unfold Dom.querySelector. rewrite Hnone. reflexivity.
  - rewrite Hq, Hc. reflexivity.
Qed.

Lemma value_of_set_display p q d f :
  Control.value_of p (Dom.update q (Dom.set_display d) f) = Control.value_of p f.
Proof.
  symmetry. apply (sim_value_of Rel.same_but_display).
  - apply same_but_display_keeps_control.
  - apply sim_update; intros e; repeat split.
Qed.

Lemma display_after_set p d f :
  is_Some (Dom.at_path p f) ->
  display <$> Dom.at_path p (Dom.update p (Dom.set_display d) f) = Some d.
Proof. intros [e He]. rewrite at_path_update_same, He. reflexivity. Qed.

Lemma at_path_set_display_is_Some p q d f :
  is_Some (Dom.at_path p f) -> is_Some (Dom.at_path p (Dom.update q (Dom.set_display d) f)).
Proof.
  intros [e He]. rewrite at_path_update, He. case_decide; simpl; eauto.
Qed.

(** The first submit listener touches nothing but the error counter. *)
Lemma onOtpSubmitCount_spec pg c :
  otp pg = Some c ->
  exists n, onOtpSubmitCount pg = Pg.set_otp (Some (Otp.set_otpErrorCount n c)) pg.
Proof.
  intros Hc. unfold onOtpSubmitCount, with_closure. rewrite Hc.
  destruct (negb (valid (form pg) (Otp.otpInput c))).
  - eexists. unfold otpErrorThreshold. cbn [Z.eqb negb andb]. reflexivity.
  - exists (Otp.otpErrorCount c). destruct pg, c. simpl in *. subst. reflexivity.
Qed.

(** C7.  A submit of the OTP form that passes constraint validation
    navigates to [/thank-you] when the OTP input holds [12345]; for any other
    value it shows the retry message, focuses the OTP input, leaves its value
    as it is and does not navigate: the location is not assigned and the
    default action of the event is prevented. *)
Theorem otp_submit_verifies (net : Pending) (pg : Page) (c : Otp.Closure) :
  otp pg = Some c ->
  listeners_for "submit" [] (form pg) = [OnOtpSubmitCount; OnOtpSubmitVerify] ->
  is_Some (Dom.at_path (Otp.otpRetry c) (form pg)) ->
  reportValidity (form (setDisplay (Otp.otpRetry c) "none" pg)) = true ->
  let pg' := userSubmits net pg in
  if String.eqb (Control.value_of (Otp.otpInput c) (form pg)) "12345"
  then href pg' = Some "/thank-you"
  else display <$> Dom.at_path (Otp.otpRetry c) (form pg') = Some "block"
       /\ focused pg' = Some (Otp.otpInput c)
       /\ Control.value_of (Otp.otpInput c) (form pg') = Control.value_of (Otp.otpInput c) (form pg)
       /\ href pg' = href pg
       /\ defaultPrevented pg' = true.
Proof.
  intros Hc Hl Hretry Hvalid pg'. subst pg'.
  unfold userSubmits, dispatch. cbn [Dom.inclusive_ancestors List.map List.concat form Pg.set_defaultPrevented].
  rewrite Hl. cbn [app fold_left run].
  destruct (onOtpSubmitCount_spec (Pg.set_defaultPrevented false pg) c Hc) as (n & ->).
  unfold onOtpSubmitVerify, with_closure.
  cbn [otp Pg.set_otp Pg.set_defaultPrevented Pg.preventDefault form setDisplay Pg.on_form
       Pg.set_form Otp.otpRetry Otp.otpInput Otp.set_otpErrorCount].
  unfold setDisplay, Pg.on_form, Pg.set_form in Hvalid. cbn [form] in Hvalid.
  rewrite Hvalid. cbn [negb].
  rewrite value_of_set_display.
  destruct (String.eqb (Control.value_of (Otp.otpInput c) (form pg)) "12345").
  - reflexivity.
  - cbn. rewrite !value_of_set_display.
    split; [|repeat split].
    apply display_after_set, at_path_set_display_is_Some. assumption.
Qed.

(** Once the timer has started, a resend click within the limit emits the
    event and changes nothing else but the counter: [startTimer] returns at
    its guard, because [timerStarted] is never set back to [false]. *)
Lemma resend_click_after_start pg c :
  otp pg = Some c -> Otp.timerStarted c = true ->
  (Otp.resendCount c + 1 <= resendLimit)%Z ->
  onResendClick pg =
  Pg.dispatchEvent "otp:resend" true
    (Pg.set_otp (Some (Otp.set_resendCount (Otp.resendCount c + 1) c)) pg).
Proof.
  intros Hc Hst Hlim. unfold onResendClick, with_closure, set_closure. rewrite Hc.
  cbn [Otp.resendCount Otp.set_resendCount].
  destruct (Z.ltb_spec resendLimit (Otp.resendCount c + 1)); [lia|].
  unfold startTimer. cbn [otp Pg.dispatchEvent Pg.set_otp Otp.timerStarted Otp.set_resendCount].
  rewrite Hst. reflexivity.
Qed.

End OtpProperties.

Section OtpExamples.
Import Sample.

Lemma initOtpBehavior_inert_witness :
  initOtpBehavior [] (Pg.initial (built [plan "Basic"; details "plan-pro"]))
  = Pg.initial (built [plan "Basic"; details "plan-pro"]).
Proof.
  apply initOtpBehavior_inert.
  - reflexivity.
  - left. vm_compute. reflexivity.
Defined.

(** The second case of C10: a hidden [otp] input is built without a wrapper,
    and [initOtpBehavior] leaves the page alone. *)
Example hidden_otp_is_inert :
  Dom.querySelector (Control.sel_input_named "otp") (built [hiddenOtp]) = Some [0%nat]
  /\ Dom.closest Control.sel_form_field [0%nat] (built [hiddenOtp]) = None
  /\ initOtpBehavior [] (Pg.initial (built [hiddenOtp])) = Pg.initial (built [hiddenOtp]).
Proof. vm_compute. repeat split. Qed.

(** On the form of [decorate] the sub-flow does attach: two elements are
    appended to the wrapper of the OTP input, and the form gets its two
    submit listeners. *)
Example otp_attaches :
  List.length (children (default (Node (Dom.blank "div") [])
                                 (Dom.get [3%nat] (built staticFields)))) = 2%nat
  /\ List.length (children (default (Node (Dom.blank "div") [])
                                    (Dom.get [3%nat] (form otpPage)))) = 4%nat
  /\ listeners_for "submit" [] (built staticFields) = []
  /\ listeners_for "submit" [] (form otpPage) = [OnOtpSubmitCount; OnOtpSubmitVerify]
  /\ listeners_for "click" resendButton (form otpPage) = [OnResendClick].
Proof. vm_compute. repeat split. Qed.

Lemma otp_submit_witness :
  let pg := filled "00000" in
  let pg' := userSubmits offline pg in
  display <$> Dom.at_path otpRetry (form pg') = Some "block"
  /\ focused pg' = Some otpInput
  /\ Control.value_of otpInput (form pg') = Control.value_of otpInput (form pg)
  /\ href pg' = href pg
  /\ defaultPrevented pg' = true.
Proof.
  pose proof (otp_submit_verifies offline (filled "00000")
                (default (Otp.mkClosure [] None [] [] [] [] [] [] 0 None false 0)
                         (otp (filled "00000")))
                ltac:(vm_compute; reflexivity) ltac:(vm_compute; reflexivity)
                ltac:(vm_compute; eauto) ltac:(vm_compute; reflexivity)) as W.
  vm_compute in W. vm_compute. exact W.
Defined.

(** The other branch of C7 on the same page. *)
Example otp_submit_success :
  href (userSubmits offline (filled "12345")) = Some "/thank-you".
Proof. vm_compute. reflexivity. Qed.

(** C5 at the failing input: the user types a ten-digit mobile number, the
    cooldown runs out (thirty runs of the interval) and the resend button
    shows; the first click on it emits [otp:resend], but no interval is set,
    the loader stays hidden and the button stays shown: the timer is not
    restarted and the affordance does not go back to loading. *)
Lemma resend_click_does_not_restart_timer :
  let started := userTypes offline mobile "9876543210" otpPage in
  let ready := intervalFiresTimes 30 0 started in
  let clicked := userClicks offline resendButton ready in
  (display_at loader started, display_at resendButton started,
   map_to_list (intervals started)) = (Some "flex", Some "none", [(0%nat, 29%Z)])
  /\ (display_at loader ready, display_at resendButton ready,
      map_to_list (intervals ready)) = (Some "none", Some "inline-flex", [])
  /\ (Otp.resendCount <$> otp ready, Otp.timerStarted <$> otp ready) = (Some 0%Z, Some true)
  /\ dispatched clicked = [("otp:resend", true)]
  /\ (Otp.resendCount <$> otp clicked, Otp.timerId <$> otp clicked) = (Some 1%Z, Some None)
  /\ (display_at loader clicked, display_at resendButton clicked,
      map_to_list (intervals clicked)) = (Some "none", Some "inline-flex", []).
Proof. vm_compute. repeat split. Qed.

End OtpExamples.

(** ** The submission pipeline: properties *)

Section Reenable.
Context `{Utils} `{Browser}.

Lemma has_disabled_setBoolAttr k b e :
  Control.has_disabled (Dom.setBoolAttr k b e) = Control.has_disabled e.
Proof. destruct b; reflexivity. Qed.

Lemma hasAttr_setBoolAttr k b e : Dom.hasAttr k (Dom.setBoolAttr k b e) = b.
Proof.
  destruct b; unfold Dom.hasAttr, Dom.setBoolAttr, Dom.setAttr, Dom.removeAttr; simpl.
  - rewrite lookup_insert_eq. reflexivity.
  - rewrite lookup_delete_eq. reflexivity.
Qed.

Lemma toggleForm_each_sets b g el : set_at b el (toggleForm_each b g el).
Proof.
  unfold toggleForm_each, set_at. destruct (Dom.at_path el g) as [control|] eqn:Hc.
  - destruct (Control.has_disabled control) eqn:Hd.
    + intros e. rewrite at_path_update_same, Hc. intros [= <-] _. apply hasAttr_setBoolAttr.
    + intros e He. rewrite Hc in He. injection He as <-. congruence.
  - intros e He. congruence.
Qed.

Lemma toggleForm_each_keeps b g el x : set_at b el g -> set_at b el (toggleForm_each b g x).
Proof.
  unfold toggleForm_each, set_at. intros Hset.
  destruct (Dom.at_path x g) as [control|] eqn:Hc; [|assumption].
  destruct (Control.has_disabled control); [|assumption].
  intros e. rewrite at_path_update. case_decide; [subst x|apply Hset].
  rewrite Hc. intros [= <-] _. apply hasAttr_setBoolAttr.
Qed.

Lemma toggleForm_fold_keeps b l g el :
  set_at b el g -> set_at b el (fold_left (toggleForm_each b) l g).
Proof.
  revert g. induction l as [|x l IH]; intros g Hset; simpl; [assumption|].
  apply IH, toggleForm_each_keeps, Hset.
Qed.

Lemma toggleForm_fold_sets b l g el :
  el ∈ l -> set_at b el (fold_left (toggleForm_each b) l g).
Proof.
  revert g. induction l as [|x l IH]; intros g Hel; [inversion Hel|]. simpl.
  apply elem_of_cons in Hel as [->|Hel].
  - apply toggleForm_fold_keeps, toggleForm_each_sets.
  - apply IH, Hel.
Qed.

Lemma toggleForm_each_sim b g x :
  Rel.sim (Rel.same_outside ["disabled"]) g (toggleForm_each b g x).
Proof.
  unfold toggleForm_each. destruct (Dom.at_path x g) as [control|];
    [|apply sim_refl, same_outside_refl].
  destruct (Control.has_disabled control); [|apply sim_refl, same_outside_refl].
  apply sim_update; [apply same_outside_refl|].
  intros e. apply same_outside_setBoolAttr. left.
Qed.

Lemma toggleForm_sim b g : Rel.sim (Rel.same_outside ["disabled"]) g (toggleForm g b).
Proof.
  unfold toggleForm. generalize (elements g) as l.
  intros l. assert (Hg : Rel.sim (Rel.same_outside ["disabled"]) g g)
    by apply sim_refl, same_outside_refl.
  revert Hg. generalize g at 2 4 as g'. induction l as [|x l IH]; intros g' Hg; simpl.
  - assumption.
  - apply IH. eapply sim_trans; [apply same_outside_trans|eassumption|].
    apply toggleForm_each_sim.
Qed.

Lemma elements_toggleForm b g : elements (toggleForm g b) = elements g.
Proof.
  unfold elements. symmetry.
  apply (sim_querySelectorAll (Rel.same_outside ["disabled"])).
  - apply respects_listed. not_in_list.
  - apply toggleForm_sim.
Qed.

(** After [toggleForm(form, b)] every listed control that has the property
    has [disabled] equal to [b]. *)
Lemma toggleForm_spec b g el e :
  el ∈ elements (toggleForm g b) -> Dom.at_path el (toggleForm g b) = Some e ->
  Control.has_disabled e = true -> Dom.hasAttr "disabled" e = b.
Proof.
  rewrite elements_toggleForm. intros Hel. unfold toggleForm.
  apply toggleForm_fold_sets. assumption.
Qed.

Lemma handleSubmit_ends_with_toggleForm net pg :
  form (handleSubmit net pg) = toggleForm (pending_form net (form pg)) false.
Proof.
  unfold handleSubmit, handleSubmit_try, pending_form.
  cbn [form Pg.on_form Pg.set_form].
  destruct (Field.given (Dom.attr_at [] "data-action" (toggleForm (form pg) true)))
    as [action|]; [|reflexivity].
  destruct (outcome net) as [reason|[|] [text|]]; cbn [form Pg.on_form Pg.set_form Pg.send];
    try reflexivity;
    destruct (Field.given (Dom.attr_at [] "data-confirmation" _)); reflexivity.
Qed.

(** C6.  Whatever the outcome of a submission attempt (no submit target, a
    rejected request, a response that is ok or not, with a body that reads
    or not) and whatever happens to the form while the request is pending,
    the form that [handleSubmit] leaves is the form as the attempt left it
    for the final step, the same but for [disabled]: it has the same
    controls, and every one of them has [disabled] false.  When what runs
    while the request is pending changes nothing of the form but [disabled],
    it is the submitted form, the same but for [disabled]. *)
Theorem handleSubmit_reenables (net : Pending) (pg : Page) :
  Rel.sim (Rel.same_outside ["disabled"])
          (pending_form net (form pg)) (form (handleSubmit net pg))
  /\ elements (form (handleSubmit net pg)) = elements (pending_form net (form pg))
  /\ Forall (fun el => disabled_at el (form (handleSubmit net pg)) = false)
            (elements (form (handleSubmit net pg)))
  /\ ((forall f, Rel.sim (Rel.same_outside ["disabled"]) f (meanwhile net f)) ->
      Rel.sim (Rel.same_outside ["disabled"]) (form pg) (form (handleSubmit net pg))).
Proof.
  rewrite (handleSubmit_ends_with_toggleForm net pg).
  set (g := pending_form net (form pg)).
  split; [apply toggleForm_sim|]. split; [apply elements_toggleForm|]. split.
  - apply Forall_forall. intros el Hel. unfold disabled_at.
    destruct (Dom.at_path el (toggleForm g false)) as [e|] eqn:He; [|reflexivity].
    destruct (Control.has_disabled e) eqn:Hd; [|reflexivity].
    rewrite (toggleForm_spec false g el e Hel He Hd). reflexivity.
  - intros Hquiet.
    eapply sim_trans; [apply same_outside_trans| |apply toggleForm_sim].
    subst g. unfold pending_form.
    destruct (Field.given (Dom.attr_at [] "data-action" (toggleForm (form pg) true)));
      [|apply toggleForm_sim].
    eapply sim_trans; [apply same_outside_trans|apply toggleForm_sim|apply Hquiet].
Qed.

End Reenable.

Section ReenableExample.
Import Sample.

(** The four outcomes on the sample form, submitted to [/submit]: while the
    request is pending every control is disabled; afterwards none is, an
    error is logged unless the response is ok, and only the ok response
    navigates. *)
Example handleSubmit_outcomes :
  let fields := [plan "Basic"; details "plan-pro";
                 Field.mk (Some "confirmation") None (Some "/done") None None None None
                          None None None None None None] in
  let ready := Pg.initial (form_of (buildForm fields (Some "/submit"))) in
  let missing := Pg.initial (form_of (buildForm fields None)) in
  let watch := fun f => f in
  let all_disabled f := forallb (fun el => disabled_at el f) (elements f) in
  let none_disabled f := forallb (fun el => negb (disabled_at el f)) (elements f) in
  let run pg out := handleSubmit (mkPending out watch) pg in
  all_disabled (toggleForm (form ready) true) = true
  /\ (none_disabled (form (run ready (Responded true None))),
      href (run ready (Responded true None)),
      console (run ready (Responded true None))) = (true, Some "/done", [])
  /\ (none_disabled (form (run ready (Responded false (Some "500")))),
      href (run ready (Responded false (Some "500"))),
      console (run ready (Responded false (Some "500")))) = (true, None, ["500"])
  /\ (none_disabled (form (run ready (Rejected "Failed to fetch"))),
      href (run ready (Rejected "Failed to fetch")),
      console (run ready (Rejected "Failed to fetch"))) = (true, None, ["Failed to fetch"])
  /\ (none_disabled (form (run missing (Responded true None))),
      href (run missing (Responded true None)),
      console (run missing (Responded true None)),
      requests (run missing (Responded true None)))
     = (true, None, ["Missing form action"], []).
Proof. vm_compute. repeat split. Qed.

End ReenableExample.

Section PayloadSet.
Context `{Browser}.

Lemma payload_set_ne k v (payload : gmap string string) name :
  k <> name -> payload_set k v payload !! name = payload !! name.
Proof.
  intros Hne. unfold payload_set. destruct (String.eqb k "__proto__"); [reflexivity|].
  apply lookup_insert_ne. exact Hne.
Qed.

Lemma payload_set_eq k v (payload : gmap string string) :
  k <> "__proto__" -> payload_set k v payload !! k = Some v.
Proof.
  intros Hk. unfold payload_set. apply String.eqb_neq in Hk. rewrite Hk.
  apply lookup_insert_eq.
Qed.

Lemma payload_set_proto v (payload : gmap string string) :
  payload_set "__proto__" v payload = payload.
Proof. reflexivity. Qed.

Lemma payload_truthy_own (payload : gmap string string) k s :
  payload !! k = Some s -> payload_truthy payload k = Field.given (Some s).
Proof. intros Hs. unfold payload_truthy. rewrite Hs. reflexivity. Qed.

Lemma payload_truthy_inherited (payload : gmap string string) k :
  payload !! k = None -> payload_truthy payload k = inherited k.
Proof. intros Hs. unfold payload_truthy. rewrite Hs. reflexivity. Qed.

End PayloadSet.

Section Payload.
Context `{Utils} `{Browser}.

Lemma generatePayload_each_provenance form payload field :
  field ∈ elements form ->
  (forall name v, payload !! name = Some v -> contributes form name) ->
  forall name v, generatePayload_each form payload field !! name = Some v ->
                 contributes form name.
Proof.
  intros Hel Hold name v. unfold generatePayload_each.
  destruct (Dom.at_path field form) as [e|] eqn:He; [|apply Hold].
  destruct (Str.truthy (Dom.prop "name" e) && negb (Dom.hasAttr "disabled" e)) eqn:Hn;
    [|apply Hold].
  apply andb_true_iff in Hn as [_ Hd]. apply negb_true_iff in Hd.
  assert (Hnew : forall w, payload_set (Dom.prop "name" e) w payload !! name = Some v ->
                 (Control.type_of e = "radio" \/ Control.type_of e = "checkbox" -> checked e = true) ->
                 contributes form name).
  { intros w Hl Hch. destruct (decide (Dom.prop "name" e = name)) as [Heq|Hne].
    - exists field, e. auto.
    - rewrite payload_set_ne in Hl by assumption. eapply Hold, Hl. }
  destruct (String.eqb (Control.type_of e) "radio") eqn:Hr.
  { destruct (checked e) eqn:Hc; [|apply Hold]. intros Hl. eapply Hnew; eauto. }
  destruct (String.eqb (Control.type_of e) "checkbox") eqn:Hcb.
  { destruct (checked e) eqn:Hc; [|apply Hold].
    destruct (payload_truthy payload (Dom.prop "name" e)); intros Hl; eapply Hnew; eauto. }
  intros Hl. eapply Hnew; [eassumption|].
  apply String.eqb_neq in Hr, Hcb. intros [?|?]; contradiction.
Qed.

Lemma generatePayload_provenance form name v :
  generatePayload form !! name = Some v -> contributes form name.
Proof.
  unfold generatePayload.
  assert (Hsub : forall field, field ∈ elements form -> field ∈ elements form) by auto.
  revert Hsub. generalize (elements form) at 1 3 as l.
  assert (Hempty : forall name v, (∅ : gmap string string) !! name = Some v -> contributes form name)
    by (intros ? ?; rewrite lookup_empty; discriminate).
  revert Hempty. generalize (∅ : gmap string string) as payload.
  intros payload Hold l. revert payload Hold name v.
  induction l as [|field l IH]; intros payload Hold name v Hsub; simpl.
  - apply Hold.
  - apply IH.
    + apply generatePayload_each_provenance; [apply Hsub; left|assumption].
    + intros f Hf. apply Hsub. right. assumption.
Qed.

(** The payload reads the tag, name, type, [disabled], checkedness and value
    of the controls, and nothing else. *)
Lemma sim_generatePayload K form g :
  "name" ∉ K -> "type" ∉ K -> "disabled" ∉ K ->
  Rel.sim (Rel.same_outside K) form g -> generatePayload form = generatePayload g.
Proof.
  intros Hn Ht Hd Hs. unfold generatePayload, elements.
  rewrite <- (sim_querySelectorAll _ Control.listed form g (respects_listed K Ht) Hs).
  generalize (∅ : gmap string string) as payload.
  induction (Dom.querySelectorAll Control.listed form) as [|field l IH]; intros payload;
    simpl; [reflexivity|].
  rewrite IH. f_equal. unfold generatePayload_each.
  rewrite <- (sim_value_of _ field form g (same_outside_keeps_control K Hd) Hs).
  destruct (sim_at_path _ field _ _ Hs) as [e e' He|]; [|reflexivity].
  rewrite <- (respects_type_of K Ht _ _ He).
  destruct He as (_&_&_&Hc&_&_&_&Ha).
  unfold Dom.prop, Dom.hasAttr. rewrite <- (Ha "name" Hn), <- (Ha "disabled" Hd), <- Hc.
  reflexivity.
Qed.

(** Whether it completes or throws, a pass of the engine writes nothing but
    its own attributes. *)
Lemma forEach_sim {A} K (body : A -> node -> Completion) l g :
  (forall x g, Rel.sim (Rel.same_outside K) g (form_of (body x g))) ->
  Rel.sim (Rel.same_outside K) g (form_of (forEach body l g)).
Proof.
  intros Hbody. revert g. induction l as [|x l IH]; intros g; simpl.
  - apply sim_refl, same_outside_refl.
  - pose proof (Hbody x g) as Hx. destruct (body x g) as [g'|g']; simpl in Hx.
    + eapply sim_trans; [apply same_outside_trans|eassumption|apply IH].
    + assumption.
Qed.

Lemma toggleConditional_each_sim target j g :
  Rel.sim (Rel.same_outside engine_keys) g (form_of (toggleConditional_each target j g)).
Proof.
  destruct (Dom.closest Control.sel_form_field j g) as [fj|] eqn:Hc.
  - destruct (toggle_each_spec target j g fj Hc) as (g' & -> & Hs & _).
    apply toggle_sim_engine. assumption.
  - unfold toggleConditional_each. rewrite Hc. apply sim_refl, same_outside_refl.
Qed.

Lemma init_step_sim met j g :
  Rel.sim (Rel.same_outside engine_keys) g (form_of (init_step met j g)).
Proof.
  destruct (Dom.closest Control.sel_form_field j g) as [fj|] eqn:Hc.
  - destruct (init_step_spec met j g fj Hc) as (g' & -> & Hs & _). assumption.
  - unfold init_step. rewrite Hc. apply sim_refl, same_outside_refl.
Qed.

Lemma toggleConditional_sim target cfg form :
  Rel.sim (Rel.same_outside engine_keys) form (form_of (toggleConditional target cfg form)).
Proof.
  unfold toggleConditional. destruct (cfg_get _ cfg) as [l|].
  - apply forEach_sim. intros. apply toggleConditional_each_sim.
  - apply sim_refl, same_outside_refl.
Qed.

Lemma initConditionals_sim form cfg :
  Rel.sim (Rel.same_outside engine_keys) form (form_of (initConditionals form cfg)).
Proof.
  unfold initConditionals. apply forEach_sim. intros [c l] g.
  rewrite init_each_is_loop. apply forEach_sim. intros. apply init_step_sim.
Qed.

(** C4 (amended).  Every key of the payload comes from a listed control that
    bears the name, is not disabled and, if it is a radio button or a
    checkbox, is checked; and neither pass of the conditional engine changes
    the payload: hiding a field does not disable its control, which keeps
    contributing its key. *)
Theorem payload_excludes_disabled_not_hidden (form : node) :
  (forall name v, generatePayload form !! name = Some v -> contributes form name)
  /\ (forall target cfg,
        generatePayload (form_of (toggleConditional target cfg form)) = generatePayload form)
  /\ (forall cfg,
        generatePayload (form_of (initConditionals form cfg)) = generatePayload form).
Proof.
  split; [apply generatePayload_provenance|]. split; intros; symmetry.
  - apply (sim_generatePayload engine_keys); try not_in_list. apply toggleConditional_sim.
  - apply (sim_generatePayload engine_keys); try not_in_list. apply initConditionals_sim.
Qed.

End Payload.

Section PayloadExample.
Import Sample.

Lemma payload_witness :
  (forall name v,
     generatePayload (built [plan "Basic"; details "plan-pro"]) !! name = Some v ->
     contributes (built [plan "Basic"; details "plan-pro"]) name)
  /\ (forall target cfg,
        generatePayload (form_of (toggleConditional target cfg
                                    (built [plan "Basic"; details "plan-pro"])))
        = generatePayload (built [plan "Basic"; details "plan-pro"]))
  /\ (forall cfg,
        generatePayload (form_of (initConditionals (built [plan "Basic"; details "plan-pro"]) cfg))
        = generatePayload (built [plan "Basic"; details "plan-pro"])).
Proof. exact (payload_excludes_disabled_not_hidden (built [plan "Basic"; details "plan-pro"])). Defined.

(** C4, as the spec words it, fails: with Basic checked the condition
    [plan-pro] of the field [details] is unmet and the field is hidden, but
    its control is not disabled and its key is in the payload. *)
Lemma hidden_field_in_payload :
  let form := built [plan "Basic"; details "plan-pro"] in
  conditionMet (Dom.attr_at [1%nat] "data-condition" form)
               (Control.value_of [0; 1; 0]%nat form) = false
  /\ Dom.attr_at [1%nat] "aria-hidden" form = Some "true"
  /\ disabled_at [1; 1]%nat form = false
  /\ generatePayload form !! "details" = Some "x"
  /\ map_to_list (generatePayload form) = [("details", "x"); ("plan", "Basic")].
Proof. vm_compute. repeat split. Qed.

End PayloadExample.

Section Checkboxes.
Context `{Utils} `{Browser}.

Lemma join_cons_cons sep a b l :
  Str.join sep (a :: b :: l) = a +:+ sep +:+ Str.join sep (b :: l).
Proof. reflexivity. Qed.

Lemma string_app_assoc (a b c : string) : (a +:+ b) +:+ c = a +:+ (b +:+ c).
Proof.
  induction a as [|x a IH]; [reflexivity|].
  change (String x ((a +:+ b) +:+ c) = String x (a +:+ (b +:+ c))). f_equal. exact IH.
Qed.

Lemma string_app_nonempty (a b : string) : b <> "" -> a +:+ b <> "".
Proof.
  intros Hb. destruct a as [|x a]; [exact Hb|].
  change (String x (a +:+ b) <> ""). discriminate.
Qed.

Lemma accumulate_snoc s v vs :
  accumulate (Some (s +:+ "," +:+ v)) vs = accumulate (Some s) (v :: vs).
Proof.
  destruct vs as [|w vs]; [reflexivity|]. unfold accumulate.
  rewrite !join_cons_cons, !string_app_assoc. reflexivity.
Qed.

Lemma each_other_name form payload field name :
  (forall e, Dom.at_path field form = Some e -> Dom.prop "name" e <> name) ->
  generatePayload_each form payload field !! name = payload !! name.
Proof.
  intros Hn. unfold generatePayload_each.
  destruct (Dom.at_path field form) as [e|]; [|reflexivity].
  specialize (Hn e eq_refl).
  assert (Hother : forall w, payload_set (Dom.prop "name" e) w payload !! name = payload !! name)
    by (intros w; apply payload_set_ne; assumption).
  repeat (match goal with |- context [if ?b then _ else _] => destruct b end);
    try reflexivity; try apply Hother.
  destruct (payload_truthy payload (Dom.prop "name" e)); apply Hother.
Qed.

Lemma each_checkbox form payload field e :
  Dom.at_path field form = Some e -> Dom.prop "name" e <> "" ->
  Control.type_of e = "checkbox" -> Dom.hasAttr "disabled" e = false ->
  generatePayload_each form payload field =
  if checked e then
    match payload_truthy payload (Dom.prop "name" e) with
    | Some prev =>
        payload_set (Dom.prop "name" e) (prev +:+ "," +:+ Control.value_of field form) payload
    | None => payload_set (Dom.prop "name" e) (Control.value_of field form) payload
    end
  else payload.
Proof.
  intros He Hn Hty Hd. unfold generatePayload_each. rewrite He, Hd, Hty.
  destruct (Dom.prop "name" e); [contradiction|]. reflexivity.
Qed.

Lemma checked_value_other form field name :
  (forall e, Dom.at_path field form = Some e -> Dom.prop "name" e <> name) ->
  checked_value name form field = None.
Proof.
  intros Hn. unfold checked_value.
  destruct (Dom.at_path field form) as [e|]; [|reflexivity].
  specialize (Hn e eq_refl). apply String.eqb_neq in Hn. rewrite Hn. reflexivity.
Qed.

Lemma checked_value_checkbox form field e :
  Dom.at_path field form = Some e -> Control.type_of e = "checkbox" ->
  checked_value (Dom.prop "name" e) form field =
  if checked e then Some (Control.value_of field form) else None.
Proof.
  intros He Hty. unfold checked_value. rewrite He, Hty, String.eqb_refl. reflexivity.
Qed.

Lemma payload_fold_group form name l payload :
  name <> "" -> name <> "__proto__" -> inherited name = None ->
  plain_group name form l ->
  (forall s, payload !! name = Some s -> s <> "") ->
  fold_left (generatePayload_each form) l payload !! name
  = accumulate (payload !! name) (checked_values name form l).
Proof.
  intros Hname Hproto Hinh. revert payload.
  induction l as [|field l IH]; intros payload Hg Hp.
  - simpl. destruct (payload !! name); reflexivity.
  - assert (Hg' : plain_group name form l).
    { intros f e Hf. apply Hg. right. assumption. }
    cbn [fold_left]. unfold checked_values. cbn [omap list_omap].
    fold (checked_values name form l).
    destruct (Dom.at_path field form) as [e|] eqn:He;
      [destruct (decide (Dom.prop "name" e = name)) as [Hn|Hn]|].
    + destruct (Hg field e) as (Hty & Hd & Hv); [left|assumption..|].
      subst name.
      rewrite (each_checkbox form payload field e He Hname Hty Hd).
      rewrite (checked_value_checkbox form field e He Hty).
      destruct (checked e) eqn:Hc; [|apply IH; assumption].
      specialize (Hv eq_refl).
      destruct (payload !! Dom.prop "name" e) as [s|] eqn:Hs.
      * pose proof (Hp s eq_refl) as Hsne.
        rewrite (payload_truthy_own _ _ _ Hs), (given_nonempty s Hsne).
        rewrite IH; [|assumption|].
        -- rewrite payload_set_eq by exact Hproto. apply accumulate_snoc.
        -- intros s'. rewrite payload_set_eq by exact Hproto. intros [= <-].
           apply string_app_nonempty, string_app_nonempty. assumption.
      * rewrite (payload_truthy_inherited _ _ Hs), Hinh. rewrite IH; [|assumption|].
        -- rewrite payload_set_eq by exact Hproto.
           destruct (checked_values _ form l); reflexivity.
        -- intros s'. rewrite payload_set_eq by exact Hproto. intros [= <-]. assumption.
    + assert (Hne : forall e', Dom.at_path field form = Some e' -> Dom.prop "name" e' <> name)
        by (intros e' He'; congruence).
      rewrite (checked_value_other form field name Hne).
      rewrite IH; [|assumption|].
      * rewrite (each_other_name form payload field name Hne). reflexivity.
      * intros s. rewrite (each_other_name form payload field name Hne). apply Hp.
    + assert (Hne : forall e', Dom.at_path field form = Some e' -> Dom.prop "name" e' <> name)
        by (intros e' He'; congruence).
      rewrite (checked_value_other form field name Hne).
      rewrite IH; [|assumption|].
      * rewrite (each_other_name form payload field name Hne). reflexivity.
      * intros s. rewrite (each_other_name form payload field name Hne). apply Hp.
Qed.

(** For a group of enabled checkboxes that alone bear their name, and whose
    checked values are not empty, the payload holds what the spec says,
    when the name is none of those an object inherits a property for
    ([constructor], [toString], [__proto__], ...): under such a name the
    first checked value is joined to the text of the inherited property,
    and an assignment to [__proto__] leaves no key at all. *)
Lemma checkbox_group_payload form name :
  name <> "" -> name <> "__proto__" -> inherited name = None ->
  plain_group name form (elements form) ->
  generatePayload form !! name = spec_checkbox_payload name form.
Proof.
  intros Hname Hproto Hinh Hg. unfold generatePayload, spec_checkbox_payload.
  rewrite (payload_fold_group form name (elements form) ∅ Hname Hproto Hinh Hg).
  - rewrite lookup_empty. unfold elements.
    destruct (checked_values name form _); reflexivity.
  - intros s. rewrite lookup_empty. discriminate.
Qed.

End Checkboxes.

Section CheckboxExamples.
Import Sample.

(** C9 at the failing input: of the group [tags], whose options are Red,
    the empty string and Blue, the last two are checked.  The comma-join of
    the checked values in DOM order is [,Blue]; the payload holds [Blue],
    because the accumulated empty string counts as no value yet. *)
Lemma checkbox_join_drops_empty_value :
  let form := check [0; 3; 0]%nat (check [0; 2; 0]%nat (built [tags])) in
  checked_values "tags" form (elements form) = [""; "Blue"]
  /\ spec_checkbox_payload "tags" form = Some ",Blue"
  /\ generatePayload form !! "tags" = Some "Blue".
Proof. vm_compute. repeat split. Qed.

(** The same group with all three checked, and with none. *)
Example checkbox_join_other_cases :
  let all := check [0; 3; 0]%nat (check [0; 2; 0]%nat (check [0; 1; 0]%nat (built [tags]))) in
  (spec_checkbox_payload "tags" all, generatePayload all !! "tags")
  = (Some "Red,,Blue", Some "Red,,Blue")
  /\ (spec_checkbox_payload "tags" (built [tags]), generatePayload (built [tags]) !! "tags")
     = (None, None).
Proof. vm_compute. repeat split. Qed.

(** Two names an object inherits a property for.  Of a checkbox group named
    [constructor] with A checked, the payload holds the text of the
    inherited function joined with A; a control named [__proto__] leaves no
    key in the payload. *)
Example inherited_names_in_payload :
  let group :=
    Field.mk (Some "checkbox") (Some "constructor") (Some "Kind") None None None
             None (Some "A,B") None None None None None in
  let renamed :=
    Dom.update [1; 1]%nat (Dom.setAttr "name" "__proto__")
               (built [plan "Basic"; details "plan-pro"]) in
  spec_checkbox_payload "constructor" (check [0; 1; 0]%nat (built [group])) = Some "A"
  /\ map_to_list (generatePayload (check [0; 1; 0]%nat (built [group])))
     = [("constructor", "function Object() { [native code] },A")]
  /\ Control.name_of [1; 1]%nat renamed = "__proto__"
  /\ map_to_list (generatePayload renamed) = [("plan", "Basic")].
Proof. vm_compute. repeat split. Qed.

Lemma checkbox_group_payload_witness :
  generatePayload (check [0; 3; 0]%nat (check [0; 1; 0]%nat (built [tags]))) !! "tags"
  = spec_checkbox_payload "tags" (check [0; 3; 0]%nat (check [0; 1; 0]%nat (built [tags]))).
Proof.
  apply checkbox_group_payload; [discriminate|discriminate|reflexivity|].
  intros field e Hf.
  set (l := elements _) in Hf. vm_compute in l. subst l.
  repeat (apply elem_of_cons in Hf as [->|Hf];
          [intros He; vm_compute in He; injection He as <-;
           vm_compute; intros; repeat split; (discriminate || reflexivity)|]).
  inversion Hf.
Defined.

End CheckboxExamples.

(** ** The field builder: properties *)

Section Help.
Context `{Utils} `{Browser}.

Lemma prop_setAttr_same k v e : Dom.prop k (Dom.setAttr k v e) = v.
Proof. unfold Dom.prop. simpl. rewrite lookup_insert_eq. reflexivity. Qed.

Lemma prop_setAttr_other k k' v e : k <> k' -> Dom.prop k' (Dom.setAttr k v e) = Dom.prop k' e.
Proof. intros. unfold Dom.prop. simpl. rewrite lookup_insert_ne by assumption. reflexivity. Qed.

Lemma prop_setBoolAttr_other k k' b e :
  k <> k' -> Dom.prop k' (Dom.setBoolAttr k b e) = Dom.prop k' e.
Proof.
  intros. destruct b; [apply prop_setAttr_other; assumption|].
  unfold Dom.prop. simpl. rewrite lookup_delete_ne by assumption. reflexivity.
Qed.

Lemma tagName_setBoolAttr k b e : tagName (Dom.setBoolAttr k b e) = tagName e.
Proof. destruct b; reflexivity. Qed.

Lemma nd_blank tag : no_describedby (Dom.blank tag).
Proof. apply lookup_empty. Qed.

Lemma nd_setAttr k v e :
  k <> "aria-describedby" -> no_describedby e -> no_describedby (Dom.setAttr k v e).
Proof. intros Hk He. unfold no_describedby. simpl. rewrite lookup_insert_ne; assumption. Qed.

Lemma nd_removeAttr k e : no_describedby e -> no_describedby (Dom.removeAttr k e).
Proof.
  intros He. unfold no_describedby. simpl.
  destruct (decide (k = "aria-describedby")) as [->|Hk].
  - apply lookup_delete_eq.
  - rewrite lookup_delete_ne; assumption.
Qed.

Lemma nd_setBoolAttr k b e :
  k <> "aria-describedby" -> no_describedby e -> no_describedby (Dom.setBoolAttr k b e).
Proof. intros. destruct b; [apply nd_setAttr|apply nd_removeAttr]; assumption. Qed.

Lemma nd_set_className c e : no_describedby e -> no_describedby (Dom.set_className c e).
Proof. trivial. Qed.

Lemma nd_set_value v e : no_describedby e -> no_describedby (Dom.set_value v e).
Proof. trivial. Qed.

Lemma nd_set_checked b e : no_describedby e -> no_describedby (Dom.set_checked b e).
Proof. trivial. Qed.

Lemma nd_set_textContent t e : no_describedby e -> no_describedby (Dom.set_textContent t e).
Proof. trivial. Qed.

Lemma nd_add_listener ev h e : no_describedby e -> no_describedby (Dom.add_listener ev h e).
Proof. trivial. Qed.

Ltac nd :=
  repeat first
    [ assumption
    | apply nd_blank
    | apply nd_set_className | apply nd_set_value | apply nd_set_checked
    | apply nd_set_textContent | apply nd_add_listener
    | apply nd_setAttr; [discriminate|]
    | apply nd_setBoolAttr; [discriminate|]
    | apply nd_removeAttr ].

Lemma nd_createElement tag c : no_describedby (createElement tag c).
Proof. unfold createElement. destruct (Field.given c); nd. Qed.

Lemma nd_buildLabel text type id required : no_describedby (buildLabel text type id required).
Proof.
  unfold buildLabel. pose proof (nd_createElement type None).
  destruct required, (Field.given id), (String.eqb type "label"); nd.
Qed.

Lemma nd_tagControlled controlled e : no_describedby e -> no_describedby (tagControlled controlled e).
Proof. intros. unfold tagControlled. destruct (Field.given controlled); nd. Qed.

Lemma nd_buildOptionInput field option : no_describedby (buildOptionInput field option).
Proof. unfold buildOptionInput. pose proof (nd_createElement "input" None). nd. Qed.

Lemma nd_optionEl v t : no_describedby (optionEl v t).
Proof. unfold optionEl. pose proof (nd_createElement "option" None). nd. Qed.

Lemma leaf_everywhere e : no_describedby e -> everywhere no_describedby (Node e []).
Proof. intros. constructor; [assumption|constructor]. Qed.

Lemma ev_writeHelpText text id : everywhere no_describedby (writeHelpText text id).
Proof.
  unfold writeHelpText. apply leaf_everywhere.
  pose proof (nd_createElement "p" (Some "field-help-text")). nd.
Qed.

Lemma ev_optionLabel input text required :
  no_describedby input -> everywhere no_describedby (optionLabel input text required).
Proof.
  intros Hin. unfold optionLabel. constructor; [apply nd_buildLabel|].
  constructor; [apply leaf_everywhere; assumption|].
  constructor; [apply leaf_everywhere, nd_createElement|constructor].
Qed.

Lemma ev_appended c n :
  everywhere no_describedby c -> everywhere no_describedby n ->
  everywhere no_describedby (appended c n).
Proof.
  intros Hc Hn. destruct Hn as [e ks He Hks]. unfold appended. simpl.
  constructor; [assumption|]. apply Forall_app. split; [assumption|].
  constructor; [assumption|constructor].
Qed.

Lemma last_appended c n : last (children (appended c n)) = Some c.
Proof. unfold appended. simpl. apply last_snoc. Qed.

Lemma ev_buildOptions field controlled fieldset :
  buildOptions field controlled = Some fieldset -> everywhere no_describedby fieldset.
Proof.
  unfold buildOptions. destruct (Field.given (Field.options field)) as [options|]; [|discriminate].
  intros [= <-]. constructor.
  - apply nd_tagControlled, nd_createElement.
  - constructor; [apply leaf_everywhere, nd_buildLabel|].
    apply Forall_forall. intros n Hn. apply list_elem_of_In, in_map_iff in Hn as (o & <- & _).
    apply ev_optionLabel, nd_buildOptionInput.
Qed.

Lemma ev_buildToggle field controlled : everywhere no_describedby (buildToggle field controlled).
Proof.
  unfold buildToggle. constructor.
  - apply nd_tagControlled, nd_createElement.
  - constructor; [|constructor]. apply ev_optionLabel.
    pose proof (nd_buildOptionInput (Field.with_type "checkbox" field)
                  (Str.or_else (Field.default field) "true")).
    nd.
Qed.

Lemma buildSelect_shape field controlled select :
  buildSelect field controlled = Some select ->
  everywhere no_describedby select
  /\ exists label control,
       children select = [label; control]
       /\ tagName (elem control) = "select"
       /\ Dom.prop "id" (elem control)
          = generateId (Str.or_else (Field.field field) "field") None.
Proof.
  unfold buildSelect. destruct (Field.given (Field.options field)) as [options|]; [|discriminate].
  intros [= <-]. split.
  - constructor; [apply nd_tagControlled, nd_createElement|].
    constructor; [apply leaf_everywhere, nd_buildLabel|].
    constructor; [|constructor].
    constructor.
    + pose proof (nd_createElement "select" None). nd.
    + apply Forall_app. split.
      * destruct (Field.given (Field.placeholder field)); [|constructor].
        constructor; [|constructor]. apply leaf_everywhere.
        pose proof (nd_optionEl "" s). nd.
      * destruct (isURL options); [constructor|].
        apply Forall_forall. intros n Hn.
        apply list_elem_of_In, in_map_iff in Hn as (o & <- & _).
        apply leaf_everywhere, nd_optionEl.
  - eexists _, _. split; [reflexivity|]. cbn [elem].
    split; [rewrite tagName_setBoolAttr; reflexivity|].
    rewrite prop_setBoolAttr_other, prop_setAttr_other, prop_setAttr_same by discriminate.
    reflexivity.
Qed.



Lemma prop_set_value k v e : Dom.prop k (Dom.set_value v e) = Dom.prop k e.
Proof. reflexivity. Qed.

Lemma prop_setAttr_if_other k k' o e :
  k <> k' -> Dom.prop k' (setAttr_if k o e) = Dom.prop k' e.
Proof.
  intros. unfold setAttr_if. destruct (Field.given o); [|reflexivity].
  apply prop_setAttr_other. assumption.
Qed.

Lemma buildInput_shape field :
  tagName (buildInput field) = "input"
  /\ Dom.prop "id" (buildInput field) = generateId (Str.or_else (Field.field field) "field") None.
Proof.
  unfold buildInput, set_value_if. split.
  - unfold setAttr_if.
    repeat (match goal with |- context [match ?o with Some _ => _ | None => _ end] =>
              destruct o end);
      cbn [tagName Dom.setAttr Dom.set_attrs Dom.set_value]; rewrite tagName_setBoolAttr; reflexivity.
  - rewrite !prop_setAttr_if_other by discriminate.
    destruct (Field.given (Field.default field));
      repeat first [ rewrite prop_set_value
                   | rewrite prop_setBoolAttr_other by discriminate
                   | rewrite prop_setAttr_other by discriminate
                   | rewrite prop_setAttr_same ];
      reflexivity.
Qed.

Lemma buildTextArea_shape field :
  tagName (buildTextArea field) = "textarea"
  /\ Dom.prop "id" (buildTextArea field) = generateId (Str.or_else (Field.field field) "field") None.
Proof.
  unfold buildTextArea, set_value_if. split.
  - unfold setAttr_if.
    repeat (match goal with |- context [match ?o with Some _ => _ | None => _ end] =>
              destruct o end);
      cbn [tagName Dom.setAttr Dom.set_attrs Dom.set_value]; rewrite tagName_setBoolAttr; reflexivity.
  - rewrite !prop_setAttr_if_other by discriminate.
    destruct (Field.given (Field.default field));
      repeat first [ rewrite prop_set_value
                   | rewrite prop_setBoolAttr_other by discriminate
                   | rewrite prop_setAttr_other by discriminate
                   | rewrite prop_setAttr_same ];
      reflexivity.
Qed.

Lemma writeHelpText_id text id : Dom.prop "id" (elem (writeHelpText text id)) = id +:+ "-help".
Proof. unfold writeHelpText. cbn [elem]. apply prop_setAttr_same. Qed.

(** The comparisons of a known type with the literals of [buildField]. *)
Ltac known_type :=
  repeat match goal with
         | |- context [Field.equals (Some ?a) ?b] =>
             let v := eval vm_compute in (Field.equals (Some a) b) in
             change (Field.equals (Some a) b) with v
         end;
  cbn [orb].

Lemma group_with_help field h fieldset :
  Field.given (Field.help field) = Some h ->
  buildOptions field (Field.given (Field.conditional field)) = Some fieldset ->
  let help := writeHelpText h (generateId (Str.or_else (Field.field field) "field") None) in
  last (children (appended help fieldset)) = Some help
  /\ everywhere no_describedby (appended help fieldset).
Proof.
  intros Hh Hb help. split; [apply last_appended|].
  apply ev_appended; [apply ev_writeHelpText|eapply ev_buildOptions; eassumption].
Qed.

(** C8 (amended).  For a field descriptor with a non-empty help text, the
    help paragraph has the id of the field followed by [-help].  For a
    textarea it stands before the control, and for a default input right
    after it; these two controls reference it through [aria-describedby].
    For a radio or checkbox group and a select (with options) and for a
    toggle it is the last child of the field's container, after the
    controls, and no element of the field references it. *)
Theorem help_text_placement (field : Field.t) (h : string) :
  Field.given (Field.help field) = Some h ->
  let id := generateId (Str.or_else (Field.field field) "field") None in
  let help := writeHelpText h id in
  let type := Field.type field in
  Dom.prop "id" (elem help) = id +:+ "-help"
  /\ (Field.equals type "radio" || Field.equals type "checkbox" = true ->
      is_Some (Field.given (Field.options field)) ->
      last (children (buildField field)) = Some help
      /\ everywhere no_describedby (buildField field))
  /\ (Field.equals type "toggle" = true ->
      last (children (buildField field)) = Some help
      /\ everywhere no_describedby (buildField field))
  /\ (Field.equals type "select" = true ->
      is_Some (Field.given (Field.options field)) ->
      (exists label select,
         children (buildField field) = [label; select; help]
         /\ tagName (elem select) = "select" /\ Dom.prop "id" (elem select) = id)
      /\ everywhere no_describedby (buildField field))
  /\ (Field.equals type "textarea" = true ->
      exists label control,
        children (buildField field) = [label; help; Node control []]
        /\ tagName control = "textarea" /\ Dom.prop "id" control = id
        /\ Dom.getAttr "aria-describedby" control = Some (id +:+ "-help"))
  /\ (Forall (fun t => Field.equals type t = false) special_types ->
      exists label control,
        children (buildField field) = [label; Node control []; help]
        /\ tagName control = "input" /\ Dom.prop "id" control = id
        /\ Dom.getAttr "aria-describedby" control = Some (id +:+ "-help")).
Proof.
  intros Hh id help type. split; [apply writeHelpText_id|].
  split; [|split; [|split; [|split]]].
  - intros Hty [options Hopt].
    assert (Hgroup : buildField field
                     = match buildOptions field (Field.given (Field.conditional field)) with
                       | Some fieldset => appended help fieldset
                       | None => Node (createElement "div" None) []
                       end).
    { apply orb_true_iff in Hty as [Hty|Hty]; apply equals_true in Hty;
        unfold buildField; fold type; rewrite Hty, Hh; known_type;
        destruct (buildOptions _ _); reflexivity. }
    rewrite Hgroup.
    destruct (buildOptions field (Field.given (Field.conditional field))) as [fieldset|] eqn:Hb.
    + apply group_with_help; assumption.
    + unfold buildOptions in Hb. rewrite Hopt in Hb. discriminate.
  - intros Hty. apply equals_true in Hty.
    unfold buildField. fold type. rewrite Hty, Hh. known_type. cbv iota. fold id. fold help.
    split; [apply last_appended|].
    apply ev_appended; [apply ev_writeHelpText|apply ev_buildToggle].
  - intros Hty [options Hopt]. apply equals_true in Hty.
    assert (Hb : exists select, buildSelect field (Field.given (Field.conditional field)) = Some select).
    { unfold buildSelect. rewrite Hopt. eauto. }
    destruct Hb as (select & Hb).
    destruct (buildSelect_shape _ _ _ Hb) as (Hev & label & control & Hch & Htag & Hid).
    unfold buildField. fold type. rewrite Hty, Hh, Hb. known_type. cbv iota. fold id. fold help.
    split.
    + exists label, control. unfold appended. cbn [children]. rewrite Hch. auto.
    + apply ev_appended; [apply ev_writeHelpText|assumption].
  - intros Hty. apply equals_true in Hty.
    unfold buildField. fold type. rewrite Hty, Hh. known_type. cbv iota.
    cbn [fmap option_fmap option_map]. fold id. fold help.
    eexists _, _. split; [reflexivity|].
    destruct (buildTextArea_shape field) as [Htag Hid].
    split; [exact Htag|].
    split; [rewrite prop_setAttr_other by discriminate; exact Hid|].
    unfold Dom.getAttr. cbn [attrs Dom.setAttr Dom.set_attrs]. rewrite lookup_insert_eq.
    f_equal; try apply writeHelpText_id.
  - intros Hty. unfold special_types in Hty.
    repeat (apply Forall_cons in Hty as [? Hty]).
    unfold buildField. fold type.
    repeat match goal with Hf : Field.equals type _ = false |- _ => rewrite Hf; clear Hf end.
    rewrite Hh. cbn [orb]. cbv iota.
    cbn [fmap option_fmap option_map]. fold id. fold help.
    eexists _, _. split; [reflexivity|].
    destruct (buildInput_shape field) as [Htag Hid].
    split; [exact Htag|].
    split; [rewrite prop_setAttr_other by discriminate; exact Hid|].
    unfold Dom.getAttr. cbn [attrs Dom.setAttr Dom.set_attrs]. rewrite lookup_insert_eq.
    f_equal; try apply writeHelpText_id.
Qed.

End Help.

Section HelpExamples.
Import Sample.

Lemma help_text_witness :
  Field.given (Field.help (helped "text")) = Some "How to reach you"
  /\ exists label control,
       children (buildField (helped "text"))
       = [label; Node control []; writeHelpText "How to reach you" (generateId "contact" None)]
       /\ tagName control = "input"
       /\ Dom.prop "id" control = generateId "contact" None
       /\ Dom.getAttr "aria-describedby" control = Some (generateId "contact" None +:+ "-help").
Proof.
  split; [reflexivity|].
  pose proof (help_text_placement (helped "text") "How to reach you" eq_refl)
    as (_ & _ & _ & _ & _ & W).
  apply W. unfold special_types. repeat constructor.
Defined.

(** C8, as the spec words it, fails for every kind of control but the
    textarea: the help paragraph of a default input stands after the input,
    and that of a radio group, a toggle and a select stands after the
    controls and is referenced by none of them. *)
Lemma help_text_counterexample :
  (child_tags (buildField (helped "text")), describing (buildField (helped "text")))
  = (["label"; "input"; "p"], [[1%nat]])
  /\ (child_tags (buildField (helped "radio")), describing (buildField (helped "radio")))
     = (["legend"; "label"; "label"; "p"], [])
  /\ (child_tags (buildField (helped "toggle")), describing (buildField (helped "toggle")))
     = (["label"; "p"], [])
  /\ (child_tags (buildField (helped "select")), describing (buildField (helped "select")))
     = (["label"; "select"; "p"], [])
  /\ (child_tags (buildField (helped "textarea")), describing (buildField (helped "textarea")))
     = (["label"; "p"; "textarea"], [[2%nat]]).
Proof. vm_compute. repeat split. Qed.

End HelpExamples.

Section ResendExample.
Import Sample.

Lemma resend_click_after_start_witness :
  let ready := intervalFiresTimes 30 0 (userTypes offline mobile "9876543210" otpPage) in
  dispatched (onResendClick ready) = [("otp:resend", true)]
  /\ intervals (onResendClick ready) = intervals ready
  /\ form (onResendClick ready) = form ready.
Proof.
  pose proof (resend_click_after_start
                (intervalFiresTimes 30 0 (userTypes offline mobile "9876543210" otpPage))
                (default (Otp.mkClosure [] None [] [] [] [] [] [] 0 None false 0)
                   (otp (intervalFiresTimes 30 0
                           (userTypes offline mobile "9876543210" otpPage))))
                ltac:(vm_compute; reflexivity) ltac:(vm_compute; reflexivity)
                ltac:(vm_compute; discriminate)) as W.
  cbv zeta. rewrite W. vm_compute. repeat split.
Defined.

End ResendExample.

(** ** More facts about the DOM *)

Lemma everywhere_elem P n : everywhere P n -> P (elem n).
Proof. intros [e ks He _]. exact He. Qed.

Lemma everywhere_children P n : everywhere P n -> Forall (everywhere P) (children n).
Proof. intros [e ks _ Hks]. exact Hks. Qed.

Lemma everywhere_at_path P p n e :
  everywhere P n -> Dom.at_path p n = Some e -> P e.
Proof.
  revert n. induction p as [|i p IH]; intros n Hn.
  - rewrite at_path_nil. intros [= <-]. apply everywhere_elem, Hn.
  - rewrite at_path_cons. destruct (children n !! i) as [c|] eqn:Hc; [|discriminate].
    apply IH. apply everywhere_children in Hn.
    eapply Forall_lookup_1; eassumption.
Qed.

(** The listed descendants of a node are its elements at the paths that
    are not empty. *)
Lemma elem_of_kids_descendants i ks p e :
  (forall c, c ∈ ks -> forall q e', (q, e') ∈ Dom.descendants c <-> q <> [] /\ Dom.at_path q c = Some e') ->
  (p, e) ∈ kids_descendants i ks <->
  exists k q c, p = (i + k)%nat :: q /\ ks !! k = Some c /\ Dom.at_path q c = Some e.
Proof.
  revert i. induction ks as [|c ks IH]; intros i Hks; simpl.
  - split; [intros Hin; inversion Hin|intros (k & q & c & _ & Hk & _); discriminate].
  - rewrite elem_of_cons, elem_of_app, list_elem_of_In, in_map_iff.
    rewrite IH by (intros; apply Hks; right; assumption).
    split.
    + intros [Heq|[((q & e') & Hu & Hin)|(k & q & c' & -> & Hk & Hq)]].
      * injection Heq as -> ->. exists 0%nat, [], c. rewrite Nat.add_0_r. auto.
      * unfold Dom.under in Hu. simpl in Hu. injection Hu as <- <-.
        apply list_elem_of_In, Hks in Hin as [_ Hq]; [|left].
        exists 0%nat, q, c. rewrite Nat.add_0_r. auto.
      * exists (S k), q, c'. rewrite Nat.add_succ_r. auto.
    + intros (k & q & c' & -> & Hk & Hq). destruct k as [|k]; simpl in Hk.
      * injection Hk as <-. rewrite Nat.add_0_r. destruct q as [|j q].
        -- left. rewrite at_path_nil in Hq. injection Hq as <-. reflexivity.
        -- right. left. exists (j :: q, e). split; [reflexivity|].
           apply list_elem_of_In, Hks; [left|]. split; [discriminate|assumption].
      * right. right. exists k, q, c'. rewrite Nat.add_succ_r. auto.
Qed.

Lemma elem_of_descendants n p e :
  (p, e) ∈ Dom.descendants n <-> p <> [] /\ Dom.at_path p n = Some e.
Proof.
  revert p e. induction n as [e0 ks IH] using node_ind'. intros p e.
  rewrite descendants_unfold, elem_of_kids_descendants.
  - split.
    + intros (k & q & c & -> & Hk & Hq). split; [discriminate|].
      rewrite at_path_cons. simpl. rewrite Hk. assumption.
    + intros [Hp Hq]. destruct p as [|k q]; [contradiction|].
      rewrite at_path_cons in Hq. simpl in Hq.
      destruct (ks !! k) as [c|] eqn:Hk; [|discriminate]. exists k, q, c. auto.
  - intros c Hc. rewrite Forall_forall in IH. apply IH. assumption.
Qed.

Lemma elem_of_querySelectorAll sel n p :
  p ∈ Dom.querySelectorAll sel n <->
  p <> [] /\ exists e, Dom.at_path p n = Some e /\ sel e = true.
Proof.
  unfold Dom.querySelectorAll. rewrite list_elem_of_fmap. split.
  - intros ((q & e) & -> & Hin). apply list_elem_of_In, filter_In in Hin as [Hin Hsel].
    apply list_elem_of_In, elem_of_descendants in Hin as [Hq He]. simpl. eauto.
  - intros (Hp & e & He & Hsel). exists (p, e). split; [reflexivity|].
    apply list_elem_of_In, filter_In. split; [|assumption].
    apply list_elem_of_In, elem_of_descendants. auto.
Qed.

Lemma kids_descendants_paths i c ks :
  fst <$> kids_descendants i (c :: ks) =
  ([i] :: (cons i <$> (fst <$> Dom.descendants c))) ++ (fst <$> kids_descendants (S i) ks).
Proof.
  assert (Hmap : forall l : list (path * Element),
            fst <$> List.map (Dom.under i) l = cons i <$> (fst <$> l)).
  { induction l as [|pe l IH]; [reflexivity|].
    cbn [List.map]. rewrite !fmap_cons, IH. reflexivity. }
  cbn [kids_descendants]. rewrite fmap_app, fmap_cons, Hmap. reflexivity.
Qed.

Lemma kids_descendants_head i ks p :
  p ∈ fst <$> kids_descendants i ks -> exists j q, p = j :: q /\ (i <= j)%nat.
Proof.
  revert i. induction ks as [|c ks IH]; intros i.
  - simpl. intros Hin. inversion Hin.
  - rewrite kids_descendants_paths, elem_of_app, elem_of_cons, list_elem_of_fmap.
    intros [[->|(q & -> & _)]|Hin].
    + exists i, []. auto.
    + exists i, q. auto.
    + apply IH in Hin as (j & q & -> & Hle). exists j, q. split; [reflexivity|lia].
Qed.

Lemma NoDup_kids_descendants i ks :
  Forall (fun c => NoDup (fst <$> Dom.descendants c)) ks ->
  NoDup (fst <$> kids_descendants i ks).
Proof.
  revert i. induction ks as [|c ks IH]; intros i Hks.
  - constructor.
  - apply Forall_cons in Hks as [Hc Hks]. rewrite kids_descendants_paths.
    apply NoDup_app. split; [|split].
    + constructor.
      * rewrite list_elem_of_fmap. intros (q & Heq & Hq). injection Heq as <-.
        apply list_elem_of_fmap in Hq as ((q & e) & Heq & Hq). simpl in Heq. subst q.
        apply elem_of_descendants in Hq as [Hq _]. contradiction.
      * apply NoDup_fmap_2; [|assumption]. intros x y [= ->]. reflexivity.
    + intros p Hp Hin. apply kids_descendants_head in Hin as (j & q & -> & Hle).
      apply elem_of_cons in Hp as [Hp|Hp].
      * injection Hp as -> _. lia.
      * apply list_elem_of_fmap in Hp as (q' & Heq & _). injection Heq as -> _. lia.
    + apply IH. assumption.
Qed.

(** No two listed descendants share a path: a query lists an element once. *)
Lemma NoDup_descendants n : NoDup (fst <$> Dom.descendants n).
Proof.
  induction n as [e ks IH] using node_ind'.
  rewrite descendants_unfold. apply NoDup_kids_descendants. assumption.
Qed.

Lemma NoDup_querySelectorAll sel n : NoDup (Dom.querySelectorAll sel n).
Proof.
  unfold Dom.querySelectorAll.
  apply (sublist_NoDup _ (fst <$> Dom.descendants n)); [apply NoDup_descendants|].
  apply fmap_sublist.
  induction (Dom.descendants n) as [|pe l IH]; simpl; [apply sublist_nil|].
  destruct (sel (snd pe)); [apply sublist_skip|apply sublist_cons]; assumption.
Qed.

(** *** The nearest matching ancestor, one level at a time *)

Lemma find_app_bool {A} (f : A -> bool) l1 l2 :
  List.find f (l1 ++ l2) =
  match List.find f l1 with Some x => Some x | None => List.find f l2 end.
Proof.
  induction l1 as [|x l1 IH]; simpl; [reflexivity|]. destruct (f x); [reflexivity|assumption].
Qed.

Lemma find_map_bool {A B} (f : B -> bool) (g : A -> B) l :
  List.find f (List.map g l) = g <$> List.find (fun x => f (g x)) l.
Proof.
  induction l as [|x l IH]; simpl; [reflexivity|]. destruct (f (g x)); [reflexivity|assumption].
Qed.

Lemma find_ext_bool {A} (f g : A -> bool) l :
  (forall x, f x = g x) -> List.find f l = List.find g l.
Proof.
  intros Hfg. induction l as [|x l IH]; simpl; [reflexivity|]. rewrite Hfg, IH. reflexivity.
Qed.

Lemma find_none_bool {A} (f : A -> bool) l :
  (forall x, f x = false) -> List.find f l = None.
Proof.
  intros Hf. induction l as [|x l IH]; simpl; [reflexivity|]. rewrite Hf. assumption.
Qed.

Lemma closest_cons sel i q n :
  Dom.closest sel (i :: q) n =
  match match children n !! i with
        | Some c => Dom.closest sel q c
        | None => None
        end with
  | Some r => Some (i :: r)
  | None => if sel (elem n) then Some [] else None
  end.
Proof.
  unfold Dom.closest. cbn [Dom.inclusive_ancestors].
  rewrite find_app_bool, find_map_bool. cbn [List.find]. rewrite at_path_nil.
  destruct (children n !! i) as [c|] eqn:Hc.
  - rewrite (find_ext_bool _ (fun r => match Dom.at_path r c with
                                        | Some e => sel e
                                        | None => false
                                        end))
      by (intros r; rewrite at_path_cons, Hc; reflexivity).
    destruct (List.find _ (Dom.inclusive_ancestors q)); reflexivity.
  - rewrite find_none_bool; [reflexivity|].
    intros r. rewrite at_path_cons, Hc. reflexivity.
Qed.

Lemma closest_nil sel n :
  Dom.closest sel [] n = if sel (elem n) then Some [] else None.
Proof. reflexivity. Qed.

(** Where no element matches, there is no matching ancestor. *)
Lemma closest_none sel q n :
  everywhere (fun e => sel e = false) n -> Dom.closest sel q n = None.
Proof.
  revert n. induction q as [|i q IH]; intros n Hn.
  - rewrite closest_nil, (everywhere_elem _ _ Hn). reflexivity.
  - rewrite closest_cons, (everywhere_elem _ _ Hn).
    destruct (children n !! i) as [c|] eqn:Hc; [|reflexivity].
    rewrite IH; [reflexivity|].
    eapply Forall_lookup_1; [apply everywhere_children, Hn|eassumption].
Qed.

(** From anywhere below a matching element under which nothing matches, the
    nearest matching ancestor is that element. *)
Lemma closest_wrapper sel q c :
  sel (elem c) = true -> Forall (everywhere (fun e => sel e = false)) (children c) ->
  Dom.closest sel q c = Some [].
Proof.
  intros Hc Hks. destruct q as [|i q].
  - rewrite closest_nil, Hc. reflexivity.
  - rewrite closest_cons, Hc. destruct (children c !! i) as [c'|] eqn:Hi; [|reflexivity].
    rewrite closest_none; [reflexivity|]. eapply Forall_lookup_1; eassumption.
Qed.

Lemma closest_below_child sel k q n c :
  children n !! k = Some c ->
  sel (elem c) = true -> Forall (everywhere (fun e => sel e = false)) (children c) ->
  Dom.closest sel (k :: q) n = Some [k].
Proof.
  intros Hk Hc Hks. rewrite closest_cons, Hk, (closest_wrapper sel q c Hc Hks). reflexivity.
Qed.

(** ** The field builder: wrappers and what is below them *)

Section Wrappers.
Context `{Utils} `{Browser}.

Lemma inner_blank tag : inner (Dom.blank tag).
Proof. split; reflexivity. Qed.

Lemma inner_setAttr k v e : k <> "data-controller" -> inner e -> inner (Dom.setAttr k v e).
Proof.
  intros Hk [Hc Hf]. split; [|exact Hf].
  unfold Control.sel_controlled, Dom.hasAttr in *. simpl.
  rewrite lookup_insert_ne by assumption. exact Hc.
Qed.

Lemma inner_removeAttr k e : inner e -> inner (Dom.removeAttr k e).
Proof.
  intros [Hc Hf]. split; [|exact Hf].
  unfold Control.sel_controlled, Dom.hasAttr in *. simpl.
  destruct (decide (k = "data-controller")) as [->|Hk].
  - rewrite lookup_delete_eq. reflexivity.
  - rewrite lookup_delete_ne by assumption. exact Hc.
Qed.

Lemma inner_setBoolAttr k b e :
  k <> "data-controller" -> inner e -> inner (Dom.setBoolAttr k b e).
Proof. intros. destruct b; [apply inner_setAttr|apply inner_removeAttr]; assumption. Qed.

Lemma inner_set_value v e : inner e -> inner (Dom.set_value v e).
Proof. trivial. Qed.

Lemma inner_set_checked b e : inner e -> inner (Dom.set_checked b e).
Proof. trivial. Qed.

Lemma inner_set_textContent t e : inner e -> inner (Dom.set_textContent t e).
Proof. trivial. Qed.

Lemma inner_add_listener ev h e : inner e -> inner (Dom.add_listener ev h e).
Proof. trivial. Qed.

Lemma inner_set_className c e :
  bool_decide ("form-field" ∈ Str.split " " c) = false -> inner e -> inner (Dom.set_className c e).
Proof. intros Hc [Ha _]. split; assumption. Qed.

Lemma inner_setAttr_if k o e : k <> "data-controller" -> inner e -> inner (setAttr_if k o e).
Proof.
  intros. unfold setAttr_if. destruct (Field.given o); [apply inner_setAttr|]; assumption.
Qed.

Lemma inner_set_value_if o e : inner e -> inner (set_value_if o e).
Proof. intros. unfold set_value_if. destruct (Field.given o); assumption. Qed.

Ltac inn :=
  repeat first
    [ assumption
    | apply inner_blank
    | apply inner_set_value | apply inner_set_checked
    | apply inner_set_textContent | apply inner_add_listener
    | apply inner_set_value_if
    | apply inner_set_className; [reflexivity|]
    | apply inner_setAttr; [discriminate|]
    | apply inner_setAttr_if; [discriminate|]
    | apply inner_setBoolAttr; [discriminate|]
    | apply inner_removeAttr ].

Lemma inner_createElement tag : inner (createElement tag None).
Proof. apply inner_blank. Qed.

Lemma inner_buildLabel text type id required : inner (buildLabel text type id required).
Proof.
  unfold buildLabel. pose proof (inner_createElement type).
  destruct required, (Field.given id), (String.eqb type "label"); inn.
Qed.

Lemma inner_buildInput field : inner (buildInput field).
Proof. unfold buildInput. pose proof (inner_createElement "input"). inn. Qed.

Lemma inner_buildTextArea field : inner (buildTextArea field).
Proof. unfold buildTextArea. pose proof (inner_createElement "textarea"). inn. Qed.

Lemma inner_buildOptionInput field option : inner (buildOptionInput field option).
Proof. unfold buildOptionInput. pose proof (inner_createElement "input"). inn. Qed.

Lemma inner_optionEl v t : inner (optionEl v t).
Proof. unfold optionEl. pose proof (inner_createElement "option"). inn. Qed.

Lemma inner_buildButton field : inner (buildButton field).
Proof.
  unfold buildButton. pose proof (inner_createElement "button").
  destruct (Field.equals (Field.type field) "reset"); inn.
Qed.

Lemma inner_leaf e : inner e -> everywhere inner (Node e []).
Proof. intros. constructor; [assumption|constructor]. Qed.

Lemma inner_writeHelpText text id : everywhere inner (writeHelpText text id).
Proof.
  unfold writeHelpText. apply inner_leaf.
  apply inner_setAttr; [discriminate|]. apply inner_set_textContent. split; reflexivity.
Qed.

Lemma inner_optionLabel input text required :
  inner input -> everywhere inner (optionLabel input text required).
Proof.
  intros Hin. unfold optionLabel. constructor; [apply inner_buildLabel|].
  constructor; [apply inner_leaf; assumption|].
  constructor; [apply inner_leaf, inner_createElement|constructor].
Qed.

Lemma split_form_field r :
  Str.split " " ("form-field " +:+ r) = "form-field" :: Str.split " " r.
Proof. reflexivity. Qed.

(** A wrapper created with the class [form-field ...] is a field wrapper, and
    stays one when it is tagged as controlled. *)
Lemma wrapper_is_form_field tag r controlled :
  Control.sel_form_field (tagControlled controlled (createElement tag (Some ("form-field " +:+ r))))
  = true.
Proof.
  assert (Hc : className (tagControlled controlled
                            (createElement tag (Some ("form-field " +:+ r))))
               = "form-field " +:+ r).
  { unfold tagControlled. destruct (Field.given controlled); reflexivity. }
  unfold Control.sel_form_field, Dom.has_class. rewrite Hc, split_form_field.
  apply bool_decide_eq_true. left.
Qed.

Lemma untagged_field_node e ks :
  Control.sel_controlled e = false -> Forall (everywhere inner) ks -> field_node (Node e ks).
Proof. intros He Hks. split; [simpl; congruence|exact Hks]. Qed.

Lemma wrapper_field_node tag r controlled ks :
  Forall (everywhere inner) ks ->
  field_node (Node (tagControlled controlled (createElement tag (Some ("form-field " +:+ r)))) ks).
Proof. intros Hks. split; [intros _; apply wrapper_is_form_field|exact Hks]. Qed.

Lemma field_node_appended c n :
  everywhere inner c -> field_node n -> field_node (appended c n).
Proof.
  intros Hc [Hroot Hks]. split; [exact Hroot|]. unfold appended. simpl.
  apply Forall_app. split; [assumption|]. constructor; [assumption|constructor].
Qed.

Lemma field_node_insertAfterFirst c n :
  everywhere inner c -> field_node n -> field_node (insertAfterFirst c n).
Proof.
  intros Hc [Hroot Hks]. unfold insertAfterFirst.
  destruct n as [e [|first rest]]; simpl in *.
  - split; [exact Hroot|]. constructor; [assumption|constructor].
  - split; [exact Hroot|]. apply Forall_cons in Hks as [Hf Hr].
    constructor; [assumption|]. constructor; assumption.
Qed.

Lemma field_node_buildOptions field controlled fieldset :
  buildOptions field controlled = Some fieldset -> field_node fieldset.
Proof.
  unfold buildOptions. destruct (Field.given (Field.options field)) as [options|]; [|discriminate].
  intros [= <-]. apply wrapper_field_node.
  constructor; [apply inner_leaf, inner_buildLabel|].
  apply Forall_forall. intros n Hn. apply list_elem_of_In, in_map_iff in Hn as (o & <- & _).
  apply inner_optionLabel, inner_buildOptionInput.
Qed.

Lemma field_node_buildSelect field controlled select :
  buildSelect field controlled = Some select -> field_node select.
Proof.
  unfold buildSelect. destruct (Field.given (Field.options field)) as [options|]; [|discriminate].
  intros [= <-]. apply wrapper_field_node.
  constructor; [apply inner_leaf, inner_buildLabel|].
  constructor; [|constructor]. constructor.
  - pose proof (inner_createElement "select"). inn.
  - apply Forall_app. split.
    + destruct (Field.given (Field.placeholder field)) as [ph|]; [|constructor].
      constructor; [|constructor]. apply inner_leaf.
      pose proof (inner_optionEl "" ph). inn.
    + destruct (isURL options); [constructor|].
      apply Forall_forall. intros n Hn.
      apply list_elem_of_In, in_map_iff in Hn as (o & <- & _).
      apply inner_leaf, inner_optionEl.
Qed.

Lemma field_node_buildToggle field controlled : field_node (buildToggle field controlled).
Proof.
  unfold buildToggle.
  change "form-field toggle-field" with ("form-field " +:+ "toggle-field").
  apply wrapper_field_node. constructor; [|constructor].
  apply inner_optionLabel.
  pose proof (inner_buildOptionInput (Field.with_type "checkbox" field)
                (Str.or_else (Field.default field) "true")).
  inn.
Qed.

(** Whatever the descriptor, the node [buildField] returns is a wrapper of
    class [form-field] if it is tagged as controlled, and holds no tagged
    element and no further wrapper below it. *)
Lemma field_node_buildField field : field_node (buildField field).
Proof.
  unfold buildField.
  destruct (Field.equals (Field.type field) "hidden").
  { apply untagged_field_node; [apply inner_buildInput|constructor]. }
  destruct (Field.equals (Field.type field) "submit" || Field.equals (Field.type field) "reset").
  { apply untagged_field_node; [apply inner_buildButton|constructor]. }
  destruct (Field.equals (Field.type field) "radio" || Field.equals (Field.type field) "checkbox").
  { destruct (buildOptions field _) as [fieldset|] eqn:Hb.
    - apply field_node_buildOptions in Hb.
      destruct (Field.given (Field.help field));
        [apply field_node_appended; [apply inner_writeHelpText|]|]; assumption.
    - apply untagged_field_node; [reflexivity|constructor]. }
  destruct (Field.equals (Field.type field) "toggle").
  { destruct (Field.given (Field.help field));
      [apply field_node_appended; [apply inner_writeHelpText|]|]; apply field_node_buildToggle. }
  destruct (Field.equals (Field.type field) "select").
  { destruct (buildSelect field _) as [select|] eqn:Hb.
    - apply field_node_buildSelect in Hb.
      destruct (Field.given (Field.help field));
        [apply field_node_appended; [apply inner_writeHelpText|]|]; assumption.
    - apply untagged_field_node; [reflexivity|constructor]. }
  assert (Hin : inner (if Field.equals (Field.type field) "textarea"
                       then buildTextArea field else buildInput field)).
  { destruct (Field.equals (Field.type field) "textarea");
      [apply inner_buildTextArea|apply inner_buildInput]. }
  destruct (Field.given (Field.help field)) as [h|]; cbn [fmap option_fmap option_map].
  - destruct (Field.equals (Field.type field) "textarea");
      [apply field_node_appended|apply field_node_insertAfterFirst];
      try (apply inner_leaf; apply inner_setAttr; [discriminate|assumption]);
      apply field_node_appended; try apply inner_writeHelpText;
      apply wrapper_field_node; (constructor; [apply inner_leaf, inner_buildLabel|constructor]).
  - destruct (Field.equals (Field.type field) "textarea");
      [apply field_node_appended|apply field_node_insertAfterFirst];
      try (apply inner_leaf; assumption);
      apply wrapper_field_node; (constructor; [apply inner_leaf, inner_buildLabel|constructor]).
Qed.

End Wrappers.

(** ** The assembled form and the map of its controllers *)

Section Assembled.
Context `{Utils} `{Browser}.

Lemma everywhere_impl (P Q : Element -> Prop) n :
  (forall e, P e -> Q e) -> everywhere P n -> everywhere Q n.
Proof.
  intros HPQ. induction n as [e ks IH] using node_ind'. intros Hn.
  constructor; [apply HPQ, (everywhere_elem _ _ Hn)|].
  apply everywhere_children in Hn. simpl in Hn.
  rewrite Forall_forall in *. intros c Hc. apply IH; [assumption|]. apply Hn. assumption.
Qed.

Lemma button_is_bare field :
  is_button field = true -> buildField field = Node (buildButton field) [].
Proof.
  unfold is_button, buildField. intros Hb. rewrite Hb.
  destruct (Field.equals (Field.type field) "hidden") eqn:Hh; [|reflexivity].
  apply equals_true in Hh. rewrite Hh in Hb. discriminate.
Qed.

Lemma assemble_children fields : Forall field_node (children (assemble fields)).
Proof.
  unfold assemble.
  assert (Hr : forall l, Forall field_node (List.map buildField l)).
  { intros l. apply Forall_forall. intros n Hn.
    apply list_elem_of_In, in_map_iff in Hn as (f & <- & _). apply field_node_buildField. }
  destruct (List.filter is_button fields) as [|b bs] eqn:Hb; [apply Hr|].
  unfold appended. cbn [children elem]. apply Forall_app. split; [apply Hr|].
  constructor; [|constructor]. apply untagged_field_node; [reflexivity|].
  apply Forall_forall. intros n Hn. apply list_elem_of_In, in_map_iff in Hn as (f & <- & Hf).
  rewrite <- Hb in Hf. apply filter_In in Hf as [_ Hf].
  rewrite (button_is_bare f Hf). apply inner_leaf, inner_buildButton.
Qed.

(** In a form whose children are such nodes, the elements tagged as
    controlled are children of the form, and each is a field wrapper with
    nothing tagged and no wrapper below it. *)
Lemma controlled_is_child a p :
  Forall field_node (children a) ->
  p ∈ Dom.querySelectorAll Control.sel_controlled a ->
  exists k c, p = [k] /\ children a !! k = Some c
              /\ Control.sel_form_field (elem c) = true
              /\ Forall (everywhere inner) (children c).
Proof.
  intros Ha Hp. apply elem_of_querySelectorAll in Hp as (Hne & e & He & Hsel).
  destruct p as [|k q]; [contradiction|]. rewrite at_path_cons in He.
  destruct (children a !! k) as [c|] eqn:Hk; [|discriminate].
  destruct (Forall_lookup_1 _ _ _ _ Ha Hk) as [Hroot Hks].
  destruct q as [|j q].
  - rewrite at_path_nil in He. injection He as <-. exists k, c. auto.
  - rewrite at_path_cons in He. destruct (children c !! j) as [c'|] eqn:Hj; [|discriminate].
    pose proof (Forall_lookup_1 _ _ _ _ Hks Hj) as Hc'.
    destruct (everywhere_at_path _ _ _ _ Hc' He) as [Hno _]. congruence.
Qed.

Lemma closest_in_wrapper a k c q :
  children a !! k = Some c -> Control.sel_form_field (elem c) = true ->
  Forall (everywhere inner) (children c) ->
  Dom.closest Control.sel_form_field (k :: q) a = Some [k].
Proof.
  intros Hk Hc Hks. apply (closest_below_child _ k q a c Hk Hc).
  eapply Forall_impl; [exact Hks|]. intros n. apply everywhere_impl. intros e [_ He]. exact He.
Qed.

Lemma querySelector_at_below p sel form i :
  Dom.querySelector_at p sel form = Some i -> exists q, i = p ++ q.
Proof.
  unfold Dom.querySelector_at, Dom.querySelectorAll_at.
  destruct (Dom.get p form) as [n|]; [|discriminate].
  destruct (Dom.querySelectorAll sel n) as [|q l]; [discriminate|].
  intros [= <-]. eauto.
Qed.

Lemma sim_querySelector_at (R : Element -> Element -> Prop) p sel n n' :
  Rel.respects R sel -> Rel.sim R n n' ->
  Dom.querySelector_at p sel n = Dom.querySelector_at p sel n'.
Proof.
  intros Hsel Hs. unfold Dom.querySelector_at, Dom.querySelectorAll_at.
  destruct (sim_get R p n n' Hs) as [m m' Hm|]; [|reflexivity].
  rewrite (sim_querySelectorAll R sel m m' Hsel Hm). reflexivity.
Qed.

Lemma respects_control K : Rel.respects (Rel.same_outside K) Control.sel_control.
Proof.
  intros e e' (Ht&_). unfold Control.sel_control, Dom.is_tag. rewrite Ht. reflexivity.
Qed.

Lemma inputs_of_cfg_push k i cfg : inputs_of (cfg_push k i cfg) ≡ₚ i :: inputs_of cfg.
Proof.
  unfold inputs_of. induction cfg as [|[k' v] cfg IH]; simpl.
  - reflexivity.
  - destruct (String.eqb k' k); simpl.
    + rewrite <- app_assoc. cbn [app]. symmetry. apply Permutation_middle.
    + rewrite IH. symmetry. apply Permutation_middle.
Qed.

Lemma linkAria_sim input ci form :
  Rel.sim (Rel.same_outside aria_keys) form (linkAria input ci form).
Proof.
  unfold linkAria. eapply sim_trans; [apply same_outside_trans| |].
  - apply sim_update; [apply same_outside_refl|].
    intros e. apply (same_outside_setAttr aria_keys "aria-controls"). left.
  - apply sim_update; [apply same_outside_refl|].
    intros e. apply (same_outside_setAttr aria_keys "aria-controlledby"). right. left.
Qed.

Lemma linkAria_fold_sim input cis form :
  Rel.sim (Rel.same_outside aria_keys) form
          (fold_left (fun form ci => linkAria input ci form) cis form).
Proof.
  revert form. induction cis as [|ci cis IH]; intros form; simpl.
  - apply sim_refl, same_outside_refl.
  - eapply sim_trans; [apply same_outside_trans|apply linkAria_sim|apply IH].
Qed.

Lemma fields_of_cfg_push k i cfg a :
  fields_of (cfg_push k i cfg) a ≡ₚ Dom.closest Control.sel_form_field i a :: fields_of cfg a.
Proof.
  unfold fields_of. fold (inputs_of (cfg_push k i cfg)). fold (inputs_of cfg).
  rewrite inputs_of_cfg_push. reflexivity.
Qed.

Lemma discover_step a done c st :
  Forall field_node (children a) ->
  c ∈ Dom.querySelectorAll Control.sel_controlled a -> c ∉ done ->
  discovered a done st -> discovered a (done ++ [c]) (enableConditionals_each c st).
Proof.
  intros Ha Hc Hnew (Hs & Hnd & Hin). destruct st as [form cfg]. simpl in Hs, Hnd, Hin.
  assert (Hold : discovered a (done ++ [c]) (form, cfg)).
  { split; [exact Hs|]. split; [exact Hnd|]. intros i Hi.
    destruct (Hin i Hi) as (c' & Hc' & Hcl). exists c'. split; [|exact Hcl].
    apply elem_of_app. left. exact Hc'. }
  unfold enableConditionals_each.
  destruct (Dom.querySelector_at c Control.sel_control form) as [input|] eqn:Hq; [|exact Hold].
  destruct (Field.given (Dom.attr_at c "data-controller" form)) as [controller|]; [|exact Hold].
  destruct (controlled_is_child a c Ha Hc) as (k & w & -> & Hk & Hw & Hks).
  apply querySelector_at_below in Hq as (q & ->).
  pose proof (closest_in_wrapper a k w q Hk Hw Hks) as Hcl. cbn [app] in *.
  assert (Hnew' : discovered a (done ++ [[k]]) (form, cfg_push controller (k :: q) cfg)).
  { split; [exact Hs|]. cbn [fst snd]. split.
    - rewrite fields_of_cfg_push, Hcl. constructor; [|exact Hnd].
      unfold fields_of. fold (inputs_of cfg). rewrite list_elem_of_fmap.
      intros (i & Heq & Hi). destruct (Hin i Hi) as (c' & Hc' & Hcl').
      rewrite Hcl' in Heq. injection Heq as <-. contradiction.
    - intros i Hi. rewrite inputs_of_cfg_push in Hi. apply elem_of_cons in Hi as [->|Hi].
      + exists [k]. split; [apply elem_of_app; right; left|exact Hcl].
      + destruct (Hin i Hi) as (c' & Hc' & Hcl'). exists c'. split; [|exact Hcl'].
        apply elem_of_app. left. exact Hc'. }
  destruct (Str.truthy (Control.id_of (k :: q) form)); [|exact Hnew'].
  destruct Hnew' as (_ & Hnd' & Hin'). split; [|split; assumption]. cbn [fst].
  eapply sim_trans; [apply same_outside_trans|exact Hs|apply linkAria_fold_sim].
Qed.

Lemma discover_fold a cs :
  Forall field_node (children a) ->
  forall done st,
    (forall c, c ∈ cs -> c ∈ Dom.querySelectorAll Control.sel_controlled a) ->
    NoDup (done ++ cs) -> discovered a done st ->
    discovered a (done ++ cs) (fold_left (fun st c => enableConditionals_each c st) cs st).
Proof.
  intros Ha. induction cs as [|c cs IH]; intros done st Hcs Hnd Hst; simpl.
  - rewrite app_nil_r. exact Hst.
  - replace (done ++ c :: cs) with ((done ++ [c]) ++ cs) in * by (rewrite <- app_assoc; reflexivity).
    apply IH; [intros c' Hc'; apply Hcs; right; exact Hc'|exact Hnd|].
    apply discover_step; [exact Ha|apply Hcs; left| |exact Hst].
    apply NoDup_app in Hnd as (Hnd & _ & _). apply NoDup_app in Hnd as (_ & Hdis & _).
    intros Hin. apply (Hdis c Hin). left.
Qed.

Lemma discover_discovered a :
  Forall field_node (children a) ->
  discovered a (Dom.querySelectorAll Control.sel_controlled a) (discover a).
Proof.
  intros Ha. unfold discover.
  apply (discover_fold a _ Ha [] (a, [])).
  - auto.
  - apply NoDup_querySelectorAll.
  - split; [apply sim_refl, same_outside_refl|]. split; [constructor|].
    intros i Hi. inversion Hi.
Qed.

Lemma discovered_well_formed a done st : discovered a done st -> well_formed (snd st) (fst st).
Proof.
  intros (Hs & Hnd & Hin).
  apply (well_formed_sim (Rel.same_outside aria_keys) (snd st) a (fst st));
    [apply respects_form_field|exact Hs|].
  split; [exact Hnd|]. apply Forall_forall. intros f Hf.
  unfold fields_of in Hf. fold (inputs_of (snd st)) in Hf.
  apply list_elem_of_fmap in Hf as (i & -> & Hi).
  destruct (Hin i Hi) as (c & _ & ->). eauto.
Qed.

Lemma discover_assemble_well_formed fields :
  well_formed (snd (discover (assemble fields))) (fst (discover (assemble fields))).
Proof.
  eapply discovered_well_formed, discover_discovered, assemble_children.
Qed.

(** Whatever the field descriptors, the map of controllers that
    [enableConditionals] builds for the assembled form gives every
    controlled control a field wrapper, and no two of them the same one. *)
Theorem built_form_well_formed (fields : FieldList) :
  well_formed (snd (discover (assemble fields))) (fst (discover (assemble fields))).
Proof. apply discover_assemble_well_formed. Qed.


End Assembled.

(** ** The submission pipeline: what is sent, logged and navigated to *)

Section Requests.
Context `{Utils} `{Browser}.

Lemma elements_nonempty form el : el ∈ elements form -> el <> [].
Proof. intros Hel. apply elem_of_querySelectorAll in Hel as [Hne _]. exact Hne. Qed.

Lemma toggleForm_each_root b g el :
  el <> [] -> Dom.at_path [] (toggleForm_each b g el) = Dom.at_path [] g.
Proof.
  intros Hel. unfold toggleForm_each. destruct (Dom.at_path el g) as [control|]; [|reflexivity].
  destruct (Control.has_disabled control); [|reflexivity].
  apply at_path_update_other. exact Hel.
Qed.

(** [toggleForm] leaves the form element itself as it is. *)
Lemma toggleForm_root b g : Dom.at_path [] (toggleForm g b) = Dom.at_path [] g.
Proof.
  unfold toggleForm.
  assert (Hne : forall el, el ∈ elements g -> el <> []) by apply elements_nonempty.
  revert Hne. generalize (elements g) as l. intros l. revert g.
  induction l as [|el l IH]; intros g Hne; simpl; [reflexivity|].
  rewrite IH by (intros x Hx; apply Hne; right; exact Hx).
  apply toggleForm_each_root, Hne. left.
Qed.

Lemma toggleForm_attr b g k : Dom.attr_at [] k (toggleForm g b) = Dom.attr_at [] k g.
Proof. unfold Dom.attr_at. rewrite toggleForm_root. reflexivity. Qed.



(** [handleSubmit] assigns the location only after a response that is
    ok, to a form that has a submit target; the location is then the
    confirmation the form carries when the response arrives, and no error
    has been logged. *)
Theorem handleSubmit_navigates_only_on_success (net : Pending) (pg : Page) :
  href (handleSubmit net pg) <> href pg ->
  (exists text, outcome net = Responded true text)
  /\ is_Some (Field.given (Dom.attr_at [] "data-action" (form pg)))
  /\ href (handleSubmit net pg)
     = Field.given (Dom.attr_at [] "data-confirmation"
                      (meanwhile net (toggleForm (form pg) true)))
  /\ console (handleSubmit net pg) = console pg.
Proof.
  unfold handleSubmit, handleSubmit_try.
  cbn [form Pg.on_form Pg.set_form]. rewrite toggleForm_attr.
  destruct (Field.given (Dom.attr_at [] "data-action" (form pg))) as [action|].
  - destruct (outcome net) as [reason|[|] [text|]]; cbn [form Pg.on_form Pg.set_form Pg.send];
      try (intros Hne; exfalso; apply Hne; reflexivity);
      destruct (Field.given (Dom.attr_at [] "data-confirmation" _)) eqn:Hconf; intros Hne;
      try (exfalso; apply Hne; reflexivity);
      (split; [eauto|split; [eauto|split; [|reflexivity]]]);
      cbn [href Pg.navigate Pg.on_form Pg.set_form]; reflexivity.
  - intros Hne. exfalso. apply Hne. reflexivity.
Qed.

End Requests.

(** ** Constraint validation on submit *)

Section Validation.
Context `{Utils} `{Browser}.

Lemma forallb_false_find {A} (f : A -> bool) l :
  forallb f l = false -> exists x, List.find (fun y => negb (f y)) l = Some x /\ f x = false.
Proof.
  induction l as [|y l IH]; simpl; [discriminate|].
  destruct (f y) eqn:Hy; simpl; [exact IH|]. eauto.
Qed.

Lemma find_some_elem {A} (f : A -> bool) l x : List.find f l = Some x -> x ∈ l.
Proof. intros Hf. apply find_some in Hf as [Hin _]. apply list_elem_of_In. exact Hin. Qed.

Lemma invalid_submit_marked (net : Pending) (pg : Page) :
  reportValidity (form pg) = false ->
  exists el,
    firstInvalid (form pg) = Some el /\ valid (form pg) el = false
    /\ requests (onFormSubmit net pg) = requests pg
    /\ href (onFormSubmit net pg) = href pg
    /\ defaultPrevented (onFormSubmit net pg) = true
    /\ focused (onFormSubmit net pg) = Some el
    /\ Dom.attr_at el "aria-invalid" (form (onFormSubmit net pg)) = Some "true"
    /\ Rel.sim (Rel.same_outside ["aria-invalid"]) (form pg) (form (onFormSubmit net pg)).
Proof.
  intros Hinv. unfold onFormSubmit. cbn [form Pg.preventDefault Pg.set_defaultPrevented].
  rewrite Hinv. unfold markFirstInvalid.
  cbn [form Pg.preventDefault Pg.set_defaultPrevented].
  destruct (forallb_false_find _ _ Hinv) as (el & Hfind & Hel).
  unfold firstInvalid. rewrite Hfind. exists el.
  split; [reflexivity|]. split; [exact Hel|].
  cbn [form requests href defaultPrevented focused
       Pg.on_form Pg.set_form Pg.scrollIntoView Pg.focus].
  split; [reflexivity|]. split; [reflexivity|]. split; [reflexivity|]. split; [reflexivity|].
  split.
  - apply find_some_elem, elem_of_querySelectorAll in Hfind as (_ & e & He & _).
    rewrite attr_at_setAttr, decide_True by auto.
    cbn [form Pg.preventDefault Pg.set_defaultPrevented]. rewrite He. reflexivity.
  - apply sim_update; [apply same_outside_refl|].
    intros e. apply same_outside_setAttr. left.
Qed.

(** A submit of a form that fails constraint validation sends nothing
    and navigates nowhere: the listener of [enableSubmission] prevents the
    default action, focuses the first invalid control that is no fieldset
    and marks it with [aria-invalid]; nothing else of the form changes. *)
Theorem invalid_submit_marks_first_invalid (net : Pending) (pg : Page) :
  reportValidity (form pg) = false ->
  exists el,
    firstInvalid (form pg) = Some el /\ valid (form pg) el = false
    /\ requests (onFormSubmit net pg) = requests pg
    /\ href (onFormSubmit net pg) = href pg
    /\ defaultPrevented (onFormSubmit net pg) = true
    /\ focused (onFormSubmit net pg) = Some el
    /\ Dom.attr_at el "aria-invalid" (form (onFormSubmit net pg)) = Some "true"
    /\ Rel.sim (Rel.same_outside ["aria-invalid"]) (form pg) (form (onFormSubmit net pg)).
Proof. apply invalid_submit_marked. Qed.

(** The input listener of [enableSubmission] removes the mark from its
    target when the browser finds the target valid, and only then; it
    touches nothing else. *)
Theorem input_clears_mark_only_when_valid (target : path) (pg : Page) :
  Dom.attr_at target "aria-invalid" (form (onFormInput target pg))
  = (if valid (form pg) target then None else Dom.attr_at target "aria-invalid" (form pg))
  /\ Rel.sim (Rel.same_outside ["aria-invalid"]) (form pg) (form (onFormInput target pg))
  /\ Pg.set_form (form pg) (onFormInput target pg) = pg.
Proof.
  unfold onFormInput.
  destruct (Dom.has_attr_at target "aria-invalid" (form pg)) eqn:Hmark;
    destruct (valid (form pg) target); cbn [andb form Pg.on_form Pg.set_form].
  - split; [|split].
    + rewrite attr_at_removeAttr, decide_True by auto. reflexivity.
    + apply sim_update; [apply same_outside_refl|].
      intros e. apply same_outside_removeAttr. left.
    + destruct pg; reflexivity.
  - split; [reflexivity|]. split; [apply sim_refl, same_outside_refl|destruct pg; reflexivity].
  - split; [apply has_attr_at_false, Hmark|].
    split; [apply sim_refl, same_outside_refl|destruct pg; reflexivity].
  - split; [reflexivity|]. split; [apply sim_refl, same_outside_refl|destruct pg; reflexivity].
Qed.

End Validation.

(** ** The OTP sub-flow over everything that can happen *)

(** Case analysis on the innermost scrutinee of the goal. *)
Ltac has_match t :=
  match t with
  | context [match _ with _ => _ end] => idtac
  end.

Ltac split_innermost :=
  match goal with
  | |- context [match ?x with _ => _ end] =>
      tryif has_match x then fail else destruct x eqn:?
  end.

Ltac page_cbn :=
  cbn [form href console requests dispatched focused scrolled intervals nextInterval otp
       defaultPrevented fst snd
       Otp.otpInput Otp.mobileInput Otp.loader Otp.loaderText Otp.timerText
       Otp.resendButton Otp.limitMessage Otp.otpRetry Otp.resendCount Otp.timerId
       Otp.timerStarted Otp.otpErrorCount
       Otp.set_resendCount Otp.set_timerId Otp.set_timerStarted Otp.set_otpErrorCount
       Pg.set_form Pg.on_form Pg.navigate Pg.log_error Pg.send Pg.dispatchEvent Pg.focus
       Pg.scrollIntoView Pg.set_intervals Pg.set_otp Pg.set_defaultPrevented Pg.preventDefault
       negb andb orb is_resend_click] in *.

Ltac page_unfold :=
  unfold happen, run, intervalFires, onResendClick, onOtpSubmitCount, onOtpSubmitVerify,
    maybeStartTimer, startTimer, tick, with_closure, set_closure, setVisibility, setDisplay,
    onFormSubmit, onFormInput, markFirstInvalid, handleSubmit, handleSubmit_try,
    otpErrorThreshold, otpErrorRedirect, resendLimit in *.

Ltac z_bools :=
  repeat match goal with
         | H : (_ <=? _)%Z = true |- _ => apply Z.leb_le in H
         | H : (_ <=? _)%Z = false |- _ => apply Z.leb_gt in H
         | H : (_ <? _)%Z = true |- _ => apply Z.ltb_lt in H
         | H : (_ <? _)%Z = false |- _ => apply Z.ltb_ge in H
         end.

Section Sequences.
Context `{Utils} `{Browser}.

Lemma happen_resend x pg c :
  otp pg = Some c ->
  exists c', otp (happen x pg) = Some c'
    /\ Otp.resendCount c' = (Otp.resendCount c + (if is_resend_click x then 1 else 0))%Z
    /\ dispatched (happen x pg)
       = dispatched pg ++
         (if is_resend_click x && (Otp.resendCount c + 1 <=? 3)%Z
          then [("otp:resend", true)] else []).
Proof.
  intros Hc. destruct pg as [f hr co rq di fo sc iv ni ot dp]. cbn in Hc. subst ot.
  destruct c as [oi mi lo lt tt rb lm ore rc ti ts ec].
  destruct x as [net target h|id|g]; [destruct h| |];
    page_unfold; page_cbn; repeat (split_innermost; page_cbn);
    z_bools; try lia;
    (eexists; split; [reflexivity|]; page_cbn; split; [lia|]; rewrite ?app_nil_r; reflexivity).
Qed.

Lemma happenAll_cons x xs pg : happenAll (x :: xs) pg = happenAll xs (happen x pg).
Proof. reflexivity. Qed.

Lemma resend_events_from xs : forall pg c,
  otp pg = Some c -> (0 <= Otp.resendCount c)%Z ->
  dispatched (happenAll xs pg)
  = dispatched pg ++ repeat ("otp:resend", true)
                       (Nat.min (resend_clicks xs) (Z.to_nat (3 - Otp.resendCount c))).
Proof.
  induction xs as [|x xs IH]; intros pg c Hc Hpos.
  - cbn. rewrite app_nil_r. reflexivity.
  - rewrite happenAll_cons.
    destruct (happen_resend x pg c Hc) as (c' & Hc' & Hcount & Hdisp).
    rewrite (IH _ c' Hc') by (rewrite Hcount; destruct (is_resend_click x); lia).
    rewrite Hdisp, Hcount, <- app_assoc. f_equal.
    unfold resend_clicks. cbn [List.filter].
    destruct (is_resend_click x); cbn [andb List.length].
    + destruct (Z.leb_spec (Otp.resendCount c + 1) 3) as [Hle|Hgt].
      * replace (Z.to_nat (3 - Otp.resendCount c))
          with (S (Z.to_nat (3 - (Otp.resendCount c + 1)))) by lia.
        reflexivity.
      * replace (Z.to_nat (3 - (Otp.resendCount c + 1))) with 0%nat by lia.
        replace (Z.to_nat (3 - Otp.resendCount c)) with 0%nat by lia.
        rewrite !Nat.min_0_r. reflexivity.
    + rewrite Z.add_0_r. reflexivity.
Qed.

(** Whatever happens on the page and in whatever order (listeners
    running, the interval firing, the form being edited), the first three
    clicks on the resend button each dispatch one [otp:resend] event and no
    later click dispatches any; nothing else dispatches an event. *)
Theorem resend_events_bounded (xs : list Happening) (pg : Page) (c : Otp.Closure) :
  otp pg = Some c -> Otp.resendCount c = 0%Z ->
  dispatched (happenAll xs pg)
  = dispatched pg ++ repeat ("otp:resend", true) (Nat.min (resend_clicks xs) 3).
Proof.
  intros Hc Hzero. rewrite (resend_events_from xs pg c Hc) by lia.
  rewrite Hzero. reflexivity.
Qed.

Lemma happen_started x pg c :
  otp pg = Some c -> Otp.timerStarted c = true ->
  exists c', otp (happen x pg) = Some c' /\ Otp.timerStarted c' = true
    /\ nextInterval (happen x pg) = nextInterval pg
    /\ forall id, is_Some (intervals (happen x pg) !! id) -> is_Some (intervals pg !! id).
Proof.
  intros Hc Hs. destruct pg as [f hr co rq di fo sc iv ni ot dp]. cbn in Hc. subst ot.
  destruct c as [oi mi lo lt tt rb lm ore rc ti ts ec]. cbn in Hs. subst ts.
  destruct x as [net target h|id|g]; [destruct h| |];
    page_unfold; page_cbn; repeat (split_innermost; page_cbn);
    (eexists; split; [reflexivity|]; page_cbn; split; [reflexivity|]; split; [reflexivity|]);
    intros j; rewrite ?lookup_insert, ?lookup_delete; repeat case_decide; subst;
    eauto; intros [? ?]; discriminate.
Qed.

Lemma happen_interval x pg :
  nextInterval (happen x pg) = nextInterval pg
  \/ (nextInterval (happen x pg) = S (nextInterval pg)
      /\ exists c', otp (happen x pg) = Some c' /\ Otp.timerStarted c' = true).
Proof.
  destruct pg as [f hr co rq di fo sc iv ni [c|] dp].
  - destruct c as [oi mi lo lt tt rb lm ore rc ti ts ec].
    destruct x as [net target h|id|g]; [destruct h| |];
      page_unfold; page_cbn; repeat (split_innermost; page_cbn);
      first [left; reflexivity|right; split; [reflexivity|eexists; split; reflexivity]].
  - destruct x as [net target h|id|g]; [destruct h| |];
      page_unfold; page_cbn; repeat (split_innermost; page_cbn); left; reflexivity.
Qed.

Lemma started_stays xs : forall pg c,
  otp pg = Some c -> Otp.timerStarted c = true ->
  nextInterval (happenAll xs pg) = nextInterval pg
  /\ forall id, is_Some (intervals (happenAll xs pg) !! id) -> is_Some (intervals pg !! id).
Proof.
  induction xs as [|x xs IH]; intros pg c Hc Hs; [split; auto|].
  rewrite happenAll_cons.
  destruct (happen_started x pg c Hc Hs) as (c' & Hc' & Hs' & Hn & Hi).
  destruct (IH _ c' Hc' Hs') as [Hn' Hi']. split; [congruence|auto].
Qed.

(** Whatever happens on the page, [setInterval] is called at most
    once more; and once the timer has been started it is never called
    again, and no interval comes back that has been cleared: the countdown
    of the resend affordance runs once in the life of the page. *)
Theorem timer_starts_at_most_once (xs : list Happening) (pg : Page) :
  (nextInterval (happenAll xs pg) <= S (nextInterval pg))%nat
  /\ (forall c, otp pg = Some c -> Otp.timerStarted c = true ->
        nextInterval (happenAll xs pg) = nextInterval pg
        /\ forall id, is_Some (intervals (happenAll xs pg) !! id) ->
                      is_Some (intervals pg !! id)).
Proof.
  split; [|intros c; apply started_stays].
  revert pg. induction xs as [|x xs IH]; intros pg; [cbn; lia|].
  rewrite happenAll_cons.
  destruct (happen_interval x pg) as [Hsame|(Hnext & c' & Hc' & Hs')].
  - rewrite <- Hsame. apply IH.
  - destruct (started_stays xs _ c' Hc' Hs') as [-> _]. lia.
Qed.

Lemma happen_quiet x pg :
  is_form_submit x = false ->
  requests (happen x pg) = requests pg
  /\ console (happen x pg) = console pg
  /\ (href (happen x pg) = href pg \/ href (happen x pg) = Some "/thank-you").
Proof.
  intros Hx. destruct pg as [f hr co rq di fo sc iv ni [c|] dp].
  - destruct c as [oi mi lo lt tt rb lm ore rc ti ts ec].
    destruct x as [net target h|id|g]; [destruct h| |]; try discriminate;
      page_unfold; unfold otpSuccessRedirect; page_cbn; repeat (split_innermost; page_cbn);
      try solve [exfalso; match goal with
                          | Hdead : negb (0 =? 0)%Z && _ && _ = true |- _ =>
                              cbn in Hdead; discriminate
                          end];
      auto.
  - destruct x as [net target h|id|g]; [destruct h| |]; try discriminate;
      page_unfold; page_cbn; repeat (split_innermost; page_cbn); auto.
Qed.

(** Whatever happens on the page apart from a submit handled by the
    listener of [enableSubmission] (the conditional engine, the toggle, the
    listeners and the timer of the OTP sub-flow, edits of the form), no
    request is sent, no error is logged, and the location is assigned
    nothing but [/thank-you]: the redirect after failed OTP attempts never
    fires. *)
Theorem only_submission_posts (xs : list Happening) (pg : Page) :
  Forall (fun x => is_form_submit x = false) xs ->
  requests (happenAll xs pg) = requests pg
  /\ console (happenAll xs pg) = console pg
  /\ (href (happenAll xs pg) = href pg \/ href (happenAll xs pg) = Some "/thank-you").
Proof.
  revert pg. induction xs as [|x xs IH]; intros pg Hxs; [auto|].
  apply Forall_cons in Hxs as [Hx Hxs]. rewrite happenAll_cons.
  destruct (happen_quiet x pg Hx) as (Hr & Hc & Hh).
  destruct (IH (happen x pg) Hxs) as (Hr' & Hc' & Hh').
  split; [congruence|]. split; [congruence|].
  destruct Hh' as [Hh'|Hh']; [|right; exact Hh'].
  destruct Hh as [Hh|Hh]; [left|right]; congruence.
Qed.

End Sequences.

(** ** The countdown *)

Section Countdown.
Context `{Utils} `{Browser}.

Lemma display_update_text p q t f :
  display <$> Dom.at_path q (Dom.update p (Dom.set_textContent t) f)
  = display <$> Dom.at_path q f.
Proof. rewrite at_path_update. case_decide; destruct (Dom.at_path q f); reflexivity. Qed.

Lemma text_update_display p q d f :
  textContent <$> Dom.at_path q (Dom.update p (Dom.set_display d) f)
  = textContent <$> Dom.at_path q f.
Proof. rewrite at_path_update. case_decide; destruct (Dom.at_path q f); reflexivity. Qed.

Lemma display_update_other p q d f :
  p <> q ->
  display <$> Dom.at_path q (Dom.update p (Dom.set_display d) f) = display <$> Dom.at_path q f.
Proof. intros Hne. rewrite at_path_update_other by exact Hne. reflexivity. Qed.

Lemma display_update_same p d f :
  is_Some (Dom.at_path p f) ->
  display <$> Dom.at_path p (Dom.update p (Dom.set_display d) f) = Some d.
Proof. apply display_after_set. Qed.

Lemma text_update_same p t f :
  is_Some (Dom.at_path p f) ->
  textContent <$> Dom.at_path p (Dom.update p (Dom.set_textContent t) f) = Some t.
Proof. intros [e He]. rewrite at_path_update_same, He. reflexivity. Qed.

Lemma is_Some_update p q g f :
  is_Some (Dom.at_path q f) -> is_Some (Dom.at_path q (Dom.update p g f)).
Proof. intros [e He]. rewrite at_path_update, He. case_decide; simpl; eauto. Qed.

(** One run of a callback that finds time remaining: the text is updated
    and the variable decremented. *)
Lemma fires_running pg c id r :
  otp pg = Some c -> intervals pg !! id = Some r -> (0 < r)%Z ->
  intervalFires id pg
  = Pg.set_intervals (<[id := (r - 1)%Z]> (intervals pg)) (nextInterval pg)
      (Pg.on_form (Dom.update (Otp.timerText c)
                     (Dom.set_textContent (" " +:+ pretty r +:+ "s"))) pg).
Proof.
  intros Hc Hr Hpos. unfold intervalFires, tick. rewrite Hr, Hc.
  destruct (Z.leb_spec r 0) as [Hle|_]; [lia|]. page_cbn. rewrite Hr. reflexivity.
Qed.

(** The run that finds none: the interval is cleared and the affordance
    turns to [ready]. *)
Lemma fires_last pg c id r :
  otp pg = Some c -> Otp.timerId c = Some id -> intervals pg !! id = Some r -> (r <= 0)%Z ->
  intervalFires id pg
  = setVisibility (Otp.set_timerId None c) Otp.ready
      (set_closure (Otp.set_timerId None c)
         (Pg.set_intervals (delete id (intervals pg)) (nextInterval pg)
            (Pg.on_form (Dom.update (Otp.timerText c)
                           (Dom.set_textContent (" " +:+ pretty r +:+ "s"))) pg))).
Proof.
  intros Hc Hid Hr Hle. unfold intervalFires, tick. rewrite Hr, Hc, Hid.
  destruct (Z.leb_spec r 0) as [_|Hgt]; [|lia].
  unfold setVisibility, setDisplay, set_closure. page_cbn.
  rewrite lookup_delete_eq. reflexivity.
Qed.

Lemma fires_cleared k id pg :
  intervals pg !! id = None -> intervalFiresTimes k id pg = pg.
Proof.
  intros Hnone. induction k as [|k IH]; [reflexivity|].
  cbn [intervalFiresTimes]. unfold intervalFires at 1. rewrite Hnone. exact IH.
Qed.

Lemma countdown_from k : forall pg c id r,
  otp pg = Some c -> Otp.timerId c = Some id -> intervals pg !! id = Some r -> (0 <= r)%Z ->
  is_Some (Dom.at_path (Otp.resendButton c) (form pg)) ->
  is_Some (Dom.at_path (Otp.timerText c) (form pg)) ->
  Otp.resendButton c <> Otp.limitMessage c ->
  display <$> Dom.at_path (Otp.resendButton c) (form pg) = Some "none" ->
  textContent <$> Dom.at_path (Otp.timerText c) (form pg)
    = Some (" " +:+ pretty (r + 1)%Z +:+ "s") ->
  let pg' := intervalFiresTimes k id pg in
  if (Z.of_nat k <=? r)%Z
  then intervals pg' !! id = Some (r - Z.of_nat k)%Z
       /\ display <$> Dom.at_path (Otp.resendButton c) (form pg') = Some "none"
       /\ textContent <$> Dom.at_path (Otp.timerText c) (form pg')
          = Some (" " +:+ pretty (r + 1 - Z.of_nat k)%Z +:+ "s")
  else intervals pg' !! id = None
       /\ display <$> Dom.at_path (Otp.resendButton c) (form pg') = Some "inline-flex"
       /\ textContent <$> Dom.at_path (Otp.timerText c) (form pg') = Some " 0s".
Proof.
  induction k as [|k IH]; intros pg c id r Hc Hid Hr Hpos Hbtn Htxt Hne Hnone Htext pg'.
  - subst pg'. cbn [intervalFiresTimes]. change (Z.of_nat 0) with 0%Z.
    destruct (Z.leb_spec 0 r) as [_|Hlt]; [|lia].
    rewrite !Z.sub_0_r. auto.
  - subst pg'. cbn [intervalFiresTimes].
    destruct (decide (r = 0%Z)) as [->|Hr0].
    + destruct (Z.leb_spec (Z.of_nat (S k)) 0%Z) as [Hle|_]; [lia|].
      rewrite (fires_last pg c id 0%Z Hc Hid Hr) by lia.
      rewrite fires_cleared.
      2: { unfold setVisibility, setDisplay, set_closure. page_cbn. apply lookup_delete_eq. }
      unfold setVisibility, setDisplay, set_closure. page_cbn.
      split; [apply lookup_delete_eq|]. split.
      * rewrite display_update_other by congruence.
        apply display_update_same. do 2 apply is_Some_update. exact Hbtn.
      * rewrite !text_update_display. apply text_update_same. exact Htxt.
    + rewrite (fires_running pg c id r Hc Hr) by lia.
      specialize (IH (Pg.set_intervals (<[id := (r - 1)%Z]> (intervals pg)) (nextInterval pg)
                        (Pg.on_form (Dom.update (Otp.timerText c)
                           (Dom.set_textContent (" " +:+ pretty r +:+ "s"))) pg))
                     c id (r - 1)%Z).
      page_cbn. rewrite lookup_insert_eq in IH.
      rewrite display_update_text in IH.
      rewrite (text_update_same _ _ _ Htxt) in IH.
      replace (r - 1 + 1)%Z with r in IH by lia.
      specialize (IH Hc Hid eq_refl ltac:(lia) (is_Some_update _ _ _ _ Hbtn)
                     (is_Some_update _ _ _ _ Htxt) Hne Hnone eq_refl).
      cbn zeta in IH.
      destruct (Z.leb_spec (Z.of_nat k) (r - 1)) as [Hle|Hgt];
        destruct (Z.leb_spec (Z.of_nat (S k)) r) as [Hle'|Hgt']; try lia.
      * replace (r - Z.of_nat (S k))%Z with (r - 1 - Z.of_nat k)%Z by lia.
        replace (r + 1 - Z.of_nat (S k))%Z with (r - Z.of_nat k)%Z by lia.
        replace (r - 1 + 1 - Z.of_nat k)%Z with (r - Z.of_nat k)%Z in IH by lia.
        exact IH.
      * exact IH.
Qed.

(** [startTimer] on a page whose timer has not started yet. *)
Lemma startTimer_fresh pg c d :
  otp pg = Some c -> Otp.timerStarted c = false -> (0 < d)%Z ->
  startTimer d pg
  = set_closure (Otp.set_timerId (Some (nextInterval pg)) (Otp.set_timerStarted true c))
      (Pg.set_intervals (<[nextInterval pg := (d - 1)%Z]> (intervals pg)) (S (nextInterval pg))
         (Pg.on_form (Dom.update (Otp.timerText c)
                        (Dom.set_textContent (" " +:+ pretty d +:+ "s")))
            (setVisibility (Otp.set_timerStarted true c) Otp.loading
               (Pg.on_form (Dom.update (Otp.loaderText c)
                              (Dom.set_textContent resendLoaderLabel))
                  (set_closure (Otp.set_timerStarted true c) pg))))).
Proof.
  intros Hc Hs Hpos. unfold startTimer, tick, with_closure. rewrite Hc, Hs.
  unfold setVisibility, setDisplay, set_closure. page_cbn.
  destruct (Z.leb_spec d 0) as [Hle|_]; [lia|]. page_cbn. reflexivity.
Qed.

(** From the start of the timer on a page where it had not started,
    the callback of the interval counts the seconds down in the timer text;
    the resend button stays hidden while time remains, the run that finds
    none left clears the interval and shows the button, and later runs
    change nothing. *)
Theorem countdown_reveals_resend (pg : Page) (c : Otp.Closure) (d : Z) (k : nat) :
  otp pg = Some c -> Otp.timerStarted c = false -> (0 < d)%Z ->
  is_Some (Dom.at_path (Otp.resendButton c) (form pg)) ->
  is_Some (Dom.at_path (Otp.timerText c) (form pg)) ->
  Otp.resendButton c <> Otp.limitMessage c ->
  let id := nextInterval pg in
  let pg' := intervalFiresTimes k id (startTimer d pg) in
  if (Z.of_nat k <? d)%Z
  then intervals pg' !! id = Some (d - 1 - Z.of_nat k)%Z
       /\ display <$> Dom.at_path (Otp.resendButton c) (form pg') = Some "none"
       /\ textContent <$> Dom.at_path (Otp.timerText c) (form pg')
          = Some (" " +:+ pretty (d - Z.of_nat k)%Z +:+ "s")
  else intervals pg' !! id = None
       /\ display <$> Dom.at_path (Otp.resendButton c) (form pg') = Some "inline-flex"
       /\ textContent <$> Dom.at_path (Otp.timerText c) (form pg') = Some " 0s".
Proof.
  intros Hc Hs Hpos Hbtn Htxt Hne id pg'. subst id pg'.
  rewrite (startTimer_fresh pg c d Hc Hs Hpos).
  set (c2 := Otp.set_timerId (Some (nextInterval pg)) (Otp.set_timerStarted true c)).
  pose proof (countdown_from k
                (set_closure c2
                   (Pg.set_intervals (<[nextInterval pg := (d - 1)%Z]> (intervals pg))
                      (S (nextInterval pg))
                      (Pg.on_form (Dom.update (Otp.timerText c)
                                     (Dom.set_textContent (" " +:+ pretty d +:+ "s")))
                         (setVisibility (Otp.set_timerStarted true c) Otp.loading
                            (Pg.on_form (Dom.update (Otp.loaderText c)
                                           (Dom.set_textContent resendLoaderLabel))
                               (set_closure (Otp.set_timerStarted true c) pg))))))
                c2 (nextInterval pg) (d - 1)%Z) as Hcount.
  unfold setVisibility, setDisplay, set_closure in Hcount |- *. page_cbn.
  rewrite lookup_insert_eq in Hcount.
  replace (d - 1 + 1)%Z with d in Hcount by lia.
  assert (Hb1 : is_Some (Dom.at_path (Otp.resendButton c)
                  (Dom.update (Otp.loader c) (Dom.set_display "flex")
                     (Dom.update (Otp.loaderText c) (Dom.set_textContent resendLoaderLabel)
                        (form pg))))) by (do 2 apply is_Some_update; exact Hbtn).
  specialize (Hcount eq_refl eq_refl eq_refl ltac:(lia)).
  rewrite display_update_text in Hcount.
  specialize (Hcount ltac:(do 5 apply is_Some_update; exact Hbtn)
                     ltac:(do 5 apply is_Some_update; exact Htxt) Hne).
  destruct (decide (Otp.limitMessage c = Otp.resendButton c)) as [Heq|Hneq]; [congruence|].
  rewrite display_update_other in Hcount by exact Hneq.
  rewrite (display_update_same _ _ _ Hb1) in Hcount.
  rewrite text_update_same in Hcount by (do 4 apply is_Some_update; exact Htxt).
  specialize (Hcount eq_refl eq_refl). cbn zeta in Hcount.
  destruct (Z.ltb_spec (Z.of_nat k) d) as [Hlt|Hge];
    destruct (Z.leb_spec (Z.of_nat k) (d - 1)) as [Hle|Hgt]; try lia.
  - replace (d - 1 + 1 - Z.of_nat k)%Z with (d - Z.of_nat k)%Z in Hcount by lia.
    exact Hcount.
  - exact Hcount.
Qed.

End Countdown.

(** ** The configuration of the block *)

Section Config.
Context `{Utils} `{Browser}.

Lemma find_flat_map_bool {A B} (f : B -> bool) (g : A -> list B) l :
  List.find f (List.flat_map g l)
  = match List.find (fun x => match List.find f (g x) with Some _ => true | None => false end) l with
    | Some x => List.find f (g x)
    | None => None
    end.
Proof.
  induction l as [|x l IH]; [reflexivity|]. cbn [List.flat_map List.find].
  rewrite find_app_bool. destruct (List.find f (g x)) eqn:Hx; [symmetry; exact Hx|exact IH].
Qed.

Lemma truthy_nonempty s : Str.truthy s = true <-> s <> "".
Proof. destruct s; simpl; split; (congruence || discriminate || auto). Qed.

(** The value [getFormConfigValue] finds for a name in the
    configuration read from the rows of the block is the trimmed second
    cell of the first row whose trimmed first cell is the name, if that
    cell is not blank, and the fallback in every other case: a blank first
    match is not made up for by a later row.  The value found is never
    empty unless the fallback is. *)
Theorem config_value_from_first_row (rows : list (list string)) (name fallback : string) :
  name <> "" ->
  getFormConfigValue (configFields rows) name fallback
  = match config_row name rows with
    | Some (_ :: v :: _) => if Str.truthy (Str.trim v) then Str.trim v else fallback
    | _ => fallback
    end
  /\ (fallback <> "" -> getFormConfigValue (configFields rows) name fallback <> "").
Proof.
  intros Hname. split.
  - unfold getFormConfigValue, configFields, config_row. rewrite find_flat_map_bool.
    rewrite (find_ext_bool _ (fun cells => match cells with
                                           | k :: _ :: _ => String.eqb (Str.trim k) name
                                           | _ => false
                                           end)).
    + destruct (List.find _ rows) as [[|k [|v cells]]|] eqn:Hrow; try reflexivity.
      apply find_some in Hrow as [_ Hk]. apply String.eqb_eq in Hk.
      assert (Ht : Str.truthy (Str.trim k) = true) by (apply truthy_nonempty; congruence).
      rewrite Ht. cbn [List.find Field.field Field.equals]. rewrite Hk, String.eqb_refl.
      cbn [Field.default Field.value Field.given]. destruct (Str.truthy (Str.trim v)); reflexivity.
    + intros [|k [|v cells]]; try reflexivity.
      destruct (Str.truthy (Str.trim k)) eqn:Ht.
      * cbn [List.find Field.field Field.equals]. destruct (String.eqb (Str.trim k) name); reflexivity.
      * cbn [List.find]. symmetry. apply String.eqb_neq. intros Heq.
        apply truthy_nonempty in Hname. congruence.
  - intros Hfb. unfold getFormConfigValue.
    destruct (List.find _ (configFields rows)) as [entry|]; [|exact Hfb].
    destruct (Field.given (Field.default entry)) as [d|] eqn:Hd;
      [apply given_Some in Hd as [_ Hd]; exact Hd|].
    destruct (Field.given (Field.value entry)) as [v|] eqn:Hv;
      [apply given_Some in Hv as [_ Hv]; exact Hv|exact Hfb].
Qed.

End Config.

(** ** The toggle *)

Section Toggle.
Context `{Utils} `{Browser}.

Lemma checked_setBoolAttr k b e : checked (Dom.setBoolAttr k b e) = checked e.
Proof. destruct b; reflexivity. Qed.

Lemma value_setBoolAttr k b e : value (Dom.setBoolAttr k b e) = value e.
Proof. destruct b; reflexivity. Qed.

Lemma listeners_setBoolAttr k b e : listeners (Dom.setBoolAttr k b e) = listeners e.
Proof. destruct b; reflexivity. Qed.

(** The switch of a toggle field starts checked exactly when the
    field has a default that is not empty, whatever that default is, and its
    value is that default, or [true] without one; [aria-checked] mirrors the
    checkedness when the field is built and after every [change] the
    listener of the switch handles. *)
Theorem toggle_checked_iff_default (field : Field.t) (controlled : option string) :
  exists input,
    Dom.at_path [0; 0]%nat (buildToggle field controlled) = Some input
    /\ Control.type_of input = "checkbox"
    /\ checked input = bool_decide (is_Some (Field.given (Field.default field)))
    /\ value input = Str.or_else (Field.default field) "true"
    /\ attrs input !! "role" = Some "switch"
    /\ attrs input !! "aria-checked" = Some (Str.of_bool (checked input))
    /\ listeners input = [("change", OnToggleChange)]
    /\ forall net target pg e,
         Dom.at_path target (form pg) = Some e ->
         Dom.attr_at target "aria-checked" (form (run net target OnToggleChange pg))
         = Some (Str.of_bool (checked e)).
Proof.
  eexists. split; [reflexivity|]. cbn [elem].
  set (input0 := buildOptionInput (Field.with_type "checkbox" field)
                   (Str.or_else (Field.default field) "true")).
  assert (Htag : tagName input0 = "input")
    by (unfold input0, buildOptionInput; rewrite tagName_setBoolAttr; reflexivity).
  assert (Htype : Dom.prop "type" input0 = "checkbox").
  { unfold input0, buildOptionInput.
    rewrite prop_setBoolAttr_other by discriminate. reflexivity. }
  assert (Hchecked : checked input0
                     = bool_decide (is_Some (Field.given (Field.default field)))).
  { unfold input0, buildOptionInput. rewrite checked_setBoolAttr.
    cbn [Dom.set_checked checked Field.default Field.with_type].
    destruct (Field.default field) as [[|a d]|]; cbn; [reflexivity| |reflexivity].
    rewrite Ascii.eqb_refl, String.eqb_refl. reflexivity. }
  assert (Hvalue : value input0 = Str.or_else (Field.default field) "true")
    by (unfold input0, buildOptionInput; rewrite value_setBoolAttr; reflexivity).
  assert (Hlisteners : listeners input0 = [])
    by (unfold input0, buildOptionInput; rewrite listeners_setBoolAttr; reflexivity).
  clearbody input0.
  set (switch := Dom.setAttr "aria-checked"
                   (Str.of_bool (checked (Dom.setAttr "role" "switch" input0)))
                   (Dom.setAttr "role" "switch" input0)).
  assert (Htag' : tagName (Dom.add_listener "change" OnToggleChange switch) = "input")
    by exact Htag.
  assert (Htype' : Dom.prop "type" (Dom.add_listener "change" OnToggleChange switch)
                   = "checkbox").
  { change (Dom.prop "type" switch = "checkbox"). unfold switch.
    rewrite !prop_setAttr_other by discriminate. exact Htype. }
  split.
  { unfold Control.type_of, Dom.is_tag. rewrite Htag', Htype'. reflexivity. }
  split; [exact Hchecked|]. split; [exact Hvalue|].
  split.
  { change (attrs switch !! "role" = Some "switch"). unfold switch.
    cbn [attrs Dom.setAttr Dom.set_attrs].
    rewrite lookup_insert_ne by discriminate. apply lookup_insert_eq. }
  split.
  { change (attrs switch !! "aria-checked" = Some (Str.of_bool (checked input0))).
    unfold switch. cbn [attrs checked Dom.setAttr Dom.set_attrs]. apply lookup_insert_eq. }
  split.
  { change (listeners input0 ++ [("change", OnToggleChange)] = [("change", OnToggleChange)]).
    rewrite Hlisteners. reflexivity. }
  intros net target pg e He. cbn [run form Pg.on_form Pg.set_form].
  rewrite attr_at_setAttr, decide_True by auto. rewrite He. reflexivity.
Qed.

End Toggle.

(** ** The payload: its keys, and the names no checkbox bears *)

Section PayloadKeys.
Context `{Utils} `{Browser}.

Lemma each_keeps_keys form payload field name :
  is_Some (payload !! name) -> is_Some (generatePayload_each form payload field !! name).
Proof.
  intros Hin. unfold generatePayload_each.
  assert (Hins : forall k w, is_Some (payload_set k w payload !! name)).
  { intros k w. unfold payload_set. destruct (String.eqb k "__proto__"); [exact Hin|].
    destruct (decide (k = name)) as [->|Hne].
    - rewrite lookup_insert_eq. eauto.
    - rewrite lookup_insert_ne by exact Hne. exact Hin. }
  repeat split_innermost; auto.
Qed.

Lemma fold_keeps_keys form l payload name :
  is_Some (payload !! name) ->
  is_Some (fold_left (generatePayload_each form) l payload !! name).
Proof.
  revert payload. induction l as [|field l IH]; intros payload Hin; [exact Hin|].
  apply IH, each_keeps_keys, Hin.
Qed.

Lemma each_adds_key form payload field e :
  Dom.at_path field form = Some e -> Dom.prop "name" e <> "" ->
  Dom.prop "name" e <> "__proto__" ->
  Dom.hasAttr "disabled" e = false ->
  (Control.type_of e = "radio" \/ Control.type_of e = "checkbox" -> checked e = true) ->
  is_Some (generatePayload_each form payload field !! Dom.prop "name" e).
Proof.
  intros He Hname Hproto Hd Hch. unfold generatePayload_each. rewrite He, Hd.
  apply truthy_nonempty in Hname. rewrite Hname. cbn [negb andb].
  destruct (String.eqb (Control.type_of e) "radio") eqn:Hr.
  { apply String.eqb_eq in Hr. rewrite Hch by auto.
    rewrite payload_set_eq by exact Hproto. eauto. }
  destruct (String.eqb (Control.type_of e) "checkbox") eqn:Hcb.
  { apply String.eqb_eq in Hcb. rewrite Hch by auto.
    destruct (payload_truthy payload (Dom.prop "name" e));
      rewrite payload_set_eq by exact Hproto; eauto. }
  rewrite payload_set_eq by exact Hproto. eauto.
Qed.

Lemma each_keys_nonempty form payload field :
  (forall k, is_Some (payload !! k) -> k <> "" /\ k <> "__proto__") ->
  forall k, is_Some (generatePayload_each form payload field !! k) ->
            k <> "" /\ k <> "__proto__".
Proof.
  intros Hold k. unfold generatePayload_each.
  destruct (Dom.at_path field form) as [e|]; [|apply Hold].
  destruct (Str.truthy (Dom.prop "name" e)) eqn:Hn; [|apply Hold].
  apply truthy_nonempty in Hn.
  assert (Hins : forall w, is_Some (payload_set (Dom.prop "name" e) w payload !! k) ->
                           k <> "" /\ k <> "__proto__").
  { intros w. unfold payload_set.
    destruct (String.eqb (Dom.prop "name" e) "__proto__") eqn:Hp; [apply Hold|].
    apply String.eqb_neq in Hp.
    destruct (decide (Dom.prop "name" e = k)) as [<-|Hne]; [intros _; split; assumption|].
    rewrite lookup_insert_ne by exact Hne. apply Hold. }
  cbn [andb]. repeat split_innermost; first [apply Hold|apply Hins].
Qed.

Lemma payload_keys_nonempty form k :
  is_Some (generatePayload form !! k) -> k <> "" /\ k <> "__proto__".
Proof.
  unfold generatePayload.
  assert (Hempty : forall k, is_Some ((∅ : gmap string string) !! k) ->
                             k <> "" /\ k <> "__proto__").
  { intros k'. rewrite lookup_empty. intros [? ?]. discriminate. }
  revert Hempty. generalize (∅ : gmap string string) as payload. revert k.
  induction (elements form) as [|field l IH]; intros k payload Hold; [apply Hold|].
  cbn [fold_left]. apply IH. apply each_keys_nonempty, Hold.
Qed.

(** The keys of the payload are exactly the names, other than the empty
    name and [__proto__], of the listed controls that are not disabled and,
    if they are radio buttons or checkboxes, are checked.  The payload never
    has a key [__proto__]: a control of that name contributes nothing. *)
Theorem payload_keys (form : node) (name : string) :
  is_Some (generatePayload form !! name)
  <-> name <> "" /\ name <> "__proto__" /\ contributes form name.
Proof.
  split.
  - intros Hin. destruct (payload_keys_nonempty form name Hin) as [Hne Hproto].
    split; [exact Hne|]. split; [exact Hproto|].
    destruct Hin as [v Hv]. apply (generatePayload_provenance form name v Hv).
  - intros (Hname & Hproto & field & e & Hin & He & <- & Hd & Hch).
    unfold generatePayload. fold (elements form) in Hin.
    generalize (∅ : gmap string string) as payload.
    induction (elements form) as [|x l IH]; intros payload; [inversion Hin|].
    cbn [fold_left]. apply elem_of_cons in Hin as [<-|Hin].
    + apply fold_keeps_keys, each_adds_key; assumption.
    + apply IH, Hin.
Qed.

Lemma writes_each form payload field name :
  name <> "" -> name <> "__proto__" ->
  (forall e, Dom.at_path field form = Some e -> Dom.prop "name" e = name ->
             Control.type_of e <> "checkbox") ->
  generatePayload_each form payload field !! name
  = if writes name form field then Some (Control.value_of field form) else payload !! name.
Proof.
  intros Hname Hproto Hnc. unfold writes.
  destruct (Dom.at_path field form) as [e|] eqn:He;
    [|unfold generatePayload_each; rewrite He; reflexivity].
  destruct (String.eqb (Dom.prop "name" e) name) eqn:Hn.
  - apply String.eqb_eq in Hn. specialize (Hnc e eq_refl Hn). apply String.eqb_neq in Hnc.
    unfold generatePayload_each. rewrite He, Hn, Hnc.
    apply truthy_nonempty in Hname. rewrite Hname. cbn [andb].
    destruct (Dom.hasAttr "disabled" e); cbn [negb andb]; [reflexivity|].
    destruct (String.eqb (Control.type_of e) "radio"); cbn [negb orb].
    + destruct (checked e); [apply payload_set_eq; exact Hproto|reflexivity].
    + apply payload_set_eq. exact Hproto.
  - cbn [andb]. apply each_other_name. intros e' He'. rewrite He in He'. injection He' as <-.
    apply String.eqb_neq. exact Hn.
Qed.

Lemma writes_fold form name l : forall payload,
  name <> "" -> name <> "__proto__" -> no_checkbox name form l ->
  fold_left (generatePayload_each form) l payload !! name
  = match last (List.filter (writes name form) l) with
    | Some field => Some (Control.value_of field form)
    | None => payload !! name
    end.
Proof.
  induction l as [|field l IH]; intros payload Hname Hproto Hnc; [reflexivity|].
  cbn [fold_left List.filter].
  rewrite IH by (try assumption; intros f e Hf; apply Hnc; right; exact Hf).
  rewrite (writes_each form payload field name Hname Hproto)
    by (intros e; apply Hnc; left).
  destruct (writes name form field); [|reflexivity].
  rewrite last_cons. destruct (last (List.filter (writes name form) l)); reflexivity.
Qed.

(** Under a name other than [__proto__] that no checkbox of the form
    bears, the payload holds the value of the last listed control, in DOM
    order, that bears the name, is not disabled and, if it is a radio
    button, is checked; the name is absent when there is no such control. *)
Theorem payload_last_control_wins (form : node) (name : string) :
  name <> "" -> name <> "__proto__" -> no_checkbox name form (elements form) ->
  generatePayload form !! name
  = (fun field => Control.value_of field form)
      <$> last (List.filter (writes name form) (elements form)).
Proof.
  intros Hname Hproto Hnc. unfold generatePayload.
  rewrite (writes_fold form name (elements form) ∅ Hname Hproto Hnc), lookup_empty.
  destruct (last _); reflexivity.
Qed.

End PayloadKeys.

(** ** The form [buildForm] returns *)

Section Built.
Context `{Utils} `{Browser}.






End Built.

(** ** A submit of a built form, end to end *)

Section EndToEnd.
Context `{Utils} `{Browser}.




End EndToEnd.

(** ** Where the OTP sub-flow attaches *)

Section Attach.
Context `{Utils} `{Browser}.

Lemma get_append_existing q p c n :
  is_Some (Dom.get q n) -> Dom.at_path q (Dom.append p c n) = Dom.at_path q n.
Proof.
  revert p n. induction q as [|i q IH]; intros p n Hq.
  - destruct p as [|j p]; [reflexivity|]. cbn [Dom.append].
    destruct (children n !! j); reflexivity.
  - destruct p as [|j p].
    + cbn [Dom.append]. rewrite !at_path_cons. cbn [children].
      cbn [Dom.get] in Hq. destruct (children n !! i) as [k|] eqn:Hi; [|destruct Hq; discriminate].
      rewrite lookup_app_l by (eapply lookup_lt_Some; exact Hi). rewrite Hi. reflexivity.
    + cbn [Dom.append]. destruct (children n !! j) as [k|] eqn:Hj; [|reflexivity].
      rewrite !at_path_cons. cbn [children Dom.get] in *.
      destruct (decide (j = i)) as [->|Hne].
      * rewrite list_lookup_insert_eq by (eapply lookup_lt_Some; exact Hj).
        rewrite Hj in Hq |- *. apply IH. exact Hq.
      * rewrite list_lookup_insert_ne by exact Hne. reflexivity.
Qed.

Lemma at_path_get_is_Some q n : is_Some (Dom.at_path q n) -> is_Some (Dom.get q n).
Proof. unfold Dom.at_path. destruct (Dom.get q n); [eauto|intros [? ?]; discriminate]. Qed.

Lemma value_of_input p f e :
  Dom.at_path p f = Some e -> Dom.is_tag "input" e = true -> Control.value_of p f = value e.
Proof.
  unfold Dom.at_path, Control.value_of. destruct (Dom.get p f) as [n|]; [|discriminate].
  cbn. intros [= <-] Htag. unfold Dom.is_tag in *.
  apply String.eqb_eq in Htag. rewrite Htag. reflexivity.
Qed.

Lemma startTimer_counters d pg c :
  otp pg = Some c ->
  exists c', otp (startTimer d pg) = Some c'
    /\ Otp.otpInput c' = Otp.otpInput c /\ Otp.resendCount c' = Otp.resendCount c
    /\ Otp.timerStarted c' = true
    /\ dispatched (startTimer d pg) = dispatched pg
    /\ requests (startTimer d pg) = requests pg /\ href (startTimer d pg) = href pg.
Proof.
  intros Hc. destruct pg as [f hr co rq di fo sc iv ni ot dp]. cbn in Hc. subst ot.
  destruct c as [oi mi lo lt tt rb lm ore rc ti ts ec].
  page_unfold; page_cbn; repeat (split_innermost; page_cbn);
    eexists; (split; [reflexivity|]); page_cbn; auto 10.
Qed.

Lemma proj_update {A} (P : Element -> A) p q g n :
  (forall e, P (g e) = P e) ->
  P <$> Dom.at_path q (Dom.update p g n) = P <$> Dom.at_path q n.
Proof.
  intros HP. rewrite at_path_update. case_decide; [|reflexivity].
  destruct (Dom.at_path q n); cbn; [rewrite HP|]; reflexivity.
Qed.

Lemma value_of_from_proj p f v :
  (fun e => (tagName e, value e)) <$> Dom.at_path p f = Some ("input", v) ->
  Control.value_of p f = v.
Proof.
  destruct (Dom.at_path p f) as [e|] eqn:He; [|discriminate].
  cbn. intros [= Ht Hv]. rewrite (value_of_input p f e He); [exact Hv|].
  unfold Dom.is_tag. rewrite Ht. reflexivity.
Qed.

Lemma querySelector_valid sel n p :
  Dom.querySelector sel n = Some p -> exists e, Dom.at_path p n = Some e /\ sel e = true.
Proof.
  unfold Dom.querySelector. intros Hh.
  assert (Hin : p ∈ Dom.querySelectorAll sel n).
  { destruct (Dom.querySelectorAll sel n) as [|q l]; [discriminate|].
    injection Hh as ->. left. }
  apply elem_of_querySelectorAll in Hin as (_ & e & He & Hsel). eauto.
Qed.

Lemma initOtp_attached (fields : FieldList) (pg : Page) (p f : path) :
  Dom.querySelector (Control.sel_input_named (toCamelCase "otp")) (form pg) = Some p ->
  Dom.closest Control.sel_form_field p (form pg) = Some f ->
  exists c,
    otp (initOtpBehavior fields pg) = Some c
    /\ Otp.otpInput c = p /\ Otp.resendCount c = 0%Z
    /\ Otp.timerStarted c
       = match Dom.querySelector (Control.sel_input_named "mobile") (form pg) with
         | Some m =>
             (10 <=? String.length
                       (Str.filter Str.is_digit (Control.value_of m (form pg))))%nat
         | None => true
         end
    /\ dispatched (initOtpBehavior fields pg) = dispatched pg
    /\ requests (initOtpBehavior fields pg) = requests pg
    /\ href (initOtpBehavior fields pg) = href pg.
Proof.
  intros Hq Hc. unfold initOtpBehavior, otpFieldName. rewrite Hq, Hc.
  destruct (Dom.querySelector (Control.sel_input_named "mobile") (form pg)) as [m|] eqn:Hm.
  - apply querySelector_valid in Hm as (e & He & Hsel).
    apply andb_true_iff in Hsel as [Htag _]. apply String.eqb_eq in Htag.
    unfold maybeStartTimer, with_closure, resetVisibility, setDisplay, set_closure. page_cbn.
    match goal with
    | |- context [Control.value_of m ?F] =>
        assert (Hval : Control.value_of m F = Control.value_of m (form pg))
    end.
    { rewrite (value_of_input m (form pg) e He) by (unfold Dom.is_tag; rewrite Htag; reflexivity).
      apply value_of_from_proj.
      rewrite !(proj_update (fun e => (tagName e, value e))) by reflexivity.
      rewrite get_append_existing.
      2: { apply at_path_get_is_Some. rewrite get_append_existing; [eauto|].
           apply at_path_get_is_Some. eauto. }
      rewrite get_append_existing by (apply at_path_get_is_Some; eauto).
      rewrite He. cbn. rewrite Htag. reflexivity. }
    rewrite Hval.
    destruct (10 <=? String.length _)%nat.
    + match goal with
      | |- context [startTimer ?d ?P] =>
          destruct (startTimer_counters d P _ eq_refl) as (c' & Hc' & Hin & Hrc & Hts & Hd & Hr & Hh)
      end.
      exists c'. page_cbn. rewrite Hc', Hin, Hrc, Hts, Hd, Hr, Hh. auto 10.
    + eexists. page_cbn. split; [reflexivity|]. page_cbn. auto 10.
  - unfold resetVisibility, setDisplay, set_closure. page_cbn.
    match goal with
    | |- context [startTimer ?d ?P] =>
        destruct (startTimer_counters d P _ eq_refl) as (c' & Hc' & Hin & Hrc & Hts & Hd & Hr & Hh)
    end.
    exists c'. rewrite Hc', Hin, Hrc, Hts, Hd, Hr, Hh. auto 10.
Qed.

(** On a form that has an input named [otp] with an ancestor of class
    [form-field], [initOtpBehavior] does attach: it leaves the closure
    behind, with the first such input as the OTP input and the resend
    counter at zero, dispatches nothing, sends nothing and navigates
    nowhere; the timer has started exactly when the form has no input named
    [mobile], or that input already holds ten digits or more. *)
Theorem initOtpBehavior_attaches (fields : FieldList) (pg : Page) (p f : path) :
  Dom.querySelector (Control.sel_input_named (toCamelCase "otp")) (form pg) = Some p ->
  Dom.closest Control.sel_form_field p (form pg) = Some f ->
  exists c,
    otp (initOtpBehavior fields pg) = Some c
    /\ Otp.otpInput c = p /\ Otp.resendCount c = 0%Z
    /\ Otp.timerStarted c
       = match Dom.querySelector (Control.sel_input_named "mobile") (form pg) with
         | Some m =>
             (10 <=? String.length
                       (Str.filter Str.is_digit (Control.value_of m (form pg))))%nat
         | None => true
         end
    /\ dispatched (initOtpBehavior fields pg) = dispatched pg
    /\ requests (initOtpBehavior fields pg) = requests pg
    /\ href (initOtpBehavior fields pg) = href pg.
Proof. apply initOtp_attached. Qed.

End Attach.

(** ** The tab order of the controlled controls *)

Section TabStep.
Context `{Utils}.

Lemma toggle_each_tab target j g fj :
  Dom.closest Control.sel_form_field j g = Some fj ->
  let cm := conditionMet (Dom.attr_at fj "data-condition" g) (Control.value_of target g) in
  exists g', toggleConditional_each target j g = Normal g' /\
    Dom.attr_at j "tabindex" g' = (if cm then None else (fun _ => "-1") <$> Dom.at_path j g) /\
    (forall q, q <> j -> Dom.attr_at q "tabindex" g' = Dom.attr_at q "tabindex" g).
Proof.
  intros Hc cm. unfold toggleConditional_each. rewrite Hc.
  fold cm. destruct cm; cbn zeta.
  - rewrite attr_at_setAttr, decide_False by (intros [_ ?]; discriminate).
    destruct (Field.equals _ "true"); eexists; (split; [reflexivity|]);
      repeat split; intros; attr_simp; try reflexivity.
  - eexists; (split; [reflexivity|]);
      repeat split; intros; attr_simp; try reflexivity.
Qed.

Lemma init_step_tab met j g fj :
  Dom.closest Control.sel_form_field j g = Some fj ->
  let cm := met (Dom.attr_at fj "data-condition" g) in
  exists g', init_step met j g = Normal g' /\
    Dom.attr_at j "tabindex" g' = (if cm then None else (fun _ => "-1") <$> Dom.at_path j g) /\
    (forall q, q <> j -> Dom.attr_at q "tabindex" g' = Dom.attr_at q "tabindex" g).
Proof.
  intros Hc cm. unfold init_step, storeOriginalRequired. rewrite Hc. fold cm. cbn zeta.
  destruct (Dom.has_attr_at j "required" _);
    [destruct (Field.given (Dom.attr_at j "data-original-required" _))|];
    destruct cm; cbn [negb]; eexists; (split; [reflexivity|]);
    repeat split; intros; attr_simp; try reflexivity.
Qed.

End TabStep.

Section TabLoop.
Context `{Utils}.
Variable body : path -> node -> Completion.
Variable cond : path -> node -> bool.
Hypothesis body_spec : forall j g fj,
  Dom.closest Control.sel_form_field j g = Some fj ->
  exists g', body j g = Normal g'
    /\ Rel.sim (Rel.same_outside engine_keys) g g'
    /\ Dom.attr_at fj "aria-hidden" g' = Some (Str.of_bool (negb (cond fj g)))
    /\ (forall q, q <> fj -> Dom.attr_at q "aria-hidden" g' = Dom.attr_at q "aria-hidden" g)
    /\ Dom.attr_at j "tabindex" g'
       = (if cond fj g then None else (fun _ => "-1") <$> Dom.at_path j g)
    /\ (forall q, q <> j -> Dom.attr_at q "tabindex" g' = Dom.attr_at q "tabindex" g).

(** A pass over controlled controls leaves the control [i] and its wrapper
    in agreement if the control is one of them, and as they were if not. *)
Lemma tab_loop form i fld l :
  Dom.closest Control.sel_form_field i form = Some fld ->
  is_Some (Dom.at_path i form) ->
  Forall (fun j => is_Some (Dom.closest Control.sel_form_field j form)) l ->
  (forall j, j ∈ l -> Dom.closest Control.sel_form_field j form = Some fld -> j = i) ->
  forall g, Rel.sim (Rel.same_outside engine_keys) form g ->
  exists g', forEach body l g = Normal g'
    /\ Rel.sim (Rel.same_outside engine_keys) form g'
    /\ (i ∈ l -> tab_follows_hidden i fld g')
    /\ (tab_follows_hidden i fld g -> tab_follows_hidden i fld g').
Proof.
  intros Hi Hvalid Hsome Hshare. induction l as [|j l IH]; intros g Hs.
  - exists g. split; [reflexivity|]. split; [assumption|].
    split; [intros Hx; inversion Hx|auto].
  - apply Forall_cons in Hsome as [[fj Hfj] Hsome].
    assert (Hcg : Dom.closest Control.sel_form_field j g = Some fj)
      by (rewrite (engine_sim_closest form g j Hs); assumption).
    destruct (body_spec j g fj Hcg) as (g1 & Hb & Hs1 & Hah & Hfa & Htab & Hft).
    assert (Hs' : Rel.sim (Rel.same_outside engine_keys) form g1)
      by (eapply sim_trans; [apply same_outside_trans|eassumption..]).
    destruct (IH Hsome (fun j' Hj' => Hshare j' (list_elem_of_further _ _ _ Hj')) g1 Hs')
      as (g' & Hl & Hsg' & Hin & Hkeep).
    exists g'. simpl. rewrite Hb. split; [assumption|]. split; [assumption|].
    destruct (decide (j = i)) as [->|Hji].
    + assert (fj = fld) as -> by congruence.
      assert (Hnow : tab_follows_hidden i fld g1).
      { destruct (sim_at_path _ i form g Hs) as [e e' _|];
          [|destruct Hvalid; discriminate].
        unfold tab_follows_hidden. rewrite Hah, Htab.
        destruct (cond fld g); [right|left]; split; reflexivity. }
      split; intros _; apply Hkeep, Hnow.
    + assert (Hff : fld <> fj).
      { intros <-. apply Hji. apply Hshare; [left|assumption]. }
      assert (Hsame : tab_follows_hidden i fld g -> tab_follows_hidden i fld g1).
      { unfold tab_follows_hidden. rewrite (Hfa fld Hff), (Hft i) by congruence. auto. }
      split.
      * intros Hx. apply elem_of_cons in Hx as [->|Hx]; [congruence|]. apply Hin, Hx.
      * intros Hg. apply Hkeep, Hsame, Hg.
Qed.

End TabLoop.

Section TabOrder.
Context `{Utils}.

Lemma toggle_each_tab_spec target j g fj :
  Dom.closest Control.sel_form_field j g = Some fj ->
  exists g', toggleConditional_each target j g = Normal g'
    /\ Rel.sim (Rel.same_outside engine_keys) g g'
    /\ Dom.attr_at fj "aria-hidden" g'
       = Some (Str.of_bool (negb (conditionMet (Dom.attr_at fj "data-condition" g)
                                               (Control.value_of target g))))
    /\ (forall q, q <> fj -> Dom.attr_at q "aria-hidden" g' = Dom.attr_at q "aria-hidden" g)
    /\ Dom.attr_at j "tabindex" g'
       = (if conditionMet (Dom.attr_at fj "data-condition" g) (Control.value_of target g)
          then None else (fun _ => "-1") <$> Dom.at_path j g)
    /\ (forall q, q <> j -> Dom.attr_at q "tabindex" g' = Dom.attr_at q "tabindex" g).
Proof.
  intros Hc.
  destruct (toggle_each_spec target j g fj Hc) as (g' & Hb & Hs & Hah & Hfa & _).
  destruct (toggle_each_tab target j g fj Hc) as (g'' & Hb' & Htab & Hft).
  rewrite Hb in Hb'. injection Hb' as <-.
  exists g'. split; [exact Hb|]. split; [apply toggle_sim_engine, Hs|]. auto.
Qed.

Lemma init_step_tab_spec met j g fj :
  Dom.closest Control.sel_form_field j g = Some fj ->
  exists g', init_step met j g = Normal g'
    /\ Rel.sim (Rel.same_outside engine_keys) g g'
    /\ Dom.attr_at fj "aria-hidden" g'
       = Some (Str.of_bool (negb (met (Dom.attr_at fj "data-condition" g))))
    /\ (forall q, q <> fj -> Dom.attr_at q "aria-hidden" g' = Dom.attr_at q "aria-hidden" g)
    /\ Dom.attr_at j "tabindex" g'
       = (if met (Dom.attr_at fj "data-condition" g)
          then None else (fun _ => "-1") <$> Dom.at_path j g)
    /\ (forall q, q <> j -> Dom.attr_at q "tabindex" g' = Dom.attr_at q "tabindex" g).
Proof.
  intros Hc.
  destruct (init_step_spec met j g fj Hc) as (g' & Hb & Hs & Hah & Hfa & _).
  destruct (init_step_tab met j g fj Hc) as (g'' & Hb' & Htab & Hft).
  rewrite Hb in Hb'. injection Hb' as <-.
  exists g'. auto 10.
Qed.

(** The first pass, entry by entry. *)
Lemma tab_entries form i fld cfg :
  Dom.closest Control.sel_form_field i form = Some fld ->
  is_Some (Dom.at_path i form) ->
  Forall (fun j => is_Some (Dom.closest Control.sel_form_field j form)) (inputs_of cfg) ->
  (forall j, j ∈ inputs_of cfg ->
     Dom.closest Control.sel_form_field j form = Some fld -> j = i) ->
  forall g, Rel.sim (Rel.same_outside engine_keys) form g ->
  exists g', forEach initConditionals_each cfg g = Normal g'
    /\ Rel.sim (Rel.same_outside engine_keys) form g'
    /\ (i ∈ inputs_of cfg -> tab_follows_hidden i fld g')
    /\ (tab_follows_hidden i fld g -> tab_follows_hidden i fld g').
Proof.
  intros Hi Hvalid. induction cfg as [|[c l] cfg IH]; intros Hsome Hshare g Hs.
  - exists g. split; [reflexivity|]. split; [assumption|].
    split; [intros Hx; inversion Hx|auto].
  - unfold inputs_of in Hsome, Hshare. cbn [fmap list_fmap snd concat] in Hsome, Hshare.
    fold (inputs_of cfg) in Hsome, Hshare.
    apply Forall_app in Hsome as [Hl Hrest].
    destruct (tab_loop (init_step (init_met c g))
                (fun fj g0 => init_met c g (Dom.attr_at fj "data-condition" g0))
                (init_step_tab_spec (init_met c g)) form i fld l Hi Hvalid Hl
                (fun j Hj => Hshare j (proj2 (elem_of_app _ _ _) (or_introl Hj))) g Hs)
      as (g1 & Hb & Hs1 & Hin1 & Hkeep1).
    destruct (IH Hrest (fun j Hj => Hshare j (proj2 (elem_of_app _ _ _) (or_intror Hj))) g1 Hs1)
      as (g' & Hb' & Hs' & Hin' & Hkeep').
    exists g'. cbn [forEach]. rewrite init_each_is_loop, Hb.
    split; [exact Hb'|]. split; [exact Hs'|]. split.
    + unfold inputs_of. cbn [fmap list_fmap snd concat]. fold (inputs_of cfg).
      intros Hx. apply elem_of_app in Hx as [Hx|Hx]; [apply Hkeep', Hin1, Hx|apply Hin', Hx].
    + intros Hg. apply Hkeep', Hkeep1, Hg.
Qed.

Lemma reachable_tab form0 cfg ctrl ins i fld :
  well_formed cfg form0 -> cfg_get ctrl cfg = Some ins -> i ∈ ins ->
  Dom.closest Control.sel_form_field i form0 = Some fld ->
  is_Some (Dom.at_path i form0) ->
  forall g, reachable cfg form0 g ->
    Rel.sim (Rel.same_on ["data-condition"]) form0 g /\ tab_follows_hidden i fld g.
Proof.
  intros Hwf Hget Hi Hc Hvalid g Hr.
  assert (Hin : i ∈ inputs_of cfg)
    by (eapply elem_inputs_of; [apply cfg_get_elem|]; eassumption).
  induction Hr as [|g g' Hr IH Huser|g target Hr IH].
  - destruct (tab_entries form0 i fld cfg Hc Hvalid (wf_some _ _ Hwf)
                (wf_share _ _ _ _ Hwf Hin Hc) form0 (sim_refl _ (same_outside_refl _) _))
      as (g' & Hb & Hs & Hest & _).
    unfold initConditionals. rewrite Hb. cbn [form_of].
    split; [apply engine_on_condition, Hs|apply Hest, Hin].
  - destruct IH as (Hs & Hst). split.
    + eapply sim_trans; [apply same_on_trans|eassumption|apply reads_on_condition; assumption].
    + unfold tab_follows_hidden in *.
      rewrite <- (sim_attr_at_on engine_reads i "tabindex" g g') by (try assumption; in_list).
      rewrite <- (sim_attr_at_on engine_reads fld "aria-hidden" g g') by (try assumption; in_list).
      exact Hst.
  - destruct IH as (Hs & Hst).
    assert (Hwfg : well_formed cfg g)
      by (eapply well_formed_sim; [apply (respects_form_field_on ["data-condition"])|eassumption..]).
    assert (Hcg : Dom.closest Control.sel_form_field i g = Some fld)
      by (rewrite <- (sim_closest _ _ i form0 g (respects_form_field_on _) Hs); assumption).
    assert (Hvg : is_Some (Dom.at_path i g)).
    { destruct (sim_at_path _ i form0 g Hs) as [e e' _|]; [eauto|destruct Hvalid; discriminate]. }
    unfold toggleConditional.
    destruct (cfg_get (Control.name_of target g) cfg) as [l|] eqn:Hl;
      [|cbn [form_of]; auto].
    assert (Hsub : forall j, j ∈ l -> j ∈ inputs_of cfg)
      by (intros j Hj; eapply elem_inputs_of; [apply cfg_get_elem|]; eassumption).
    pose proof (wf_some _ _ Hwfg) as Hall. rewrite Forall_forall in Hall.
    destruct (tab_loop (toggleConditional_each target)
                (fun fj g0 => conditionMet (Dom.attr_at fj "data-condition" g0)
                                           (Control.value_of target g0))
                (toggle_each_tab_spec target) g i fld l Hcg Hvg
                (proj2 (Forall_forall _ _) (fun j Hj => Hall j (Hsub j Hj)))
                (fun j Hj => wf_share _ _ _ _ Hwfg Hin Hcg j (Hsub j Hj))
                g (sim_refl _ (same_outside_refl _) _))
      as (g' & Hb & Hsg & _ & Hkeep).
    rewrite Hb. cbn [form_of]. split; [|apply Hkeep, Hst].
    eapply sim_trans; [apply same_on_trans|eassumption|apply engine_on_condition, Hsg].
Qed.

(** On every form the page can show after [initConditionals], whatever the
    change events and the other steps in between, a controlled control is
    out of the tab order exactly when its wrapper is hidden: the wrapper has
    [aria-hidden] true and the control [tabindex] -1, or the wrapper has
    [aria-hidden] false and the control no [tabindex]. *)
Theorem tab_order_follows_visibility
  (form0 : node) (cfg : ControllerConfig) (ctrl : string) (ins : list path) (i fld : path) :
  well_formed cfg form0 -> cfg_get ctrl cfg = Some ins -> i ∈ ins ->
  Dom.closest Control.sel_form_field i form0 = Some fld ->
  is_Some (Dom.at_path i form0) ->
  forall form, reachable cfg form0 form -> tab_follows_hidden i fld form.
Proof.
  intros Hwf Hget Hi Hc Hvalid g Hr.
  apply (reachable_tab form0 cfg ctrl ins i fld Hwf Hget Hi Hc Hvalid g Hr).
Qed.

End TabOrder.

(** ** Labels and the controls they name *)

Section Labels.
Context `{Utils} `{Browser}.

Lemma not_label_ok ids e : tagName e <> "label" -> label_ok ids e.
Proof.
  intros Hne Htag. unfold Dom.is_tag in Htag. apply String.eqb_eq in Htag. contradiction.
Qed.

Lemma tagName_createElement tag c : tagName (createElement tag c) = tag.
Proof. unfold createElement. destruct (Field.given c); reflexivity. Qed.

Lemma tagName_tagControlled controlled e : tagName (tagControlled controlled e) = tagName e.
Proof. unfold tagControlled. destruct (Field.given controlled); reflexivity. Qed.

Lemma tagName_buildLabel text type id required :
  tagName (buildLabel text type id required) = type.
Proof.
  unfold buildLabel. destruct required, (Field.given id), (String.eqb type "label"); reflexivity.
Qed.

Lemma tagName_buildOptionInput field option : tagName (buildOptionInput field option) = "input".
Proof. unfold buildOptionInput. rewrite tagName_setBoolAttr. reflexivity. Qed.

Lemma id_buildOptionInput field option :
  Dom.prop "id" (buildOptionInput field option)
  = generateId (Str.or_else (Field.field field) "field") (Some option).
Proof.
  unfold buildOptionInput. rewrite prop_setBoolAttr_other by discriminate. reflexivity.
Qed.

Lemma tagName_buildButton field : tagName (buildButton field) = "button".
Proof. unfold buildButton. destruct (Field.equals _ "reset"); reflexivity. Qed.

(** A label built for an id names that id, if any. *)
Lemma label_ok_buildLabel ids text type id required :
  (id <> "" -> id ∈ ids) -> label_ok ids (buildLabel text type (Some id) required).
Proof.
  intros Hid _ i. unfold buildLabel.
  destruct (Field.given (Some id)) as [j|] eqn:Hg.
  - apply given_Some in Hg as [[= <-] Hne].
    destruct (String.eqb type "label"), required;
      cbn [attrs Dom.setAttr Dom.set_attrs createElement Field.given Dom.blank];
      rewrite ?lookup_insert_eq, ?lookup_insert_ne, ?lookup_empty by discriminate;
      rewrite ?lookup_insert_eq; try discriminate; intros [= <-]; auto.
  - destruct required;
      cbn [attrs Dom.setAttr Dom.set_attrs createElement Field.given Dom.blank];
      rewrite ?lookup_insert_ne, ?lookup_empty by discriminate; discriminate.
Qed.

Lemma label_ok_legend ids text required : label_ok ids (buildLabel text "legend" None required).
Proof. apply not_label_ok. rewrite tagName_buildLabel. discriminate. Qed.

Lemma leaf_label_ok ids e : label_ok ids e -> everywhere (label_ok ids) (Node e []).
Proof. intros. constructor; [assumption|constructor]. Qed.

Lemma label_ok_writeHelpText ids text id : everywhere (label_ok ids) (writeHelpText text id).
Proof. apply leaf_label_ok, not_label_ok. discriminate. Qed.

Lemma label_ok_optionLabel ids input text required :
  tagName input = "input" -> Dom.prop "id" input ∈ ids ->
  everywhere (label_ok ids) (optionLabel input text required).
Proof.
  intros Htag Hid. unfold optionLabel. constructor.
  - apply label_ok_buildLabel. auto.
  - constructor; [apply leaf_label_ok, not_label_ok; rewrite Htag; discriminate|].
    constructor; [|constructor].
    apply leaf_label_ok, not_label_ok. rewrite tagName_createElement. discriminate.
Qed.

Lemma label_ok_appended ids c n :
  everywhere (label_ok ids) c -> everywhere (label_ok ids) n ->
  everywhere (label_ok ids) (appended c n).
Proof.
  intros Hc Hn. destruct Hn as [e ks He Hks]. unfold appended. simpl.
  constructor; [assumption|]. apply Forall_app. split; [assumption|].
  constructor; [assumption|constructor].
Qed.

Lemma ids_appended ids c n : ids_of_controls ids n -> ids_of_controls ids (appended c n).
Proof.
  intros Hn i Hi. destruct (Hn i Hi) as (q & e & Hq & Hsel & Hid).
  exists q, e. split; [|auto]. unfold appended. destruct q as [|k q]; [exact Hq|].
  rewrite at_path_cons in Hq |- *. cbn [children].
  destruct (children n !! k) as [c'|] eqn:Hk; [|discriminate].
  rewrite lookup_app_l by (eapply lookup_lt_Some; exact Hk). rewrite Hk. exact Hq.
Qed.

Lemma lookup_map {A B} (g : A -> B) (l : list A) (j : nat) :
  List.map g l !! j = g <$> l !! j.
Proof.
  revert j. induction l as [|x l IH]; intros [|j]; try reflexivity. apply IH.
Qed.

Lemma lookup_cons_succ {A} (x : A) (l : list A) (j : nat) : (x :: l) !! S j = l !! j.
Proof. reflexivity. Qed.

Lemma labels_buildOptions field controlled fieldset :
  buildOptions field controlled = Some fieldset ->
  exists ids, everywhere (label_ok ids) fieldset /\ ids_of_controls ids fieldset.
Proof.
  unfold buildOptions. destruct (Field.given (Field.options field)) as [options|]; [|discriminate].
  intros [= <-].
  set (name := Str.or_else (Field.field field) "field").
  set (input := fun o => buildOptionInput field (Str.trim o)).
  exists ((fun o => Dom.prop "id" (input o)) <$> Str.split "," options). split.
  - constructor.
    + apply not_label_ok. rewrite tagName_tagControlled, tagName_createElement. discriminate.
    + constructor; [apply leaf_label_ok, label_ok_legend|].
      apply Forall_forall. intros n Hn. apply list_elem_of_In, in_map_iff in Hn as (o & <- & Ho).
      apply label_ok_optionLabel; [apply tagName_buildOptionInput|].
      apply list_elem_of_fmap. exists o. split; [reflexivity|apply list_elem_of_In, Ho].
  - intros i Hi. apply list_elem_of_fmap in Hi as (o & -> & Ho).
    apply list_elem_of_lookup in Ho as (j & Hj).
    exists [S j; 0%nat], (input o). split; [|split; [|reflexivity]].
    + rewrite at_path_cons. cbn [children].
      rewrite (lookup_cons_succ _ _ j), lookup_map, Hj. reflexivity.
    + unfold Control.sel_control, Dom.is_tag. unfold input.
      rewrite tagName_buildOptionInput. reflexivity.
Qed.

Lemma labels_buildToggle field controlled :
  exists ids, everywhere (label_ok ids) (buildToggle field controlled)
              /\ ids_of_controls ids (buildToggle field controlled).
Proof.
  unfold buildToggle.
  set (input0 := buildOptionInput (Field.with_type "checkbox" field)
                   (Str.or_else (Field.default field) "true")).
  set (input := Dom.add_listener "change" OnToggleChange
                  (Dom.setAttr "aria-checked"
                     (Str.of_bool (checked (Dom.setAttr "role" "switch" input0)))
                     (Dom.setAttr "role" "switch" input0))).
  assert (Htag : tagName input = "input") by apply tagName_buildOptionInput.
  exists [Dom.prop "id" input]. split.
  - constructor.
    + apply not_label_ok. rewrite tagName_tagControlled, tagName_createElement. discriminate.
    + constructor; [|constructor]. apply label_ok_optionLabel; [exact Htag|left].
  - intros i Hi. apply list_elem_of_singleton in Hi as ->.
    exists [0; 0]%nat, input. split; [reflexivity|]. split; [|reflexivity].
    unfold Control.sel_control, Dom.is_tag. rewrite Htag. reflexivity.
Qed.

Lemma labels_buildSelect field controlled select :
  buildSelect field controlled = Some select ->
  exists ids, everywhere (label_ok ids) select /\ ids_of_controls ids select.
Proof.
  intros Hb. destruct (buildSelect_shape _ _ _ Hb) as (_ & label & control & Hch & Htag & Hid).
  revert Hb Hch. unfold buildSelect.
  destruct (Field.given (Field.options field)) as [options|]; [|discriminate].
  intros [= <-]. cbn [children]. intros [= <- <-].
  set (id := generateId (Str.or_else (Field.field field) "field") None) in *.
  exists [id]. split.
  - constructor.
    + apply not_label_ok. rewrite tagName_tagControlled, tagName_createElement. discriminate.
    + constructor; [apply leaf_label_ok, label_ok_buildLabel; intros _; left|].
      constructor; [|constructor]. constructor.
      * apply not_label_ok. rewrite tagName_setBoolAttr. discriminate.
      * apply Forall_app. split.
        -- destruct (Field.given (Field.placeholder field)); [|constructor].
           constructor; [|constructor]. apply leaf_label_ok, not_label_ok.
           intros Heq. vm_compute in Heq. discriminate.
        -- destruct (isURL options); [constructor|].
           apply Forall_forall. intros n Hn.
           apply list_elem_of_In, in_map_iff in Hn as (o & <- & _).
           apply leaf_label_ok, not_label_ok. discriminate.
  - intros i Hi. apply list_elem_of_singleton in Hi as ->.
    eexists [1%nat], _. split; [reflexivity|]. split.
    + unfold Control.sel_control, Dom.is_tag. rewrite Htag. reflexivity.
    + exact Hid.
Qed.

Lemma labels_bare e :
  tagName e <> "label" ->
  exists ids, everywhere (label_ok ids) (Node e []) /\ ids_of_controls ids (Node e []).
Proof.
  intros Hne. exists []. split; [apply leaf_label_ok, not_label_ok, Hne|].
  intros i Hi. inversion Hi.
Qed.

Lemma labels_with_help (n : node) h id :
  (exists ids, everywhere (label_ok ids) n /\ ids_of_controls ids n) ->
  exists ids, everywhere (label_ok ids) (appended (writeHelpText h id) n)
              /\ ids_of_controls ids (appended (writeHelpText h id) n).
Proof.
  intros (ids & Hl & Hi). exists ids. split.
  - apply label_ok_appended; [apply label_ok_writeHelpText|exact Hl].
  - apply ids_appended, Hi.
Qed.

(** Every field has a list of ids of its controls that holds the target of
    every label of the field. *)
Lemma labels_buildField field :
  exists ids, everywhere (label_ok ids) (buildField field)
              /\ ids_of_controls ids (buildField field).
Proof.
  unfold buildField.
  destruct (Field.equals (Field.type field) "hidden").
  { apply labels_bare. rewrite (proj1 (buildInput_shape field)). discriminate. }
  destruct (Field.equals (Field.type field) "submit" || Field.equals (Field.type field) "reset").
  { apply labels_bare. rewrite tagName_buildButton. discriminate. }
  destruct (Field.equals (Field.type field) "radio" || Field.equals (Field.type field) "checkbox").
  { destruct (buildOptions field _) as [fieldset|] eqn:Hb.
    - apply labels_buildOptions in Hb.
      destruct (Field.given (Field.help field)); [apply labels_with_help|]; exact Hb.
    - apply labels_bare. discriminate. }
  destruct (Field.equals (Field.type field) "toggle").
  { destruct (Field.given (Field.help field)); [apply labels_with_help|];
      apply labels_buildToggle. }
  destruct (Field.equals (Field.type field) "select").
  { destruct (buildSelect field _) as [select|] eqn:Hb.
    - apply labels_buildSelect in Hb.
      destruct (Field.given (Field.help field)); [apply labels_with_help|]; exact Hb.
    - apply labels_bare. discriminate. }
  set (id := generateId (Str.or_else (Field.field field) "field") None).
  set (wrapper := tagControlled _ _).
  set (label := buildLabel _ _ _ _).
  assert (Hw : label_ok [id] wrapper).
  { apply not_label_ok. unfold wrapper.
    rewrite tagName_tagControlled, tagName_createElement. discriminate. }
  assert (Hl : everywhere (label_ok [id]) (Node label []))
    by (apply leaf_label_ok, label_ok_buildLabel; intros _; left).
  exists [id].
  assert (Hta_tag : tagName (buildTextArea field) <> "label")
    by (rewrite (proj1 (buildTextArea_shape field)); discriminate).
  assert (Hin_tag : tagName (buildInput field) <> "label")
    by (rewrite (proj1 (buildInput_shape field)); discriminate).
  assert (Hta_sel : forall k v, Control.sel_control (Dom.setAttr k v (buildTextArea field)) = true
                                /\ Control.sel_control (buildTextArea field) = true).
  { intros k v. unfold Control.sel_control, Dom.is_tag.
    cbn [tagName Dom.setAttr Dom.set_attrs].
    rewrite (proj1 (buildTextArea_shape field)). split; reflexivity. }
  assert (Hin_sel : forall k v, Control.sel_control (Dom.setAttr k v (buildInput field)) = true
                                /\ Control.sel_control (buildInput field) = true).
  { intros k v. unfold Control.sel_control, Dom.is_tag.
    cbn [tagName Dom.setAttr Dom.set_attrs].
    rewrite (proj1 (buildInput_shape field)). split; reflexivity. }
  pose proof (proj2 (buildTextArea_shape field)) as Hta_id.
  pose proof (proj2 (buildInput_shape field)) as Hin_id. fold id in Hta_id, Hin_id.
  destruct (Field.equals (Field.type field) "textarea") eqn:Hta;
    destruct (Field.given (Field.help field)) as [h|];
    cbn [fmap option_fmap option_map appended insertAfterFirst children elem app].
  - split.
    + constructor; [exact Hw|]. constructor; [exact Hl|].
      constructor; [apply label_ok_writeHelpText|]. constructor; [|constructor].
      apply leaf_label_ok, not_label_ok. exact Hta_tag.
    + intros i Hi. apply list_elem_of_singleton in Hi as ->.
      eexists [2%nat], _. split; [reflexivity|]. cbn [elem]. split; [apply (proj1 (Hta_sel _ _))|].
      rewrite prop_setAttr_other by discriminate. exact Hta_id.
  - split.
    + constructor; [exact Hw|]. constructor; [exact Hl|]. constructor; [|constructor].
      apply leaf_label_ok, not_label_ok. exact Hta_tag.
    + intros i Hi. apply list_elem_of_singleton in Hi as ->.
      eexists [1%nat], _. split; [reflexivity|]. cbn [elem].
      split; [apply (proj2 (Hta_sel "" ""))|exact Hta_id].
  - split.
    + constructor; [exact Hw|]. constructor; [exact Hl|].
      constructor; [|constructor; [apply label_ok_writeHelpText|constructor]].
      apply leaf_label_ok, not_label_ok. exact Hin_tag.
    + intros i Hi. apply list_elem_of_singleton in Hi as ->.
      eexists [1%nat], _. split; [reflexivity|]. cbn [elem]. split; [apply (proj1 (Hin_sel _ _))|].
      rewrite prop_setAttr_other by discriminate. exact Hin_id.
  - split.
    + constructor; [exact Hw|]. constructor; [exact Hl|]. constructor; [|constructor].
      apply leaf_label_ok, not_label_ok. exact Hin_tag.
    + intros i Hi. apply list_elem_of_singleton in Hi as ->.
      eexists [1%nat], _. split; [reflexivity|]. cbn [elem].
      split; [apply (proj2 (Hin_sel "" ""))|exact Hin_id].
Qed.

(** In the field [buildField] returns for any descriptor, every [label]
    element that carries [for] names the id of an [input], [select] or
    [textarea] of the same field. *)
Theorem labels_name_controls (field : Field.t) (q : path) (e : Element) (i : string) :
  Dom.at_path q (buildField field) = Some e ->
  Dom.is_tag "label" e = true -> attrs e !! "for" = Some i ->
  exists q' e',
    Dom.at_path q' (buildField field) = Some e'
    /\ Control.sel_control e' = true /\ Dom.prop "id" e' = i.
Proof.
  intros Hq Htag Hfor. destruct (labels_buildField field) as (ids & Hl & Hi).
  apply Hi. exact (everywhere_at_path _ _ _ _ Hl Hq Htag i Hfor).
Qed.

End Labels.

(** ** Options: from a URL, and missing *)

Section Options.
Context `{Utils} `{Browser}.

(** The option elements [buildOptionsFromUrl] makes of the entries it
    fetched, one for each entry and in their order: the value of an option is
    the entry's value, or its label when the value is missing or empty; its
    text is the label, or the value when the label is missing or empty; an
    entry with neither gives an option without value and text. *)
Theorem options_from_url_fall_back (data : list (option string * option string)) :
  List.length (buildOptionsFromUrl data) = List.length data
  /\ forall k o v,
       data !! k = Some (o, v) ->
       exists e,
         buildOptionsFromUrl data !! k = Some (Node e [])
         /\ tagName e = "option"
         /\ value e = Str.or_else v (Str.or_else o "")
         /\ textContent e = Str.or_else o (Str.or_else v "").
Proof.
  split; [apply length_map|].
  intros k o v Hk. exists (optionFromEntry (o, v)). split.
  - unfold buildOptionsFromUrl.
    change (List.map (fun o0 => Node (optionFromEntry o0) []) data)
      with ((fun o0 => Node (optionFromEntry o0) []) <$> data).
    rewrite list_lookup_fmap, Hk. reflexivity.
  - unfold optionFromEntry, Str.or_else, Field.given.
    destruct o as [[|a o]|], v as [[|b v]|]; cbn; auto.
Qed.

(** A radio, checkbox or select field whose options are missing or empty is
    built as an empty [div] without class: its label, its help text and its
    condition are dropped, and it contributes no control to the form. *)
Theorem field_without_options_is_empty (field : Field.t) (type : string) :
  Field.type field = Some type -> type ∈ option_types ->
  Field.given (Field.options field) = None ->
  buildField field = Node (Dom.blank "div") []
  /\ Dom.querySelectorAll Control.listed (buildField field) = [].
Proof.
  intros Hty Hin Hopt.
  assert (Hb : buildField field = Node (Dom.blank "div") []).
  { unfold buildField, buildOptions, buildSelect. rewrite Hty, Hopt.
    unfold option_types in Hin.
    repeat (apply elem_of_cons in Hin as [->|Hin]; [reflexivity|]). inversion Hin. }
  rewrite Hb. split; reflexivity.
Qed.

End Options.

(** ** The properties above on the sample pages *)

Section Scenarios.
Import Sample Scenario.

Lemma handleSubmit_navigates_witness :
  (exists text, outcome accepted = Responded true text)
  /\ is_Some (Field.given (Dom.attr_at [] "data-action" (form submittable)))
  /\ href (handleSubmit accepted submittable)
     = Field.given (Dom.attr_at [] "data-confirmation"
                      (meanwhile accepted (toggleForm (form submittable) true)))
  /\ console (handleSubmit accepted submittable) = console submittable.
Proof.
  apply (handleSubmit_navigates_only_on_success accepted submittable).
  vm_compute. discriminate.
Defined.

Lemma invalid_submit_witness :
  exists el,
    firstInvalid (form blank) = Some el /\ valid (form blank) el = false
    /\ requests (onFormSubmit offline blank) = requests blank
    /\ href (onFormSubmit offline blank) = href blank
    /\ defaultPrevented (onFormSubmit offline blank) = true
    /\ focused (onFormSubmit offline blank) = Some el
    /\ Dom.attr_at el "aria-invalid" (form (onFormSubmit offline blank)) = Some "true"
    /\ Rel.sim (Rel.same_outside ["aria-invalid"]) (form blank)
               (form (onFormSubmit offline blank)).
Proof.
  apply (invalid_submit_marks_first_invalid offline blank).
  vm_compute. reflexivity.
Defined.

Lemma resend_events_witness :
  dispatched (happenAll impatient otpPage)
  = dispatched otpPage ++ repeat ("otp:resend", true) (Nat.min (resend_clicks impatient) 3).
Proof.
  apply (resend_events_bounded impatient otpPage closure); vm_compute; reflexivity.
Defined.

Lemma countdown_witness :
  let id := nextInterval otpPage in
  let pg' := intervalFiresTimes 30 id (startTimer 30 otpPage) in
  if (Z.of_nat 30 <? 30)%Z
  then intervals pg' !! id = Some (30 - 1 - Z.of_nat 30)%Z
       /\ display <$> Dom.at_path (Otp.resendButton closure) (form pg') = Some "none"
       /\ textContent <$> Dom.at_path (Otp.timerText closure) (form pg')
          = Some (" " +:+ pretty (30 - Z.of_nat 30)%Z +:+ "s")
  else intervals pg' !! id = None
       /\ display <$> Dom.at_path (Otp.resendButton closure) (form pg') = Some "inline-flex"
       /\ textContent <$> Dom.at_path (Otp.timerText closure) (form pg') = Some " 0s".
Proof.
  apply (countdown_reveals_resend otpPage closure 30%Z 30);
    solve [vm_compute; reflexivity|vm_compute; eauto|vm_compute; discriminate|lia].
Defined.

Lemma config_value_witness :
  getFormConfigValue (configFields rows) "resendLimitMessage" "Resend OTP limit exhausted."
  = match config_row "resendLimitMessage" rows with
    | Some (_ :: v :: _) =>
        if Str.truthy (Str.trim v) then Str.trim v else "Resend OTP limit exhausted."
    | _ => "Resend OTP limit exhausted."
    end
  /\ ("Resend OTP limit exhausted." <> "" ->
      getFormConfigValue (configFields rows) "resendLimitMessage" "Resend OTP limit exhausted."
      <> "").
Proof.
  apply (config_value_from_first_row rows "resendLimitMessage"). discriminate.
Defined.


Lemma initOtpBehavior_attaches_witness :
  exists c,
    otp (initOtpBehavior [] (Pg.initial (built staticFields))) = Some c
    /\ Otp.otpInput c = otpInput /\ Otp.resendCount c = 0%Z
    /\ Otp.timerStarted c
       = match Dom.querySelector (Control.sel_input_named "mobile")
                 (form (Pg.initial (built staticFields))) with
         | Some m =>
             (10 <=? String.length
                       (Str.filter Str.is_digit
                          (Control.value_of m (form (Pg.initial (built staticFields))))))%nat
         | None => true
         end
    /\ dispatched (initOtpBehavior [] (Pg.initial (built staticFields)))
       = dispatched (Pg.initial (built staticFields))
    /\ requests (initOtpBehavior [] (Pg.initial (built staticFields)))
       = requests (Pg.initial (built staticFields))
    /\ href (initOtpBehavior [] (Pg.initial (built staticFields)))
       = href (Pg.initial (built staticFields)).
Proof.
  apply (initOtpBehavior_attaches [] (Pg.initial (built staticFields)) otpInput [3%nat]);
    vm_compute; reflexivity.
Defined.

Lemma only_submission_posts_witness :
  requests (happenAll otpSubmit (filled "12345")) = requests (filled "12345")
  /\ console (happenAll otpSubmit (filled "12345")) = console (filled "12345")
  /\ (href (happenAll otpSubmit (filled "12345")) = href (filled "12345")
      \/ href (happenAll otpSubmit (filled "12345")) = Some "/thank-you").
Proof.
  apply (only_submission_posts otpSubmit (filled "12345")).
  repeat constructor.
Defined.

Lemma payload_last_control_wins_witness :
  generatePayload (check [0; 2; 0]%nat (built [plan "Basic"; details "plan-pro"])) !! "plan"
  = (fun field =>
       Control.value_of field (check [0; 2; 0]%nat (built [plan "Basic"; details "plan-pro"])))
      <$> last (List.filter
                  (writes "plan" (check [0; 2; 0]%nat (built [plan "Basic"; details "plan-pro"])))
                  (elements (check [0; 2; 0]%nat (built [plan "Basic"; details "plan-pro"])))).
Proof.
  apply payload_last_control_wins; [discriminate|discriminate|].
  intros field e Hf.
  set (l := elements _) in Hf. vm_compute in l. subst l.
  repeat (apply elem_of_cons in Hf as [->|Hf];
          [intros He; vm_compute in He; injection He as <-; vm_compute; intros;
           discriminate|]).
  inversion Hf.
Defined.

(** The same on the sample form: Pro is the checked radio button, and the
    payload holds its value. *)
Example payload_last_control :
  generatePayload (check [0; 2; 0]%nat (built [plan "Basic"; details "plan-pro"])) !! "plan"
  = Some "Pro"
  /\ List.filter (writes "plan" (check [0; 2; 0]%nat (built [plan "Basic"; details "plan-pro"])))
                 (elements (check [0; 2; 0]%nat (built [plan "Basic"; details "plan-pro"])))
     = [[0; 2; 0]%nat].
Proof. vm_compute. split; reflexivity. Qed.


(** On that form, which is valid: one request, and the confirmation. *)
Example submit_of_built_form_posts :
  (fun r => (url r, map_to_list (data r))) <$> requests (userSubmits accepted submittable)
  = [("/submit", [("details", "x"); ("plan", "Basic")])]
  /\ href (userSubmits accepted submittable) = Some "/done".
Proof. vm_compute. split; reflexivity. Qed.

Lemma handleSubmit_reenables_witness :
  Rel.sim (Rel.same_outside ["disabled"])
          (form submittable) (form (handleSubmit accepted submittable))
  /\ Forall (fun el => disabled_at el (form (handleSubmit accepted submittable)) = false)
            (elements (form (handleSubmit accepted submittable))).
Proof.
  destruct (handleSubmit_reenables accepted submittable) as (_ & _ & Hall & Hsame).
  split; [|exact Hall].
  apply Hsame. intros f. apply sim_refl, same_outside_refl.
Defined.

Lemma field_without_options_witness :
  buildField (Field.mk (Some "select") (Some "plan") (Some "Plan") (Some "Pick one") None None
                       None None (Some "plan-pro") None None None None)
  = Node (Dom.blank "div") []
  /\ Dom.querySelectorAll Control.listed
       (buildField (Field.mk (Some "select") (Some "plan") (Some "Plan") (Some "Pick one") None
                             None None None (Some "plan-pro") None None None None)) = [].
Proof.
  apply (field_without_options_is_empty _ "select"); [reflexivity| |reflexivity].
  unfold option_types. right. right. left.
Defined.

Lemma labels_name_controls_witness :
  exists q' e',
    Dom.at_path q' (buildField (details "plan-pro")) = Some e'
    /\ Control.sel_control e' = true /\ Dom.prop "id" e' = "details".
Proof.
  destruct (Dom.at_path [0%nat] (buildField (details "plan-pro"))) as [e|] eqn:He;
    [|vm_compute in He; discriminate].
  apply (labels_name_controls (details "plan-pro") [0%nat] e "details").
  - exact He.
  - vm_compute in He. injection He as <-. vm_compute. reflexivity.
  - vm_compute in He. injection He as <-. vm_compute. reflexivity.
Defined.

Lemma tab_order_follows_visibility_witness :
  tab_follows_hidden [1; 1]%nat [1%nat]
    (form_of (toggleConditional [0; 2; 0]%nat (snd (linked [plan "Basic"; details "plan-pro"]))
                (form_of (initConditionals (fst (linked [plan "Basic"; details "plan-pro"]))
                                           (snd (linked [plan "Basic"; details "plan-pro"])))))).
Proof.
  apply (tab_order_follows_visibility (fst (linked [plan "Basic"; details "plan-pro"]))
           (snd (linked [plan "Basic"; details "plan-pro"]))
           "plan" [[1; 1]%nat] [1; 1]%nat [1%nat]).
  - unfold well_formed. split; decide_by_computation.
  - vm_compute. reflexivity.
  - left.
  - vm_compute. reflexivity.
  - vm_compute. eauto.
  - apply reach_change, reach_init.
Defined.

End Scenarios.
